(** * A shallow embedding of the streaming JPEG scan decoder

    The development follows [image/jpeg/scan.go]: the scan header
    validator, the MCU/block traversal, the first-pass and refinement
    coefficient decoders, restart handling, block reconstruction and the
    16x16 tile sink.  Go integers of fixed width are integers of [Z] with
    their wrap-around written out; arrays are lists read and written by
    index; errors and run-time panics are values of the [result] type. *)

From Stdlib Require Import ZArith Lia Bool.
From stdpp Require Import base list list_numbers strings.

Local Open Scope Z_scope.

(** ** Fixed-width integers *)

Definition u8 (z : Z) : Z := z mod 2 ^ 8.
Definition u16 (z : Z) : Z := z mod 2 ^ 16.
Definition u32 (z : Z) : Z := z mod 2 ^ 32.
Definition i16 (z : Z) : Z := (z + 2 ^ 15) mod 2 ^ 16 - 2 ^ 15.
Definition i32 (z : Z) : Z := (z + 2 ^ 31) mod 2 ^ 32 - 2 ^ 31.


(** ** Errors *)

(** [FormatError] and [UnsupportedError] are the package's two error
    kinds; [OtherError] stands for whatever a primitive reports (an I/O
    error of the byte source); [Panic] is a Go run-time panic. *)
Inductive error : Type :=
| FormatError (msg : string)
| UnsupportedError (msg : string)
| OtherError (code : Z)
| Panic (msg : string).

Inductive result (A : Type) : Type :=
| Ok (a : A)
| Err (e : error).
Arguments Ok {A} a.
Arguments Err {A} e.

Definition bind {A B : Type} (m : result A) (k : A -> result B) : result B :=
  match m with
  | Ok a => k a
  | Err e => Err e
  end.

Notation "'let*' p ':=' m 'in' k" := (bind m (fun p => k))
  (at level 10, p pattern, m at level 100, k at level 200).

Definition isFormatError {A : Type} (r : result A) : bool :=
  match r with
  | Err (FormatError _) => true
  | _ => false
  end.

Definition isUnsupportedError {A : Type} (r : result A) : bool :=
  match r with
  | Err (UnsupportedError _) => true
  | _ => false
  end.

Definition isOk {A : Type} (r : result A) : bool :=
  match r with
  | Ok _ => true
  | Err _ => false
  end.

(** ** Arrays *)

(** [a[i]]: Go panics when the index is out of range. *)
Definition index {A : Type} (l : list A) (i : Z) : result A :=
  if i <? 0 then Err (Panic "index out of range")
  else match l !! Z.to_nat i with
       | Some x => Ok x
       | None => Err (Panic "index out of range")
       end.

(** [a[i] = x]. *)
Definition store {A : Type} (l : list A) (i : Z) (x : A) : result (list A) :=
  if (0 <=? i) && (i <? Z.of_nat (length l))
  then Ok (<[Z.to_nat i := x]> l)
  else Err (Panic "index out of range").

(** A [for] loop whose bound is fixed before it starts and whose index is
    only read by the body: the body runs on each index in turn, and an
    error ends the loop. *)
Fixpoint forEach {A S : Type} (body : A -> S -> result S) (l : list A) (s : S)
  : result S :=
  match l with
  | [] => Ok s
  | x :: l' => let* s' := body x s in forEach body l' s'
  end.

(** Entry [k] of the buffer is set to [F k], for k = 0 .. m-1. *)
Definition filled (F : Z -> result Z) (m : Z) (buf buf' : list Z) : Prop :=
  length buf' = length buf
  /\ forall i, 0 <= i < m ->
       exists v, F i = Ok v /\ buf' !! Z.to_nat i = Some v.

(** ** Constants of the package *)

(** Modelled from the spec: the constants [blockSize], [maxComponents],
    [maxTh], [dcTable], [acTable], [rst0Marker] and [rst7Marker] are
    declared outside scan.go; a block has exactly 64 coefficients, a frame
    at most four components, and the restart markers cycle RST0..RST7,
    whose codes are 0xd0..0xd7. *)
Definition blockSize : Z := 64.
Definition maxComponents : Z := 4.
Definition maxTh : Z := 3.
Definition dcTable : Z := 0.
Definition acTable : Z := 1.
Definition rst0Marker : Z := 0xd0.
Definition rst7Marker : Z := 0xd7.

(** A block: 64 coefficients of type int32, in natural order. *)
Abbreviation block := (list Z) (only parsing).

Definition zeroBlock : block := replicate (Z.to_nat blockSize) 0.

(** ** The external collaborators *)

(** The bit reader, the Huffman decoder, the byte source, the inverse DCT,
    the colour conversion and the zig-zag table are not part of scan.go.
    They are taken as parameters: [bitsT] is the type of the field
    [d.bits] and [bitsZero] its zero value [bits{}], [byteSrc] is the
    state of the byte source.  Each primitive reads and updates the bit
    reader and the byte source and nothing else of the decoder. *)
Class Primitives : Type := {
  huffman : Type;
  bitsT : Type;
  bitsZero : bitsT;
  byteSrc : Type;
  (** [readFull(p)] with [len(p) = n]: the bytes read. *)
  readFull : Z -> bitsT -> byteSrc -> result (list Z * bitsT * byteSrc);
  (** [decodeHuffman(h)] returns a uint8. *)
  decodeHuffman : huffman -> bitsT -> byteSrc -> result (Z * bitsT * byteSrc);
  decodeBit : bitsT -> byteSrc -> result (bool * bitsT * byteSrc);
  (** [decodeBits(n)] returns a uint32. *)
  decodeBits : Z -> bitsT -> byteSrc -> result (Z * bitsT * byteSrc);
  (** [receiveExtend(t)] returns an int32. *)
  receiveExtend : Z -> bitsT -> byteSrc -> result (Z * bitsT * byteSrc);
  (** [idct(b)] rewrites the block in place. *)
  idct : block -> block;
  (** [color.YCbCrToRGB] returns three uint8. *)
  YCbCrToRGB : Z -> Z -> Z -> Z * Z * Z;
  (** [unzig] maps a zig-zag index to a natural-order index. *)
  unzig : list Z;
}.

(** The table is a permutation of the 64 positions of a block. *)
Definition unzigOk `{Primitives} : bool :=
  bool_decide (length unzig = Z.to_nat blockSize)
  && forallb (fun u => (0 <=? u) && (u <? blockSize)) unzig
  && bool_decide (NoDup unzig).

(** ** The decoder *)

(** A frame component: identifier, sampling factors, quantization table. *)
Record component : Type := mkComponent {
  comp_c : Z;
  comp_h : Z;
  comp_v : Z;
  comp_tq : Z;
}.

(** One entry of the local array [scan] of [processSOS]. *)
Record scanEntry : Type := mkScanEntry {
  scan_compIndex : Z;
  scan_td : Z;
  scan_ta : Z;
}.

(** One invocation of the sink [callback]: the 256 packed pixels, the
    top-left coordinate, the tile extent and the image size, all int16. *)
Record tile : Type := mkTile {
  t_pix : list Z;
  t_x : Z;
  t_y : Z;
  t_w : Z;
  t_h : Z;
  t_width : Z;
  t_height : Z;
}.

(** What the sink is told about the place of a tile. *)
Definition tileGeometry (t : tile) : Z * Z * Z * Z * Z * Z :=
  (t_x t, t_y t, t_w t, t_h t, t_width t, t_height t).

(** The fields of the Go struct [decoder] that scan.go uses (field [x] is
    [d_x]; [d_r] is the byte source), followed by the package-level
    buffers [processSOSBuf], [reconstructBlockBuf] and [callbackBuf] and by
    the calls made to the package-level [callback], oldest first.  An
    image is kept as the size of its backing rectangle (and, for a YCbCr
    image, the code of its subsample ratio); a nil slice is [None]. *)
Record decoder `{Primitives} : Type := mkDecoder {
  d_r : byteSrc;
  d_bits : bitsT;
  d_width : Z;
  d_height : Z;
  d_img1 : option (Z * Z);
  d_img3 : option (Z * Z * Z);
  d_blackPix : option (list Z);
  d_blackStride : Z;
  d_ri : Z;
  d_nComp : Z;
  d_baseline : bool;
  d_progressive : bool;
  d_eobRun : Z;
  d_comp : list component;
  d_progCoeffs : list (option (list block));
  d_huff : list (list huffman);
  d_quant : list block;
  d_tmp : list Z;
  processSOSBuf : list Z;
  reconstructBlockBuf : list Z;
  callbackBuf : list Z;
  emitted : list tile;
}.

Section Decoder.
Context `{P : Primitives}.

Definition setReader (bt : bitsT) (r : byteSrc) (d : decoder) : decoder :=
  mkDecoder _ r bt (d_width d) (d_height d) (d_img1 d) (d_img3 d)
    (d_blackPix d) (d_blackStride d) (d_ri d) (d_nComp d) (d_baseline d)
    (d_progressive d) (d_eobRun d) (d_comp d) (d_progCoeffs d) (d_huff d)
    (d_quant d) (d_tmp d) (processSOSBuf d) (reconstructBlockBuf d)
    (callbackBuf d) (emitted d).

Definition setBits (bt : bitsT) (d : decoder) : decoder :=
  setReader bt (d_r d) d.

Definition setImg (i1 : option (Z * Z)) (i3 : option (Z * Z * Z))
    (bp : option (list Z)) (bs : Z) (d : decoder) : decoder :=
  mkDecoder _ (d_r d) (d_bits d) (d_width d) (d_height d) i1 i3
    bp bs (d_ri d) (d_nComp d) (d_baseline d)
    (d_progressive d) (d_eobRun d) (d_comp d) (d_progCoeffs d) (d_huff d)
    (d_quant d) (d_tmp d) (processSOSBuf d) (reconstructBlockBuf d)
    (callbackBuf d) (emitted d).

Definition setEobRun (e : Z) (d : decoder) : decoder :=
  mkDecoder _ (d_r d) (d_bits d) (d_width d) (d_height d) (d_img1 d) (d_img3 d)
    (d_blackPix d) (d_blackStride d) (d_ri d) (d_nComp d) (d_baseline d)
    (d_progressive d) e (d_comp d) (d_progCoeffs d) (d_huff d)
    (d_quant d) (d_tmp d) (processSOSBuf d) (reconstructBlockBuf d)
    (callbackBuf d) (emitted d).

Definition setProgCoeffs (pc : list (option (list block))) (d : decoder)
  : decoder :=
  mkDecoder _ (d_r d) (d_bits d) (d_width d) (d_height d) (d_img1 d) (d_img3 d)
    (d_blackPix d) (d_blackStride d) (d_ri d) (d_nComp d) (d_baseline d)
    (d_progressive d) (d_eobRun d) (d_comp d) pc (d_huff d)
    (d_quant d) (d_tmp d) (processSOSBuf d) (reconstructBlockBuf d)
    (callbackBuf d) (emitted d).

Definition setTmp (t : list Z) (d : decoder) : decoder :=
  mkDecoder _ (d_r d) (d_bits d) (d_width d) (d_height d) (d_img1 d) (d_img3 d)
    (d_blackPix d) (d_blackStride d) (d_ri d) (d_nComp d) (d_baseline d)
    (d_progressive d) (d_eobRun d) (d_comp d) (d_progCoeffs d) (d_huff d)
    (d_quant d) t (processSOSBuf d) (reconstructBlockBuf d)
    (callbackBuf d) (emitted d).

Definition setSOSBuf (buf : list Z) (d : decoder) : decoder :=
  mkDecoder _ (d_r d) (d_bits d) (d_width d) (d_height d) (d_img1 d) (d_img3 d)
    (d_blackPix d) (d_blackStride d) (d_ri d) (d_nComp d) (d_baseline d)
    (d_progressive d) (d_eobRun d) (d_comp d) (d_progCoeffs d) (d_huff d)
    (d_quant d) (d_tmp d) buf (reconstructBlockBuf d)
    (callbackBuf d) (emitted d).

Definition setReconstructBuf (buf : list Z) (d : decoder) : decoder :=
  mkDecoder _ (d_r d) (d_bits d) (d_width d) (d_height d) (d_img1 d) (d_img3 d)
    (d_blackPix d) (d_blackStride d) (d_ri d) (d_nComp d) (d_baseline d)
    (d_progressive d) (d_eobRun d) (d_comp d) (d_progCoeffs d) (d_huff d)
    (d_quant d) (d_tmp d) (processSOSBuf d) buf
    (callbackBuf d) (emitted d).

(** The sink is called with the first 256 entries of [callbackBuf]. *)
Definition setCallback (buf : list Z) (calls : list tile) (d : decoder)
  : decoder :=
  mkDecoder _ (d_r d) (d_bits d) (d_width d) (d_height d) (d_img1 d) (d_img3 d)
    (d_blackPix d) (d_blackStride d) (d_ri d) (d_nComp d) (d_baseline d)
    (d_progressive d) (d_eobRun d) (d_comp d) (d_progCoeffs d) (d_huff d)
    (d_quant d) (d_tmp d) (processSOSBuf d) (reconstructBlockBuf d)
    buf calls.

(** *** The primitives as methods of the decoder *)

Definition withReader {A : Type}
    (p : bitsT -> byteSrc -> result (A * bitsT * byteSrc)) (d : decoder)
  : result (A * decoder) :=
  let* (a, bt, r) := p (d_bits d) (d_r d) in
  Ok (a, setReader bt r d).

Definition d_decodeHuffman (h : huffman) (d : decoder) : result (Z * decoder) :=
  let* (v, d') := withReader (decodeHuffman h) d in
  Ok (u8 v, d').

Definition d_decodeBit (d : decoder) : result (bool * decoder) :=
  withReader decodeBit d.

Definition d_decodeBits (n : Z) (d : decoder) : result (Z * decoder) :=
  let* (v, d') := withReader (decodeBits n) d in
  Ok (u32 v, d').

Definition d_receiveExtend (t : Z) (d : decoder) : result (Z * decoder) :=
  let* (v, d') := withReader (receiveExtend t) d in
  Ok (i32 v, d').

(** [d.readFull(d.tmp[:n])]: the first [n] bytes of [d.tmp] are
    overwritten with the bytes read. *)
Definition fillTmp (tmp : list Z) (n : Z) (bs : list Z) : list Z :=
  (u8 <$> resize (Z.to_nat n) 0 bs) ++ drop (Z.to_nat n) tmp.

Definition d_readFull (n : Z) (d : decoder) : result decoder :=
  let* (bs, d') := withReader (readFull n) d in
  Ok (setTmp (fillTmp (d_tmp d') n bs) d').

(** [d.tmp[i]]. *)
Definition tmpAt (d : decoder) (i : Z) : Z := nth (Z.to_nat i) (d_tmp d) 0.

(** [&d.huff[class][sel]]. *)
Definition huffTable (d : decoder) (class sel : Z) : result huffman :=
  let* hs := index (d_huff d) class in
  index hs sel.

(** ** First pass: the coefficients of one block *)

(** Lines 240-253: the DC coefficient, section F.2.2.1. *)
Definition decodeDC (e : scanEntry) (al : Z) (b : block) (dc : list Z)
    (d : decoder) : result (block * list Z * decoder) :=
  let* h := huffTable d dcTable (scan_td e) in
  let* (value, d) := d_decodeHuffman h d in
  if value >? 16 then Err (UnsupportedError "excessive DC component")
  else
    let* (dcDelta, d) := d_receiveExtend value d in
    let* dcv := index dc (scan_compIndex e) in
    let* dc := store dc (scan_compIndex e) (i32 (dcv + dcDelta)) in
    let* dcv := index dc (scan_compIndex e) in
    let* b := store b 0 (i32 (Z.shiftl dcv al)) in
    Ok (b, dc, d).

(** Lines 279-290: an end-of-band symbol with run nibble [val0]. *)
Definition startEobRun (val0 : Z) (d : decoder) : result decoder :=
  let d := setEobRun (u16 (Z.shiftl 1 val0)) d in
  let* d :=
    (if negb (val0 =? 0)
     then let* (bits, d) := d_decodeBits (i32 val0) d in
          Ok (setEobRun (Z.lor (d_eobRun d) (u16 bits)) d)
     else Ok d) in
  Ok d.

(** Lines 261-293: the loop over the AC coefficients, section F.2.2.2.
    [zig] grows by at least one in every iteration, so that
    [zigEnd - zig + 1] iterations are enough; the loop is given that
    many. *)
Fixpoint acLoop (fuel : nat) (huff : huffman) (zigEnd al : Z) (zig : Z)
    (b : block) (d : decoder) : result (block * decoder) :=
  if zigEnd <? zig then Ok (b, d)
  else
    match fuel with
    | O => Ok (b, d)
    | S fuel' =>
      let* (value, d) := d_decodeHuffman huff d in
      let val0 := Z.shiftr value 4 in
      let val1 := Z.land value 0x0f in
      if negb (val1 =? 0) then
        let zig := zig + val0 in
        if zig >? zigEnd then Ok (b, d)
        else
          let* (ac, d) := d_receiveExtend val1 d in
          let* u := index unzig zig in
          let* b := store b u (i32 (Z.shiftl ac al)) in
          acLoop fuel' huff zigEnd al (zig + 1) b d
      else if negb (val0 =? 0x0f) then
        let* d := startEobRun val0 d in
        Ok (b, setEobRun (u16 (d_eobRun d - 1)) d)
      else acLoop fuel' huff zigEnd al (zig + 0x0f + 1) b d
    end.

Definition loopFuel (zig zigEnd : Z) : nat := Z.to_nat (zigEnd - zig + 1).

(** Lines 256-294: the AC coefficients of the block, from [zig] on. *)
Definition decodeAC (e : scanEntry) (zigEnd al : Z) (zig : Z) (b : block)
    (dc : list Z) (d : decoder) : result (block * list Z * decoder) :=
  if (zig <=? zigEnd) && (d_eobRun d >? 0)
  then Ok (b, dc, setEobRun (u16 (d_eobRun d - 1)) d)
  else
    let* huff := huffTable d acTable (scan_ta e) in
    let* (b, d) := acLoop (loopFuel zig zigEnd) huff zigEnd al zig b d in
    Ok (b, dc, d).

(** Lines 237-294: the branch [ah == 0] of the block body. *)
Definition firstPass (e : scanEntry) (zigStart zigEnd al : Z) (b : block)
    (dc : list Z) (d : decoder) : result (block * list Z * decoder) :=
  let zig := zigStart in
  let* (zig, b, dc, d) :=
    (if zig =? 0
     then let* (b, dc, d) := decodeDC e al b dc d in Ok (zig + 1, b, dc, d)
     else Ok (zig, b, dc, d)) in
  decodeAC e zigEnd al zig b dc d.

(** ** Refinement *)

(** [refineNonZeroes]: lines 495-519. *)
Fixpoint refineNonZeroes (fuel : nat) (b : block) (zig zigEnd nz delta : Z)
    (d : decoder) : result (Z * block * decoder) :=
  if zigEnd <? zig then Ok (zig, b, d)
  else
    match fuel with
    | O => Ok (zig, b, d)
    | S fuel' =>
      let* u := index unzig zig in
      let* bu := index b u in
      if bu =? 0 then
        if nz =? 0 then Ok (zig, b, d)
        else refineNonZeroes fuel' b (zig + 1) zigEnd (i32 (nz - 1)) delta d
      else
        let* (bit, d) := d_decodeBit d in
        if negb bit then refineNonZeroes fuel' b (zig + 1) zigEnd nz delta d
        else
          let* b :=
            (if bu >=? 0 then store b u (i32 (bu + delta))
             else store b u (i32 (bu - delta))) in
          refineNonZeroes fuel' b (zig + 1) zigEnd nz delta d
    end.

(** Lines 437-482: the loop labelled [loop] of [refine].  The result
    carries [zig] as the loop leaves it. *)
Fixpoint refineLoop (fuel : nat) (h : huffman) (zigEnd delta : Z) (zig : Z)
    (b : block) (d : decoder) : result (Z * block * decoder) :=
  if zigEnd <? zig then Ok (zig, b, d)
  else
    match fuel with
    | O => Ok (zig, b, d)
    | S fuel' =>
      let* (value, d) := d_decodeHuffman h d in
      let val0 := Z.shiftr value 4 in
      let val1 := Z.land value 0x0f in
      let continue (z : Z) (d : decoder) :=
        let* (zig, b, d) :=
          refineNonZeroes (loopFuel zig zigEnd) b zig zigEnd (i32 val0) delta d in
        if zig >? zigEnd then Err (FormatError "too many coefficients")
        else
          let* b :=
            (if negb (z =? 0)
             then let* u := index unzig zig in store b u z
             else Ok b) in
          refineLoop fuel' h zigEnd delta (zig + 1) b d in
      if val1 =? 0 then
        if negb (val0 =? 0x0f) then
          let* d := startEobRun val0 d in
          Ok (zig, b, d)
        else continue 0 d
      else if val1 =? 1 then
        let* (bit, d) := d_decodeBit d in
        continue (if negb bit then i32 (- delta) else delta) d
      else Err (FormatError "unexpected Huffman code")
    end.

(** [refine]: lines 417-491. *)
Definition refine (b : block) (h : huffman) (zigStart zigEnd delta : Z)
    (d : decoder) : result (block * decoder) :=
  if zigStart =? 0 then
    if negb (zigEnd =? 0) then Err (Panic "unreachable")
    else
      let* (bit, d) := d_decodeBit d in
      if bit then
        let* b0 := index b 0 in
        let* b := store b 0 (Z.lor b0 delta) in
        Ok (b, d)
      else Ok (b, d)
  else
    let zig := zigStart in
    let* (zig, b, d) :=
      (if d_eobRun d =? 0
       then refineLoop (loopFuel zig zigEnd) h zigEnd delta zig b d
       else Ok (zig, b, d)) in
    if d_eobRun d >? 0 then
      let d := setEobRun (u16 (d_eobRun d - 1)) d in
      let* (_, b, d) :=
        refineNonZeroes (loopFuel zig zigEnd) b zig zigEnd (-1) delta d in
      Ok (b, d)
    else Ok (b, d).

(** ** Block reconstruction *)

(** Lines 556-558. *)
Definition dequantize (qt : block) (b : block) : result block :=
  forEach (fun zig b =>
             let* u := index unzig zig in
             let* bu := index b u in
             let* q := index qt zig in
             store b u (i32 (bu * q)))
          (seqZ 0 blockSize) b.

(** Lines 565-573: level shift by +128 and clip to [0, 255]. *)
Definition levelShift (c : Z) : Z :=
  u8 (if c <? -128 then 0
      else if c >? 127 then 255
      else i32 (c + 128)).

Definition levelShiftAll (b : block) (buf : list Z) : result (list Z) :=
  forEach (fun y buf =>
             let y8 := y * 8 in
             forEach (fun x buf =>
                        let* c := index b (y8 + x) in
                        store buf (y * 8 + x) (levelShift c))
                     (seqZ 0 8) buf)
          (seqZ 0 8) buf.

(** [reconstructBlock]: lines 554-577.  The block [b] is rewritten in
    place; the bytes returned are those of [reconstructBlockBuf].  The
    block that [idct] leaves is read as the 64-entry array it is. *)
Definition reconstructBlock (b : block) (bx by_ compIndex : Z) (d : decoder)
  : result (list Z * block * decoder) :=
  let* cmp := index (d_comp d) compIndex in
  let* qt := index (d_quant d) (comp_tq cmp) in
  let* b := dequantize qt b in
  let b := resize (Z.to_nat blockSize) 0 (idct b) in
  let* buf := levelShiftAll b (reconstructBlockBuf d) in
  Ok (buf, b, setReconstructBuf buf d).

(** ** The 16x16 cell and the sink *)

(** Lines 319-323: a luma block goes to its quadrant of the cell. *)
Definition putLuma (dst : list Z) (bx by_ : Z) (buf : list Z)
  : result (list Z) :=
  let bx8 := bx * 8 in
  let by8 := by_ * 8 in
  let bx16 := Z.rem bx8 16 in
  let by16 := Z.rem by8 16 in
  forEach (fun cy buf =>
    forEach (fun cx buf =>
      let* v := index dst (cy * 8 + cx) in
      store buf (((cy + by16) * 16 + (cx + bx16)) * 3 + 0) v)
    (seqZ 0 8) buf)
  (seqZ 0 8) buf.

(** Lines 330-337 and 344-351: a chroma block is written four times, into
    channel [ch] of the cell. *)
Definition putChroma (ch : Z) (dst : list Z) (bx by_ : Z) (buf : list Z)
  : result (list Z) :=
  let bx8 := bx * 8 * 2 in
  let by8 := by_ * 8 * 2 in
  let bx16 := Z.rem bx8 16 in
  let by16 := Z.rem by8 16 in
  forEach (fun cy buf =>
    forEach (fun cx buf =>
      let* v := index dst (cy * 8 + cx) in
      let* buf := store buf (((cy * 2 + 0 + by16) * 16 + (cx * 2 + 0 + bx16)) * 3 + ch) v in
      let* v := index dst (cy * 8 + cx) in
      let* buf := store buf (((cy * 2 + 0 + by16) * 16 + (cx * 2 + 1 + bx16)) * 3 + ch) v in
      let* v := index dst (cy * 8 + cx) in
      let* buf := store buf (((cy * 2 + 1 + by16) * 16 + (cx * 2 + 0 + bx16)) * 3 + ch) v in
      let* v := index dst (cy * 8 + cx) in
      store buf (((cy * 2 + 1 + by16) * 16 + (cx * 2 + 1 + bx16)) * 3 + ch) v)
    (seqZ 0 8) buf)
  (seqZ 0 8) buf.

(** Lines 359-361: three uint8 packed into one uint16, 5-6-5. *)
Definition rgb565 (r g b : Z) : Z :=
  u16 (u16 (Z.land (u16 (Z.shiftl (u16 r) 8)) 0xF800
            + Z.shiftr (Z.land (u16 (Z.shiftl (u16 g) 8)) 0xFC00) 5)
       + Z.shiftr (Z.land (u16 (Z.shiftl (u16 b) 8)) 0xF800) 11).

(** Lines 353-363: the 256 pixels of the cell are converted. *)
Definition convertCell (sos : list Z) (cb : list Z) : result (list Z) :=
  forEach (fun cy cb =>
    forEach (fun cx cb =>
      let* yy := index sos ((cy * 16 + cx) * 3 + 0) in
      let* cbv := index sos ((cy * 16 + cx) * 3 + 1) in
      let* cr := index sos ((cy * 16 + cx) * 3 + 2) in
      let '(r, g, b) := YCbCrToRGB yy cbv cr in
      store cb (cy * 16 + cx) (rgb565 (u8 r) (u8 g) (u8 b)))
    (seqZ 0 16) cb)
  (seqZ 0 16) cb.

(** Pixel [k] of the cell, converted and packed: the body of the loop of
    lines 353-363 without the store. *)
Definition pixelAt (sos : list Z) (k : Z) : result Z :=
  let* yy := index sos (k * 3 + 0) in
  let* cbv := index sos (k * 3 + 1) in
  let* cr := index sos (k * 3 + 2) in
  let '(r, g, b) := YCbCrToRGB yy cbv cr in
  Ok (rgb565 (u8 r) (u8 g) (u8 b)).

(** The arguments of the call of line 364. *)
Definition cellTile (pix : list Z) (bx by_ : Z) (d : decoder) : tile :=
  let bx8 := bx * 8 * 2 in
  let by8 := by_ * 8 * 2 in
  let bx16 := Z.rem bx8 16 in
  let by16 := Z.rem by8 16 in
  mkTile pix (i16 (bx8 - bx16)) (i16 (by8 - by16)) 16 16
         (i16 (d_width d)) (i16 (d_height d)).

(** Lines 313-365: the switch on [compIndex]. *)
Definition assemble (compIndex : Z) (dst : list Z) (bx by_ : Z) (d : decoder)
  : result decoder :=
  if compIndex =? 0 then
    let* buf := putLuma dst bx by_ (processSOSBuf d) in
    Ok (setSOSBuf buf d)
  else if compIndex =? 1 then
    let* buf := putChroma 1 dst bx by_ (processSOSBuf d) in
    Ok (setSOSBuf buf d)
  else if compIndex =? 2 then
    let* buf := putChroma 2 dst bx by_ (processSOSBuf d) in
    let d := setSOSBuf buf d in
    let* cb := convertCell (processSOSBuf d) (callbackBuf d) in
    if Z.of_nat (length cb) <? 8 * 8 * 4 then Err (Panic "slice bounds out of range")
    else
      Ok (setCallback cb
            (emitted d ++ [cellTile (take (Z.to_nat (8 * 8 * 4)) cb) bx by_ d]) d)
  else Ok d.

(** ** The image *)

(** [makeImg]: lines 13-49. *)
Definition makeImg (mxx myy : Z) (d : decoder) : result decoder :=
  if d_nComp d =? 1 then
    Ok (setImg (Some (8 * mxx, 8 * myy)) (d_img3 d) (d_blackPix d)
          (d_blackStride d) d)
  else
    let* c0 := index (d_comp d) 0 in
    let* c1 := index (d_comp d) 1 in
    let h0 := comp_h c0 in
    let v0 := comp_v c0 in
    if (comp_h c1 =? 0) || (comp_v c1 =? 0)
    then Err (Panic "integer divide by zero")
    else
      let hRatio := Z.quot h0 (comp_h c1) in
      let vRatio := Z.quot v0 (comp_v c1) in
      let ratio := Z.lor (Z.shiftl hRatio 4) vRatio in
      if (ratio =? 0x11) || (ratio =? 0x12) || (ratio =? 0x21)
         || (ratio =? 0x22) || (ratio =? 0x41) || (ratio =? 0x42)
      then
        let d := setImg (d_img1 d) (Some (8 * h0 * mxx, 8 * v0 * myy, ratio))
                   (d_blackPix d) (d_blackStride d) d in
        if d_nComp d =? 4 then
          let* c3 := index (d_comp d) 3 in
          let h3 := comp_h c3 in
          let v3 := comp_v c3 in
          if 8 * h3 * mxx * 8 * v3 * myy <? 0
          then Err (Panic "makeslice: len out of range")
          else
            Ok (setImg (d_img1 d) (d_img3 d)
                  (Some (replicate (Z.to_nat (8 * h3 * mxx * 8 * v3 * myy)) 0))
                  (8 * h3 * mxx) d)
        else Ok d
      else Err (Panic "unreachable").

(** ** The scan header *)

(** Lines 78-83: the index of the last frame component whose identifier
    is [cs], or -1. *)
Definition findComponent (d : decoder) (cs : Z) : Z :=
  fold_left (fun compIndex jc => if cs =? comp_c (snd jc) then fst jc else compIndex)
            (zip (seqZ 0 (d_nComp d)) (take (Z.to_nat (d_nComp d)) (d_comp d)))
            (-1).

(** Lines 77-108: the body of the loop over the components of the scan;
    [scan] holds the entries 0 .. i-1. *)
Definition scanComponent (d : decoder) (i : Z) (acc : list scanEntry * Z)
  : result (list scanEntry * Z) :=
  let '(scan, totalHV) := acc in
  let cs := tmpAt d (1 + 2 * i) in
  if (d_nComp d <? 0) || (maxComponents <? d_nComp d)
  then Err (Panic "slice bounds out of range")
  else
    let compIndex := findComponent d cs in
    if compIndex <? 0 then Err (FormatError "unknown component selector")
    else if maxComponents <=? i then Err (Panic "index out of range")
    else
      let ci := u8 compIndex in
      if existsb (fun e => ci =? scan_compIndex e) scan
      then Err (FormatError "repeated component selector")
      else
        let* cmp := index (d_comp d) compIndex in
        let totalHV := totalHV + comp_h cmp * comp_v cmp in
        let td := Z.shiftr (tmpAt d (2 + 2 * i)) 4 in
        if (td >? maxTh) || (d_baseline d && (td >? 1))
        then Err (FormatError "bad Td value")
        else
          let ta := Z.land (tmpAt d (2 + 2 * i)) 0x0f in
          if (ta >? maxTh) || (d_baseline d && (ta >? 1))
          then Err (FormatError "bad Ta value")
          else Ok (scan ++ [mkScanEntry ci td ta], totalHV).

End Decoder.

(** What [processSOS] has computed when the loop over the MCUs starts:
    [nComp], [scan], [zigStart], [zigEnd], [ah], [al], [mxx] and [myy]. *)
Record scanParams : Type := mkScanParams {
  sp_nComp : Z;
  sp_scan : list scanEntry;
  sp_zigStart : Z;
  sp_zigEnd : Z;
  sp_ah : Z;
  sp_al : Z;
  sp_mxx : Z;
  sp_myy : Z;
}.

(** The decoder together with the variables of [processSOS] that live
    across the blocks: [dc], [expectedRST], [mcu] and [blockCount]. *)
Record scanState `{Primitives} : Type := mkScanState {
  st_d : decoder;
  st_dc : list Z;
  st_expectedRST : Z;
  st_mcu : Z;
  st_blockCount : Z;
}.

Section Scan.
Context `{P : Primitives}.

(** Lines 133-148: the spectral selection and successive approximation
    values, checked for a progressive image. *)
Definition scanBounds (d : decoder) (nComp : Z) : result (Z * Z * Z * Z) :=
  if d_progressive d then
    let zigStart := tmpAt d (1 + 2 * nComp) in
    let zigEnd := tmpAt d (2 + 2 * nComp) in
    let ah := Z.shiftr (tmpAt d (3 + 2 * nComp)) 4 in
    let al := Z.land (tmpAt d (3 + 2 * nComp)) 0x0f in
    if ((zigStart =? 0) && negb (zigEnd =? 0)) || (zigStart >? zigEnd)
       || (blockSize <=? zigEnd)
    then Err (FormatError "bad spectral selection bounds")
    else if negb (zigStart =? 0) && negb (nComp =? 1)
    then Err (FormatError "progressive AC coefficients for more than one component")
    else if negb (ah =? 0) && negb (ah =? al + 1)
    then Err (FormatError "bad successive approximation values")
    else Ok (zigStart, zigEnd, ah, al)
  else Ok (0, blockSize - 1, 0, 0).

(** Lines 57-148: the scan header validator.  It returns [nComp],
    [scan], [zigStart], [zigEnd], [ah] and [al]. *)
Definition scanHeader (n : Z) (d : decoder)
  : result (Z * list scanEntry * (Z * Z * Z * Z) * decoder) :=
  if d_nComp d =? 0 then Err (FormatError "missing SOF marker")
  else if (n <? 6) || (4 + 2 * d_nComp d <? n) || negb (Z.rem n 2 =? 0)
  then Err (FormatError "SOS has wrong length")
  else
    let* d := d_readFull n d in
    let nComp := tmpAt d 0 in
    if negb (n =? 4 + 2 * nComp)
    then Err (FormatError "SOS length inconsistent with number of components")
    else
      let* (scan, totalHV) := forEach (scanComponent d) (seqZ 0 nComp) ([], 0) in
      if (d_nComp d >? 1) && (totalHV >? 10)
      then Err (FormatError "total sampling factors too large")
      else
        let* bounds := scanBounds d nComp in
        Ok (nComp, scan, bounds, d).

(** Lines 161-166: the coefficient store of a component is allocated the
    first time a scan uses the component. *)
Definition allocCoeffs (mxx myy : Z) (e : scanEntry) (d : decoder)
  : result decoder :=
  let compIndex := scan_compIndex e in
  let* pc := index (d_progCoeffs d) compIndex in
  match pc with
  | Some _ => Ok d
  | None =>
    let* cmp := index (d_comp d) compIndex in
    let len := mxx * myy * comp_h cmp * comp_v cmp in
    if len <? 0 then Err (Panic "makeslice: len out of range")
    else
      let* pcs := store (d_progCoeffs d) compIndex
                    (Some (replicate (Z.to_nat len) zeroBlock)) in
      Ok (setProgCoeffs pcs d)
  end.

(** [d.progCoeffs[compIndex][k]] and [d.progCoeffs[compIndex][k] = b]. *)
Definition loadCoeffs (d : decoder) (compIndex k : Z) : result block :=
  let* pc := index (d_progCoeffs d) compIndex in
  match pc with
  | Some blocks => index blocks k
  | None => Err (Panic "index out of range")
  end.

Definition saveCoeffs (d : decoder) (compIndex k : Z) (b : block)
  : result decoder :=
  let* pc := index (d_progCoeffs d) compIndex in
  match pc with
  | Some blocks =>
    let* blocks := store blocks k b in
    let* pcs := store (d_progCoeffs d) compIndex (Some blocks) in
    Ok (setProgCoeffs pcs d)
  | None => Err (Panic "index out of range")
  end.

Definition setD (d : decoder) (st : scanState) : scanState :=
  mkScanState _ d (st_dc st) (st_expectedRST st) (st_mcu st) (st_blockCount st).

Definition setDc (dc : list Z) (st : scanState) : scanState :=
  mkScanState _ (st_d st) dc (st_expectedRST st) (st_mcu st) (st_blockCount st).

Definition setBlockCount (n : Z) (st : scanState) : scanState :=
  mkScanState _ (st_d st) (st_dc st) (st_expectedRST st) (st_mcu st) n.

Definition setMcu (n : Z) (st : scanState) : scanState :=
  mkScanState _ (st_d st) (st_dc st) (st_expectedRST st) n (st_blockCount st).

(** Lines 226-230: the coefficients the block starts from. *)
Definition loadBlock (sp : scanParams) (e : scanEntry) (hi : Z) (bx by_ : Z)
    (d : decoder) : result block :=
  if d_progressive d
  then loadCoeffs d (scan_compIndex e) (by_ * sp_mxx sp * hi + bx)
  else Ok zeroBlock.

(** Lines 232-295: the coefficients are decoded or refined. *)
Definition decodeBlock (sp : scanParams) (e : scanEntry) (b : block)
    (dc : list Z) (d : decoder) : result (block * list Z * decoder) :=
  if negb (sp_ah sp =? 0) then
    let* h := huffTable d acTable (scan_ta e) in
    let* (b, d) := refine b h (sp_zigStart sp) (sp_zigEnd sp)
                     (i32 (Z.shiftl 1 (sp_al sp))) d in
    Ok (b, dc, d)
  else firstPass e (sp_zigStart sp) (sp_zigEnd sp) (sp_al sp) b dc d.

(** Lines 297-366: the coefficients are saved, or the block is
    reconstructed and handed to the cell. *)
Definition finishBlock (sp : scanParams) (e : scanEntry) (hi : Z) (bx by_ : Z)
    (b : block) (dc : list Z) (d : decoder) (st : scanState)
  : result scanState :=
  let compIndex := scan_compIndex e in
  if d_progressive d then
    let* d := saveCoeffs d compIndex (by_ * sp_mxx sp * hi + bx) b in
    Ok (setDc dc (setD d st))
  else
    let* (dst, _, d) := reconstructBlock b bx by_ compIndex d in
    let* d := assemble compIndex dst bx by_ d in
    Ok (setDc dc (setD d st)).

(** Lines 225-366: the block at [(bx, by)] of the component of scan
    entry [e], whose horizontal sampling factor is [hi]. *)
Definition visitBlock (sp : scanParams) (e : scanEntry) (hi : Z) (bx by_ : Z)
    (st : scanState) : result scanState :=
  let* b := loadBlock sp e hi bx by_ (st_d st) in
  let* (b, dc, d) := decodeBlock sp e b (st_dc st) (st_d st) in
  finishBlock sp e hi bx by_ b dc d st.

(** Lines 212-223, then the block: the body of the loop over [j].  The
    loop runs for 0 <= j < hi*vi, so that [hi] is not zero, and inside
    the loop over [mx], so that [mxx] is not zero: no division here is by
    zero. *)
Definition blockBody (sp : scanParams) (mx my : Z) (e : scanEntry) (hi vi : Z)
    (j : Z) (st : scanState) : result scanState :=
  if negb (sp_nComp sp =? 1) then
    let bx := hi * mx + Z.rem j hi in
    let by_ := vi * my + Z.quot j hi in
    visitBlock sp e hi bx by_ st
  else
    let q := sp_mxx sp * hi in
    let bx := Z.rem (st_blockCount st) q in
    let by_ := Z.quot (st_blockCount st) q in
    let st := setBlockCount (st_blockCount st + 1) st in
    if (bx * 8 >=? d_width (st_d st)) || (by_ * 8 >=? d_height (st_d st))
    then Ok st
    else visitBlock sp e hi bx by_ st.

(** Lines 182-368: the body of the loop over [i]. *)
Definition componentBody (sp : scanParams) (mx my : Z) (i : Z) (st : scanState)
  : result scanState :=
  let* e := index (sp_scan sp) i in
  let compIndex := scan_compIndex e in
  let* cmp := index (d_comp (st_d st)) compIndex in
  let hi := comp_h cmp in
  let vi := comp_v cmp in
  forEach (blockBody sp mx my e hi vi) (seqZ 0 (hi * vi)) st.

(** [[maxComponents]int32{}]. *)
Definition zeroDc : list Z := replicate (Z.to_nat maxComponents) 0.

(** The next restart marker expected, lines 398-401. *)
Definition nextRST (expectedRST : Z) : Z :=
  let expectedRST := u8 (expectedRST + 1) in
  if expectedRST =? rst7Marker + 1 then rst0Marker else expectedRST.

(** Lines 373-407: a restart marker is read and the state is reset. *)
Definition restart (st : scanState) : result scanState :=
  let d := st_d st in
  let* d := d_readFull 2 d in
  let* d :=
    (if (tmpAt d 0 =? 0xff) && (tmpAt d 1 =? 0x00)
     then d_readFull 2 d
     else Ok d) in
  if negb (tmpAt d 0 =? 0xff) || negb (tmpAt d 1 =? st_expectedRST st)
  then Err (FormatError "bad RST marker")
  else
    let d := setBits bitsZero d in
    let d := setEobRun 0 d in
    Ok (mkScanState _ d zeroDc
          (nextRST (st_expectedRST st)) (st_mcu st) (st_blockCount st)).

(** Lines 369-408: what follows the blocks of an MCU. *)
Definition afterMCU (sp : scanParams) (st : scanState) : result scanState :=
  let st := setMcu (st_mcu st + 1) st in
  let d := st_d st in
  if (d_ri d >? 0) && (Z.rem (st_mcu st) (d_ri d) =? 0)
     && (st_mcu st <? sp_mxx sp * sp_myy sp)
  then restart st
  else Ok st.

(** Lines 181-409: the body of the loop over [mx]. *)
Definition mcuBody (sp : scanParams) (my mx : Z) (st : scanState)
  : result scanState :=
  let* st := forEach (componentBody sp mx my) (seqZ 0 (sp_nComp sp)) st in
  afterMCU sp st.

(** Lines 180-410: the loops over [my] and [mx]. *)
Definition scanLoop (sp : scanParams) (st : scanState) : result scanState :=
  forEach (fun my st => forEach (mcuBody sp my) (seqZ 0 (sp_mxx sp)) st)
          (seqZ 0 (sp_myy sp)) st.

(** Lines 150-179: the number of MCUs, the image, the coefficient
    stores, the bit reader, and the variables of the loop. *)
Definition scanSetup (nComp : Z) (scan : list scanEntry) (bounds : Z * Z * Z * Z)
    (d : decoder) : result (scanParams * scanState) :=
  let '(zigStart, zigEnd, ah, al) := bounds in
  let* c0 := index (d_comp d) 0 in
  let h0 := comp_h c0 in
  let v0 := comp_v c0 in
  if (8 * h0 =? 0) || (8 * v0 =? 0) then Err (Panic "integer divide by zero")
  else
    let mxx := Z.quot (d_width d + 8 * h0 - 1) (8 * h0) in
    let myy := Z.quot (d_height d + 8 * v0 - 1) (8 * v0) in
    let* d :=
      (if bool_decide (d_img1 d = None) && bool_decide (d_img3 d = None)
       then makeImg 1 1 d
       else Ok d) in
    let* d :=
      (if d_progressive d
       then forEach (fun i d => let* e := index scan i in allocCoeffs mxx myy e d)
                    (seqZ 0 nComp) d
       else Ok d) in
    let d := setBits bitsZero d in
    Ok (mkScanParams nComp scan zigStart zigEnd ah al mxx myy,
        mkScanState _ d zeroDc rst0Marker 0 0).

(** [processSOS]: lines 56-413. *)
Definition processSOS (n : Z) (d : decoder) : result decoder :=
  let* (nComp, scan, bounds, d) := scanHeader n d in
  let* (sp, st) := scanSetup nComp scan bounds d in
  let* st := scanLoop sp st in
  Ok (st_d st).

End Scan.

(** ** The coefficients of a progressive image, reconstructed *)

(** A [for] loop whose condition is evaluated before every iteration, run
    for at most [fuel] iterations: [None] when the fuel runs out first. *)
Fixpoint forWhile {S : Type} (fuel : nat) (cond : Z -> S -> bool)
    (body : Z -> S -> option (result S)) (i : Z) (s : S)
  : option (result S) :=
  if cond i s then
    match fuel with
    | O => None
    | S fuel' =>
      match body i s with
      | Some (Ok s') => forWhile fuel' cond body (i + 1) s'
      | other => other
      end
    end
  else Some (Ok s).

(** [forEach] for a body that may run out of fuel. *)
Fixpoint forEachW {A S : Type} (body : A -> S -> option (result S))
    (l : list A) (s : S) : option (result S) :=
  match l with
  | [] => Some (Ok s)
  | x :: l' =>
    match body x s with
    | Some (Ok s') => forEachW body l' s'
    | other => other
    end
  end.

Section Progressive.
Context `{P : Primitives}.

(** Line 535: the block stored at index [k] of component [i] is handed to
    [reconstructBlock] by reference, which rewrites it in place; the
    bytes returned are dropped. *)
Definition reconstructStored (i k bx by_ : Z) (d : decoder) : result decoder :=
  let* b := loadCoeffs d i k in
  let* (_, b, d) := reconstructBlock b bx by_ i d in
  saveCoeffs d i k b.

(** Lines 527-539: the body of the loop over the components. *)
Definition reconstructComponent (fuel : nat) (mxx : Z) (i : Z) (d : decoder)
  : option (result decoder) :=
  match index (d_progCoeffs d) i with
  | Err e => Some (Err e)
  | Ok None => Some (Ok d)
  | Ok (Some _) =>
    match (let* c0 := index (d_comp d) 0 in
           let* ci := index (d_comp d) i in
           Ok (c0, ci)) with
    | Err e => Some (Err e)
    | Ok (c0, ci) =>
      if comp_v ci =? 0 then Some (Err (Panic "integer divide by zero"))
      else
        let v := Z.quot (8 * comp_v c0) (comp_v ci) in
        if comp_h ci =? 0 then Some (Err (Panic "integer divide by zero"))
        else
          let h := Z.quot (8 * comp_h c0) (comp_h ci) in
          let stride := mxx * comp_h ci in
          forWhile fuel (fun by_ d => by_ * v <? d_height d)
            (fun by_ d =>
               forWhile fuel (fun bx d => bx * h <? d_width d)
                 (fun bx d =>
                    Some (reconstructStored i (by_ * stride + bx) bx by_ d))
                 0 d)
            0 d
    end
  end.

(** [reconstructProgressiveImage]: lines 521-542.  Every loop over the
    blocks is given [fuel] iterations. *)
Definition reconstructProgressiveImage (fuel : nat) (d : decoder)
  : option (result decoder) :=
  match index (d_comp d) 0 with
  | Err e => Some (Err e)
  | Ok c0 =>
    let h0 := comp_h c0 in
    if 8 * h0 =? 0 then Some (Err (Panic "integer divide by zero"))
    else
      let mxx := Z.quot (d_width d + 8 * h0 - 1) (8 * h0) in
      forEachW (reconstructComponent fuel mxx) (seqZ 0 (d_nComp d)) d
  end.

(** What [reconstructBlock] leaves in the block it is handed: the inverse
    DCT of the coefficients, dequantized with the table [qt]. *)
Definition reconstructed (qt : block) (b : block) : block :=
  match dequantize qt b with
  | Ok b1 => resize (Z.to_nat blockSize) 0 (idct b1)
  | Err _ => b
  end.

(** Only the stored coefficients and [reconstructBlockBuf] differ. *)
Definition coeffsOnly (d d' : decoder) : Prop :=
  d' = setReconstructBuf (reconstructBlockBuf d')
         (setProgCoeffs (d_progCoeffs d') d).

(** What the decoder of a progressive image holds when all its scans are
    read: an image with a size; for every component of the frame that has
    a coefficient store, positive sampling factors that divide eight
    times those of the first component, a quantization table of 64
    values, and mxx*myy*h*v blocks of 64 coefficients, as [processSOS]
    allocates them. *)
Definition storesOk (d : decoder) : Prop :=
  unzigOk = true
  /\ 0 <= d_width d /\ 0 <= d_height d
  /\ length (reconstructBlockBuf d) = Z.to_nat blockSize
  /\ exists c0,
       d_comp d !! 0%nat = Some c0 /\ 0 < comp_h c0 /\ 0 < comp_v c0
       /\ forall i, 0 <= i < d_nComp d ->
            exists ci pc,
              d_comp d !! Z.to_nat i = Some ci
              /\ d_progCoeffs d !! Z.to_nat i = Some pc
              /\ forall blocks, pc = Some blocks ->
                   0 < comp_h ci /\ 0 < comp_v ci
                   /\ (8 * comp_h c0) mod comp_h ci = 0
                   /\ (8 * comp_v c0) mod comp_v ci = 0
                   /\ 0 <= comp_tq ci
                   /\ (exists qt, d_quant d !! Z.to_nat (comp_tq ci) = Some qt
                                  /\ length qt = Z.to_nat blockSize)
                   /\ Z.of_nat (length blocks)
                      = Z.quot (d_width d + 8 * comp_h c0 - 1) (8 * comp_h c0)
                        * Z.quot (d_height d + 8 * comp_v c0 - 1) (8 * comp_v c0)
                        * comp_h ci * comp_v ci
                   /\ Forall (fun b : list Z => length b = Z.to_nat blockSize)
                             blocks.

(** Component [i] after the reconstruction, [d'], against the decoder
    before it, [d]: a component without a coefficient store is as it was;
    in a store, the block of every (bx, by) with bx*h < width and
    by*v < height, which is at index by*stride + bx, is replaced by its
    reconstruction, and every other block is as it was. *)
Definition rebuilt (d d' : decoder) (i : Z) : Prop :=
  match d_progCoeffs d !! Z.to_nat i with
  | Some (Some bl) =>
    forall c0 ci qt,
      d_comp d !! 0%nat = Some c0 -> d_comp d !! Z.to_nat i = Some ci ->
      d_quant d !! Z.to_nat (comp_tq ci) = Some qt ->
      let h := Z.quot (8 * comp_h c0) (comp_h ci) in
      let v := Z.quot (8 * comp_v c0) (comp_v ci) in
      let stride :=
        Z.quot (d_width d + 8 * comp_h c0 - 1) (8 * comp_h c0) * comp_h ci in
      exists bl',
        d_progCoeffs d' !! Z.to_nat i = Some (Some bl')
        /\ length bl' = length bl
        /\ (forall bx by_, 0 <= bx -> 0 <= by_ ->
              bx * h < d_width d -> by_ * v < d_height d ->
              exists b, bl !! Z.to_nat (by_ * stride + bx) = Some b
                        /\ bl' !! Z.to_nat (by_ * stride + bx)
                           = Some (reconstructed qt b))
        /\ (forall n : nat,
              (forall bx by_, 0 <= bx -> 0 <= by_ ->
                 bx * h < d_width d -> by_ * v < d_height d ->
                 Z.of_nat n <> by_ * stride + bx) ->
              bl' !! n = bl !! n)
  | other => d_progCoeffs d' !! Z.to_nat i = other
  end.

End Progressive.

(** ** The traversal, restated

    The definitions of this part follow the words of the specification;
    the theorems compare them with the loops of [processSOS]. *)

(** What the traversal does, one step at a time: a block is decoded; the
    block counter of a scan of one component moves on; an MCU ends, with
    or without a restart marker. *)
Inductive scanEvent : Type :=
| EvVisit (e : scanEntry) (hi : Z) (bx by_ : Z)
| EvCount
| EvMcu (restartDue : bool).

Section Traversal.
Context `{P : Primitives}.

Definition runEvent (sp : scanParams) (ev : scanEvent) (st : scanState)
  : result scanState :=
  match ev with
  | EvVisit e hi bx by_ => visitBlock sp e hi bx by_ st
  | EvCount => Ok (setBlockCount (st_blockCount st + 1) st)
  | EvMcu false => Ok (setMcu (st_mcu st + 1) st)
  | EvMcu true => restart (setMcu (st_mcu st + 1) st)
  end.

(** Block [j] of a component in MCU number [k], which is at column
    [k mod mxx] of row [k / mxx].  In a scan of more than one component
    the block is at [(hi*mx + j mod hi, vi*my + j div hi)].  In a scan of
    one component the blocks are counted in raster order over a grid
    [mxx*hi] blocks wide, and a block whose top-left pixel is outside the
    image is not decoded. *)
Definition blockEvents (sp : scanParams) (d : decoder) (k : Z) (e : scanEntry)
    (hi vi : Z) (j : Z) : list scanEvent :=
  if negb (sp_nComp sp =? 1) then
    [EvVisit e hi (hi * (k mod sp_mxx sp) + j mod hi)
                  (vi * (k / sp_mxx sp) + j / hi)]
  else
    let count := k * (hi * vi) + j in
    let bx := count mod (sp_mxx sp * hi) in
    let by_ := count / (sp_mxx sp * hi) in
    EvCount ::
      (if (d_width d <=? 8 * bx) || (d_height d <=? 8 * by_)
       then []
       else [EvVisit e hi bx by_]).

Definition componentEvents (sp : scanParams) (d : decoder) (k : Z)
    (e : scanEntry) : list scanEvent :=
  match d_comp d !! Z.to_nat (scan_compIndex e) with
  | Some cmp =>
    flat_map (blockEvents sp d k e (comp_h cmp) (comp_v cmp))
             (seqZ 0 (comp_h cmp * comp_v cmp))
  | None => []
  end.

(** A restart marker is due after every [ri]-th MCU but the last. *)
Definition restartDue (sp : scanParams) (d : decoder) (mcu : Z) : bool :=
  (0 <? d_ri d) && (mcu mod d_ri d =? 0) && (mcu <? sp_mxx sp * sp_myy sp).

Definition mcuEvents (sp : scanParams) (d : decoder) (k : Z) : list scanEvent :=
  flat_map (componentEvents sp d k) (sp_scan sp)
  ++ [EvMcu (restartDue sp d (k + 1))].

(** The events of the first [k] MCUs, and of the whole scan. *)
Definition eventsUpTo (sp : scanParams) (d : decoder) (k : Z) : list scanEvent :=
  flat_map (mcuEvents sp d) (seqZ 0 k).

Definition scanEvents (sp : scanParams) (d : decoder) : list scanEvent :=
  eventsUpTo sp d (sp_mxx sp * sp_myy sp).

(** The blocks decoded by a scan of one component, in the words of the
    specification: the blocks of a grid [mxx*hi] wide in raster order,
    those with the top-left pixel outside the image left out. *)
Definition rasterVisits (sp : scanParams) (d : decoder) (e : scanEntry)
    (hi vi : Z) : list scanEvent :=
  flat_map (fun count =>
              let bx := count mod (sp_mxx sp * hi) in
              let by_ := count / (sp_mxx sp * hi) in
              if (d_width d <=? 8 * bx) || (d_height d <=? 8 * by_)
              then []
              else [EvVisit e hi bx by_])
           (seqZ 0 (sp_mxx sp * sp_myy sp * (hi * vi))).

(** What the loops of [processSOS] rely on: the scan has [nComp]
    components, each one a component of the frame with positive
    sampling factors, and the counters start from zero. *)
Definition scanReady (sp : scanParams) (st : scanState) : Prop :=
  0 <= sp_mxx sp /\ st_mcu st = 0 /\ st_blockCount st = 0
  /\ Z.of_nat (length (sp_scan sp)) = sp_nComp sp
  /\ Forall (fun e => 0 <= scan_compIndex e
                      /\ exists cmp, d_comp (st_d st) !! Z.to_nat (scan_compIndex e)
                                     = Some cmp /\ 0 < comp_h cmp
                                     /\ 0 < comp_v cmp)
            (sp_scan sp).

(** A block of a first-pass scan whose AC coefficients an end-of-band run
    covers: the DC coefficient is decoded when the scan has it, the run
    counter goes down by one, and no AC symbol is decoded. *)
Definition suppressedBlock (sp : scanParams) (e : scanEntry) (hi : Z)
    (bx by_ : Z) (st : scanState) : result scanState :=
  let* b := loadBlock sp e hi bx by_ (st_d st) in
  let* (b, dc, d) :=
    (if sp_zigStart sp =? 0
     then decodeDC e (sp_al sp) b (st_dc st) (st_d st)
     else Ok (b, st_dc st, st_d st)) in
  finishBlock sp e hi bx by_ b dc (setEobRun (d_eobRun d - 1) d) st.

(** The events with every block decoded as [suppressedBlock] says. *)
Definition runSuppressed (sp : scanParams) (ev : scanEvent) (st : scanState)
  : result scanState :=
  match ev with
  | EvVisit e hi bx by_ => suppressedBlock sp e hi bx by_ st
  | _ => runEvent sp ev st
  end.

Definition isVisit (ev : scanEvent) : bool :=
  match ev with
  | EvVisit _ _ _ _ => true
  | _ => false
  end.

Definition isRestart (ev : scanEvent) : bool :=
  match ev with
  | EvMcu true => true
  | _ => false
  end.

(** The number of blocks decoded by a list of events. *)
Definition visits (evs : list scanEvent) : Z :=
  Z.of_nat (length (filter (fun ev => isVisit ev = true) evs)).

(** The first zig-zag index of the AC coefficients of a first-pass scan. *)
Definition acStart (sp : scanParams) : Z :=
  if sp_zigStart sp =? 0 then 1 else sp_zigStart sp.

(** The level shift, in the words of the specification. *)
Definition clampSpec (c : Z) : Z :=
  if c <=? -128 then 0 else if 128 <=? c then 255 else c + 128.


End Traversal.

(** ** What an operation leaves alone *)

Section Frames.
Context `{P : Primitives}.

(** The description of the frame: the fields that no operation of a scan
    writes. *)
Definition sameFrame (d d' : decoder) : Prop :=
  d_width d' = d_width d /\ d_height d' = d_height d /\ d_ri d' = d_ri d
  /\ d_nComp d' = d_nComp d /\ d_baseline d' = d_baseline d
  /\ d_progressive d' = d_progressive d /\ d_comp d' = d_comp d
  /\ d_huff d' = d_huff d /\ d_quant d' = d_quant d.

(** Only the bit reader and the byte source differ. *)
Definition readerOnly (d d' : decoder) : Prop :=
  d' = setReader (d_bits d') (d_r d') d.

(** Only the bit reader, the byte source and [eobRun] differ. *)
Definition engineOnly (d d' : decoder) : Prop :=
  d' = setEobRun (d_eobRun d') (setReader (d_bits d') (d_r d') d).

(** The sum of h*v over the components of a scan. *)
Definition sumHV (d : decoder) (scan : list scanEntry) : Z :=
  foldr (fun e acc =>
           match d_comp d !! Z.to_nat (scan_compIndex e) with
           | Some c => comp_h c * comp_v c + acc
           | None => acc
           end) 0 scan.

(** The frame, the run counter and the reader are the same. *)
Definition sameCore (d d' : decoder) : Prop :=
  sameFrame d d' /\ d_eobRun d' = d_eobRun d /\ d_bits d' = d_bits d
  /\ d_r d' = d_r d.

(** The geometry of the tile that the block at [(bx, by)] of component
    [compIndex] hands to the sink: none unless the image is not
    progressive and the component is the third. *)
Definition tileOf (d : decoder) (compIndex bx by_ : Z)
  : list (Z * Z * Z * Z * Z * Z) :=
  if negb (d_progressive d) && (compIndex =? 2)
  then [tileGeometry (cellTile [] bx by_ d)]
  else [].


(** What the frame header has checked before any scan: the image has a
    size, and the components of the frame have positive sampling
    factors. *)
Definition frameOk (d : decoder) : Prop :=
  0 <= d_width d /\ 0 <= d_height d
  /\ forall (i : nat) (cmp : component),
       Z.of_nat i < d_nComp d -> d_comp d !! i = Some cmp ->
       0 < comp_h cmp /\ 0 < comp_v cmp.

(** The block counter on entry to MCU number [k]: it moves in a scan of
    one component only, by h*v blocks for every MCU. *)
Definition countAt (sp : scanParams) (d : decoder) (k : Z) : Z :=
  match sp_scan sp with
  | [e] =>
    if sp_nComp sp =? 1 then
      match d_comp d !! Z.to_nat (scan_compIndex e) with
      | Some cmp => k * (comp_h cmp * comp_v cmp)
      | None => 0
      end
    else 0
  | _ => 0
  end.

(** What stays true from one block to the next within MCU number [k]:
    the frame, the number of the MCU, the block counter. *)
Definition inMcu (d0 : decoder) (k : Z) (bc : Z) (st : scanState) : Prop :=
  sameFrame d0 (st_d st) /\ st_mcu st = k /\ st_blockCount st = bc.

(** The coefficients dequantized so far: the positions of the zig-zag
    indices below [z] are multiplied, the others are as they were. *)
Definition dequantizedUpTo (qt b : list Z) (z : Z) (bz : list Z) : Prop :=
  length bz = length b
  /\ forall (p : nat) (c : Z), b !! p = Some c ->
       (forall z' q, 0 <= z' < z -> unzig !! Z.to_nat z' = Some (Z.of_nat p) ->
                     qt !! Z.to_nat z' = Some q -> bz !! p = Some (i32 (c * q)))
       /\ ((forall z', 0 <= z' < z -> unzig !! Z.to_nat z' <> Some (Z.of_nat p)) ->
           bz !! p = Some c).




(** Position [p] of a block is not the place of any zig-zag index of
    the band [zig .. zigEnd]. *)
Definition outsideBand (zig zigEnd : Z) (p : nat) : Prop :=
  forall z, zig <= z <= zigEnd -> 0 <= z ->
    unzig !! Z.to_nat z <> Some (Z.of_nat p).

(** Every coefficient of the band [zig .. zigEnd] of the block is zero. *)
Definition zeroBand (zig zigEnd : Z) (b : block) : Prop :=
  forall z, zig <= z <= zigEnd ->
    exists u, index unzig z = Ok u /\ index b u = Ok 0.

(** The destination image is the same. *)
Definition sameImage (d d' : decoder) : Prop :=
  d_img1 d' = d_img1 d /\ d_img3 d' = d_img3 d
  /\ d_blackPix d' = d_blackPix d /\ d_blackStride d' = d_blackStride d.

End Frames.

(** ** The writes of the cell loops *)

(** A loop that copies entries of [src] into a buffer, as a list of its
    writes, oldest first: the position written and the index read. *)
Definition scatter (src : list Z) (ws : list (Z * Z)) (buf : list Z)
  : result (list Z) :=
  forEach (fun w buf => let* v := index src w.2 in store buf w.1 v) ws buf.

(** The writes of lines 319-323, for the offsets [bx16] and [by16]. *)
Definition lumaWrites (bx16 by16 : Z) : list (Z * Z) :=
  flat_map (fun cy =>
    flat_map (fun cx =>
      [(((cy + by16) * 16 + (cx + bx16)) * 3 + 0, cy * 8 + cx)])
    (seqZ 0 8))
  (seqZ 0 8).

(** The writes of lines 330-337 and 344-351, for the offsets 0 and 0. *)
Definition chromaWrites (ch : Z) : list (Z * Z) :=
  flat_map (fun cy =>
    flat_map (fun cx =>
      [(((cy * 2 + 0 + 0) * 16 + (cx * 2 + 0 + 0)) * 3 + ch, cy * 8 + cx);
       (((cy * 2 + 0 + 0) * 16 + (cx * 2 + 1 + 0)) * 3 + ch, cy * 8 + cx);
       (((cy * 2 + 1 + 0) * 16 + (cx * 2 + 0 + 0)) * 3 + ch, cy * 8 + cx);
       (((cy * 2 + 1 + 0) * 16 + (cx * 2 + 1 + 0)) * 3 + ch, cy * 8 + cx)])
    (seqZ 0 8))
  (seqZ 0 8).

(** ** A scripted instance of the primitives

    The byte source is a script of pre-decoded results; each primitive
    takes the next entry when it is of its kind and fails otherwise.  The
    bit reader counts the entries taken since it was last reset.  The
    inverse DCT and the colour conversion are the identity; [unzig] is the
    zig-zag order of the JPEG standard. *)

Inductive scripted : Type :=
| SBytes (bs : list Z)
| SHuff (v : Z)
| SBit (b : bool)
| SBits (v : Z)
| SExt (v : Z).

Definition eof : error := OtherError 1.

Definition scriptReadFull (n : Z) (bt : Z) (r : list scripted)
  : result (list Z * Z * list scripted) :=
  match r with
  | SBytes bs :: r' => Ok (bs, bt, r')
  | _ => Err eof
  end.

Definition scriptHuffman (h : Z) (bt : Z) (r : list scripted)
  : result (Z * Z * list scripted) :=
  match r with
  | SHuff v :: r' => Ok (v, bt + 1, r')
  | _ => Err eof
  end.

Definition scriptBit (bt : Z) (r : list scripted)
  : result (bool * Z * list scripted) :=
  match r with
  | SBit b :: r' => Ok (b, bt + 1, r')
  | _ => Err eof
  end.

Definition scriptBits (n : Z) (bt : Z) (r : list scripted)
  : result (Z * Z * list scripted) :=
  match r with
  | SBits v :: r' => Ok (v, bt + 1, r')
  | _ => Err eof
  end.

Definition scriptExtend (t : Z) (bt : Z) (r : list scripted)
  : result (Z * Z * list scripted) :=
  match r with
  | SExt v :: r' => Ok (v, bt + 1, r')
  | _ => Err eof
  end.

Definition zigzag : list Z :=
  [ 0;  1;  8; 16;  9;  2;  3; 10;
   17; 24; 32; 25; 18; 11;  4;  5;
   12; 19; 26; 33; 40; 48; 41; 34;
   27; 20; 13;  6;  7; 14; 21; 28;
   35; 42; 49; 56; 57; 50; 43; 36;
   29; 22; 15; 23; 30; 37; 44; 51;
   58; 59; 52; 45; 38; 31; 39; 46;
   53; 60; 61; 54; 47; 55; 62; 63].

Definition Scripted : Primitives := {|
  huffman := Z;
  bitsT := Z;
  bitsZero := 0;
  byteSrc := list scripted;
  readFull := scriptReadFull;
  decodeHuffman := scriptHuffman;
  decodeBit := scriptBit;
  decodeBits := scriptBits;
  receiveExtend := scriptExtend;
  idct := fun b => b;
  YCbCrToRGB := fun y cb cr => (y, cb, cr);
  unzig := zigzag;
|}.

(** A decoder over the scripted primitives: a frame of the given size and
    components, restart interval [ri], the script [r], and everything else
    in its initial state (quantization tables all ones). *)
Definition scriptDecoder (progressive : bool) (width height ri : Z)
    (comps : list component) (eobRun : Z) (r : list scripted)
  : @decoder Scripted :=
  @mkDecoder Scripted r 0 width height None None None 0 ri
    (Z.of_nat (length comps)) (negb progressive) progressive eobRun
    (comps ++ replicate (4 - length comps)%nat (mkComponent 0 0 0 0))
    (replicate 4 None)
    [[0; 1; 2; 3]; [4; 5; 6; 7]]
    (replicate 4 (replicate 64 1))
    (replicate 128 0)
    (replicate (3 * 8 * 8 * 4) 0)
    (replicate 64 0)
    (replicate 256 0)
    [].

Definition comps420 : list component :=
  [mkComponent 1 2 2 0; mkComponent 2 1 1 1; mkComponent 3 1 1 1].


Definition blockScript : list scripted := [SHuff 0; SExt 0; SHuff 0].

(** ** Concrete inputs *)

Definition comps422v : list component :=
  [mkComponent 1 2 2 0; mkComponent 2 1 2 1; mkComponent 3 1 2 1].

(** The header of a scan of the three components of a baseline image. *)
Definition header3 : list Z := [3; 1; 0; 2; 0x11; 3; 0x11; 0; 63; 0].

Definition scan3 : list scanEntry :=
  [mkScanEntry 0 0 0; mkScanEntry 1 1 1; mkScanEntry 2 1 1].

(** A 32x16 image, 4:2:0, and the loop variables at the start of its
    scan; [ri] is the restart interval. *)
Definition sp420 : scanParams := mkScanParams 3 scan3 0 63 0 0 2 1.

Definition st420 (ri : Z) : @scanState Scripted :=
  mkScanState _ (scriptDecoder false 32 16 ri comps420 0
                   (concat (replicate 12 blockScript)))
              zeroDc rst0Marker 0 0.

(** A 32x16 image whose chroma components have two blocks, one above
    the other, in every MCU. *)
Definition d422v : @decoder Scripted :=
  scriptDecoder false 32 16 0 comps422v 0
    (SBytes header3 :: concat (replicate 16 blockScript)).



(** A progressive image of one component, and a scan header of one
    component, six bytes long. *)
Definition dProg : @decoder Scripted :=
  scriptDecoder true 8 8 0 [mkComponent 1 1 1 0] 0 [SBytes [1; 1; 0; 0; 0; 0]].

(** The same with a header of nine bytes. *)
Definition dProg9 : @decoder Scripted :=
  scriptDecoder true 8 8 0 [mkComponent 1 1 1 0] 0
    [SBytes [1; 1; 0; 0; 0; 0; 0; 0; 0]].





(** A progressive image of one component, 16x8, that a previous scan left
    with a run of two, and the header of a first-pass scan of the AC
    coefficients 1 .. 63. *)
Definition dCarry : @decoder Scripted :=
  scriptDecoder true 16 8 0 [mkComponent 1 1 1 0] 2 [SBytes [1; 1; 0; 1; 63; 0]].

Definition carryHeader : Z * list scanEntry * (Z * Z * Z * Z) * @decoder Scripted :=
  match scanHeader 6 dCarry with
  | Ok a => a
  | Err _ => (0, [], (0, 0, 0, 0), dCarry)
  end.

Definition carrySetup : scanParams * @scanState Scripted :=
  match scanSetup carryHeader.1.1.1 carryHeader.1.1.2 carryHeader.1.2
                  carryHeader.2 with
  | Ok a => a
  | Err _ => (mkScanParams 0 [] 0 0 0 0 0 0,
              mkScanState _ dCarry [] 0 0 0)
  end.

(** The decoder once the [n] bytes of a scan header are read. *)
Definition readHeader (n : Z) (d : @decoder Scripted) : @decoder Scripted :=
  match d_readFull n d with
  | Ok d1 => d1
  | Err _ => d
  end.

(** A baseline block: the DC symbol 3 with the extension 5, then the end
    of the block. *)
Definition dDC : @decoder Scripted :=
  scriptDecoder false 8 8 0 [mkComponent 1 1 1 0] 0 [SHuff 3; SExt 5; SHuff 0].

Definition spBaseline : scanParams :=
  mkScanParams 1 [mkScanEntry 0 0 0] 0 63 0 0 1 1.

(** The decoders after the scans above. *)
Definition scanned422v : @decoder Scripted :=
  match processSOS 10 d422v with
  | Ok d => d
  | Err _ => d422v
  end.

Definition scannedCarry : @decoder Scripted :=
  match processSOS 6 dCarry with
  | Ok d => d
  | Err _ => dCarry
  end.

(** The state of the scan of [dCarry] after its first block. *)
Definition carryVisited : @scanState Scripted :=
  match visitBlock carrySetup.1 (mkScanEntry 0 0 0) 1 0 0 carrySetup.2 with
  | Ok s => s
  | Err _ => carrySetup.2
  end.

(** A first-pass scan of the band 1 .. 5 of a progressive image: one
    coefficient, of run 1 and size 1, then the end of the band. *)
Definition spBand : scanParams :=
  mkScanParams 1 [mkScanEntry 0 0 0] 1 5 0 0 1 1.

Definition dBand : @decoder Scripted :=
  scriptDecoder true 8 8 0 [mkComponent 1 1 1 0] 0 [SHuff 0x11; SExt 1; SHuff 0].

Definition bandResult : list Z * list Z * @decoder Scripted :=
  match decodeBlock spBand (mkScanEntry 0 0 0) zeroBlock zeroDc dBand with
  | Ok r => r
  | Err _ => (zeroBlock, zeroDc, dBand)
  end.

(** Refinement of the band 1 .. 5: a decoder that reads a symbol of run 7
    and size 1. *)
Definition dLong : @decoder Scripted :=
  scriptDecoder true 8 8 0 [mkComponent 1 1 1 0] 0 [SHuff 0x71; SBit true].

(** The same with a run of three pending and nothing to read. *)
Definition dPending : @decoder Scripted :=
  scriptDecoder true 8 8 0 [mkComponent 1 1 1 0] 3 [].

(** The decoder of [dCarry] after its scan and after the reconstruction
    of its coefficients. *)
Definition reconstructedCarry : @decoder Scripted :=
  match reconstructProgressiveImage 17 scannedCarry with
  | Some (Ok d) => d
  | _ => scannedCarry
  end.

(** The scan of [d422v] when its loops start. *)
Definition setup422v : scanParams * @scanState Scripted :=
  match scanSetup 3 scan3 (0, 63, 0, 0) (readHeader 10 d422v) with
  | Ok a => a
  | Err _ => (mkScanParams 0 [] 0 0 0 0 0 0,
              mkScanState _ d422v [] 0 0 0)
  end.


(** * Properties *)

(** ** Results, arrays and loops *)

Lemma bind_Ok {A B : Type} (m : result A) (k : A -> result B) (b : B) :
  bind m k = Ok b -> exists a, m = Ok a /\ k a = Ok b.
Proof. destruct m as [a|e]; simpl; [eauto | discriminate]. Qed.

Lemma bind_Err {A B : Type} (m : result A) (k : A -> result B) (e : error) :
  m = Err e -> bind m k = Err e.
Proof. intros ->. reflexivity. Qed.

Lemma index_Ok {A : Type} (l : list A) (i : Z) (x : A) :
  index l i = Ok x <-> 0 <= i /\ l !! Z.to_nat i = Some x.
Proof.
  unfold index. destruct (Z.ltb_spec i 0).
  - split; [discriminate | lia].
  - destruct (l !! Z.to_nat i) eqn:E; split; intros H1;
      try discriminate; try (injection H1 as ->); auto.
    + destruct H1 as [_ H1]. congruence.
    + destruct H1 as [_ H1]. discriminate.
Qed.

Lemma index_lookup {A : Type} (l : list A) (i : Z) (x : A) :
  0 <= i -> l !! Z.to_nat i = Some x -> index l i = Ok x.
Proof. intros. apply index_Ok. auto. Qed.

Lemma store_Ok {A : Type} (l : list A) (i : Z) (x : A) (l' : list A) :
  store l i x = Ok l' <->
  (0 <= i < Z.of_nat (length l)) /\ l' = <[Z.to_nat i := x]> l.
Proof.
  unfold store.
  destruct (Z.leb_spec 0 i); destruct (Z.ltb_spec i (Z.of_nat (length l)));
    simpl; split; intros H1; try discriminate; try lia.
  - injection H1 as <-. auto.
  - destruct H1 as [_ ->]. reflexivity.
Qed.

Lemma store_in_range {A : Type} (l : list A) (i : Z) (x : A) :
  0 <= i < Z.of_nat (length l) -> store l i x = Ok (<[Z.to_nat i := x]> l).
Proof. intros. apply store_Ok. auto. Qed.

Lemma store_length {A : Type} (l : list A) (i : Z) (x : A) (l' : list A) :
  store l i x = Ok l' -> length l' = length l.
Proof. intros [_ ->]%store_Ok. apply length_insert. Qed.

Lemma forEach_app {A S : Type} (body : A -> S -> result S) (l1 l2 : list A)
    (s : S) :
  forEach body (l1 ++ l2) s = let* s' := forEach body l1 s in forEach body l2 s'.
Proof.
  revert s. induction l1 as [|x l1 IH]; intros s; simpl; [reflexivity|].
  destruct (body x s); simpl; auto.
Qed.

(** An invariant of the body of a loop is an invariant of the loop. *)
Lemma forEach_invariant {A S : Type} (I : S -> Prop)
    (body : A -> S -> result S) (l : list A) :
  (forall x s s', I s -> body x s = Ok s' -> I s') ->
  forall s s', I s -> forEach body l s = Ok s' -> I s'.
Proof.
  intros Hb. induction l as [|x l IH]; intros s s' Hs H; simpl in H.
  - injection H as <-. exact Hs.
  - apply bind_Ok in H as (s1 & H1 & H2). eauto.
Qed.

(** Two loop bodies that agree on the states an invariant allows give the
    same loop; the invariant may depend on the index. *)
Lemma forEach_seqZ_ext {St : Type} (I : Z -> St -> Prop)
    (f g : Z -> St -> result St) (n : nat) :
  forall (a : Z) (s : St),
  I a s ->
  (forall i s, a <= i < a + Z.of_nat n -> I i s ->
     f i s = g i s /\ (forall s', f i s = Ok s' -> I (i + 1) s')) ->
  forEach f (seqZ a (Z.of_nat n)) s = forEach g (seqZ a (Z.of_nat n)) s
  /\ (forall s', forEach f (seqZ a (Z.of_nat n)) s = Ok s' ->
        I (a + Z.of_nat n) s').
Proof.
  induction n as [|n IH]; intros a s Hs Hstep.
  - simpl. rewrite Z.add_0_r. split; [reflexivity|].
    intros s' H. injection H as <-. exact Hs.
  - rewrite seqZ_cons by lia. simpl.
    destruct (Hstep a s ltac:(lia) Hs) as [Hfg Hnext].
    rewrite <- Hfg.
    replace (Z.pred (Z.of_nat (S n))) with (Z.of_nat n) by lia.
    destruct (f a s) as [s1|e] eqn:E; simpl; [|split; [reflexivity|discriminate]].
    destruct (IH (Z.succ a) s1) as [H1 H2].
    + replace (Z.succ a) with (a + 1) by lia. auto.
    + intros i s2 Hi. apply Hstep. lia.
    + split; [exact H1|]. intros s' H. apply H2 in H.
      replace (a + Z.of_nat (S n)) with (Z.succ a + Z.of_nat n) by lia. exact H.
Qed.

Ltac inv_bind H :=
  let a := fresh "a" in
  let H1 := fresh "Hb" in
  apply bind_Ok in H as (a & H1 & H).


(** ** The primitives leave the frame alone *)

Section Reader.
Context `{P : Primitives}.

Lemma readerOnly_refl (d : decoder) : readerOnly d d.
Proof. destruct d. reflexivity. Qed.

Lemma readerOnly_trans (d1 d2 d3 : decoder) :
  readerOnly d1 d2 -> readerOnly d2 d3 -> readerOnly d1 d3.
Proof. unfold readerOnly. intros H1 H2. rewrite H2, H1. reflexivity. Qed.

Lemma readerOnly_setReader (d : decoder) bt r : readerOnly d (setReader bt r d).
Proof. reflexivity. Qed.

Lemma engineOnly_refl (d : decoder) : engineOnly d d.
Proof. destruct d. reflexivity. Qed.

Lemma engineOnly_trans (d1 d2 d3 : decoder) :
  engineOnly d1 d2 -> engineOnly d2 d3 -> engineOnly d1 d3.
Proof. unfold engineOnly. intros H1 H2. rewrite H2, H1. reflexivity. Qed.

Lemma readerOnly_engineOnly (d d' : decoder) : readerOnly d d' -> engineOnly d d'.
Proof. unfold readerOnly, engineOnly. intros ->. reflexivity. Qed.

Lemma engineOnly_setEobRun (d : decoder) e : engineOnly d (setEobRun e d).
Proof. destruct d. reflexivity. Qed.

Lemma readerOnly_eobRun (d d' : decoder) :
  readerOnly d d' -> d_eobRun d' = d_eobRun d.
Proof. intros ->. reflexivity. Qed.

Lemma sameFrame_refl (d : decoder) : sameFrame d d.
Proof. repeat split. Qed.

Lemma sameFrame_trans (d1 d2 d3 : decoder) :
  sameFrame d1 d2 -> sameFrame d2 d3 -> sameFrame d1 d3.
Proof.
  unfold sameFrame. intros H1 H2.
  destruct H1 as (?&?&?&?&?&?&?&?&?), H2 as (?&?&?&?&?&?&?&?&?).
  repeat split; congruence.
Qed.

Lemma engineOnly_sameFrame (d d' : decoder) : engineOnly d d' -> sameFrame d d'.
Proof. intros ->. repeat split. Qed.

Lemma withReader_Ok {A : Type} p (d : decoder) (a : A) (d' : decoder) :
  withReader p d = Ok (a, d') ->
  exists bt r, p (d_bits d) (d_r d) = Ok (a, bt, r) /\ d' = setReader bt r d.
Proof.
  unfold withReader. intros H.
  destruct (p (d_bits d) (d_r d)) as [[[a0 bt] r]|e]; simpl in H; [|discriminate].
  injection H as <- <-. eauto.
Qed.

Lemma d_decodeHuffman_Ok h (d : decoder) v d' :
  d_decodeHuffman h d = Ok (v, d') ->
  readerOnly d d' /\ 0 <= v < 256.
Proof.
  unfold d_decodeHuffman. intros H. inv_bind H. destruct a as [v0 d0].
  apply withReader_Ok in Hb as (bt & r & _ & ->). injection H as <- <-.
  split; [reflexivity|]. unfold u8. apply Z.mod_pos_bound. lia.
Qed.

Lemma d_decodeBit_Ok (d : decoder) v d' :
  d_decodeBit d = Ok (v, d') -> readerOnly d d'.
Proof.
  unfold d_decodeBit. intros (bt & r & _ & ->)%withReader_Ok. reflexivity.
Qed.

Lemma d_decodeBits_Ok n (d : decoder) v d' :
  d_decodeBits n d = Ok (v, d') -> readerOnly d d' /\ 0 <= v < 2 ^ 32.
Proof.
  unfold d_decodeBits. intros H. inv_bind H. destruct a as [v0 d0].
  apply withReader_Ok in Hb as (bt & r & _ & ->). injection H as <- <-.
  split; [reflexivity|]. unfold u32. apply Z.mod_pos_bound. lia.
Qed.

Lemma d_receiveExtend_Ok t (d : decoder) v d' :
  d_receiveExtend t d = Ok (v, d') -> readerOnly d d'.
Proof.
  unfold d_receiveExtend. intros H. inv_bind H. destruct a as [v0 d0].
  apply withReader_Ok in Hb as (bt & r & _ & ->). injection H as <- <-.
  reflexivity.
Qed.

(** [readFull] writes [d.tmp] as well. *)
Lemma d_readFull_Ok n (d d' : decoder) :
  d_readFull n d = Ok d' ->
  sameFrame d d' /\ d_eobRun d' = d_eobRun d
  /\ d_progCoeffs d' = d_progCoeffs d /\ emitted d' = emitted d
  /\ d_img1 d' = d_img1 d /\ d_img3 d' = d_img3 d.
Proof.
  unfold d_readFull. intros H. inv_bind H. destruct a as [bs d0].
  apply withReader_Ok in Hb as (bt & r & _ & ->). injection H as <-.
  repeat split.
Qed.

End Reader.

(** ** The scan header *)

Section Header.
Context `{P : Primitives}.

Lemma findComponent_range (d : decoder) (cs : Z) :
  findComponent d cs = -1 \/ 0 <= findComponent d cs < d_nComp d.
Proof.
  unfold findComponent.
  set (l := zip _ _).
  assert (Hl : Forall (fun jc => 0 <= fst jc < d_nComp d) l).
  { apply Forall_forall. intros [j c] Hin. simpl.
    apply elem_of_zip_l in Hin. apply elem_of_seqZ in Hin. lia. }
  assert (Hgen : forall acc, acc = -1 \/ 0 <= acc < d_nComp d ->
    let r := fold_left
      (fun compIndex (jc : Z * component) =>
         if cs =? comp_c jc.2 then jc.1 else compIndex) l acc in
    r = -1 \/ 0 <= r < d_nComp d).
  { induction Hl as [|jc l' Hjc Hl IH]; intros acc Hacc; simpl; [exact Hacc|].
    apply IH. destruct (cs =? comp_c jc.2); [right; exact Hjc | exact Hacc]. }
  apply Hgen. left. reflexivity.
Qed.

Lemma sumHV_snoc (d : decoder) scan e :
  sumHV d (scan ++ [e]) =
  sumHV d scan + match d_comp d !! Z.to_nat (scan_compIndex e) with
                 | Some c => comp_h c * comp_v c
                 | None => 0
                 end.
Proof.
  unfold sumHV. induction scan as [|x scan IH]; simpl.
  - destruct (d_comp d !! _); lia.
  - rewrite IH. destruct (d_comp d !! Z.to_nat (scan_compIndex x)); lia.
Qed.

(** One more component: one more entry, and its h*v is added. *)
Lemma scanComponent_Ok (d : decoder) i scan totalHV scan' totalHV' :
  scanComponent d i (scan, totalHV) = Ok (scan', totalHV') ->
  length scan' = S (length scan)
  /\ (totalHV = sumHV d scan -> totalHV' = sumHV d scan').
Proof.
  unfold scanComponent. intros H.
  destruct ((d_nComp d <? 0) || (maxComponents <? d_nComp d)) eqn:E1;
    [discriminate|].
  apply orb_false_iff in E1 as [E1a E1b].
  apply Z.ltb_ge in E1a, E1b.
  set (k := findComponent d (tmpAt d (1 + 2 * i))) in *.
  destruct (Z.ltb_spec k 0); [discriminate|].
  destruct (maxComponents <=? i); [discriminate|].
  destruct (existsb _ scan); [discriminate|].
  inv_bind H.
  destruct (_ || _) in H; [discriminate|].
  destruct (_ || _) in H; [discriminate|].
  injection H as <- <-.
  split; [rewrite length_app; simpl; lia|].
  intros ->. rewrite sumHV_snoc. simpl.
  assert (Hk : 0 <= k < d_nComp d).
  { pose proof (findComponent_range d (tmpAt d (1 + 2 * i))) as Hr.
    fold k in Hr. lia. }
  unfold maxComponents in *.
  replace (u8 k) with k by (unfold u8; rewrite Z.mod_small; lia).
  apply index_Ok in Hb as [_ ->]. reflexivity.
Qed.

Lemma scanComponents_Ok (d : decoder) (nComp : Z) scan totalHV :
  forEach (scanComponent d) (seqZ 0 nComp) ([], 0) = Ok (scan, totalHV) ->
  length scan = Z.to_nat nComp /\ totalHV = sumHV d scan.
Proof.
  intros H.
  destruct (Z.le_gt_cases nComp 0) as [Hn|Hn].
  { rewrite seqZ_nil in H by lia. injection H as <- <-.
    split; [simpl; lia | reflexivity]. }
  pose proof (forEach_seqZ_ext
    (fun i (acc : list scanEntry * Z) =>
       Z.of_nat (length acc.1) = i /\ acc.2 = sumHV d acc.1)
    (scanComponent d) (scanComponent d) (Z.to_nat nComp) 0 ([], 0)) as Hext.
  rewrite Z2Nat.id in Hext by lia.
  destruct Hext as [_ Hext].
  - simpl. auto.
  - intros i [sc t] Hi [H1 H2]. split; [reflexivity|].
    intros [sc' t'] Hs. apply scanComponent_Ok in Hs as [Hlen Hsum].
    simpl in *. split; [lia | auto].
  - apply Hext in H. simpl in H. lia.
Qed.

(** *** C8 *)

(** C8, as amended: the scan header validator accepts an SOS payload only
    when its length is exactly 4 + 2*componentCount, for a baseline and for
    a progressive image alike (the three bytes of the spectral selection
    and successive approximation values are among the 4); once the
    payload is read, any other length is rejected with a FormatError. *)
Theorem scanHeader_length (n : Z) (d d1 : decoder) :
  d_readFull n d = Ok d1 ->
  (forall nComp scan bounds d',
     scanHeader n d = Ok (nComp, scan, bounds, d') ->
     nComp = tmpAt d1 0 /\ n = 4 + 2 * nComp)
  /\ (n <> 4 + 2 * tmpAt d1 0 -> isFormatError (scanHeader n d) = true).
Proof.
  intros Hread. unfold scanHeader. rewrite Hread. simpl.
  destruct (d_nComp d =? 0); [split; [discriminate | reflexivity]|].
  destruct (_ || _); [split; [discriminate | reflexivity]|].
  destruct (Z.eqb_spec n (4 + 2 * tmpAt d1 0)) as [Hn|Hn]; simpl.
  - split; [|intros; contradiction].
    intros nComp scan bounds d' H.
    inv_bind H. destruct a as [sc t].
    destruct (_ && _) in H; [discriminate|].
    inv_bind H. injection H as <- _ _ _. auto.
  - split; [discriminate | reflexivity].
Qed.

(** *** C9 *)


End Header.


(** ** First pass *)

Section FirstPass.
Context `{P : Primitives}.

Lemma lor_pow2 (r x : Z) : 0 <= r -> 0 <= x < 2 ^ r -> Z.lor (2 ^ r) x = 2 ^ r + x.
Proof.
  intros Hr Hx.
  assert (Hland : Z.land (2 ^ r) x = 0).
  { apply Z.bits_inj'. intros n Hn. rewrite Z.land_spec, Z.bits_0.
    rewrite Z.pow2_bits_eqb by lia.
    destruct (Z.eqb_spec r n) as [->|Hne]; [|reflexivity]. simpl.
    destruct (Z.eq_dec x 0) as [->|Hx0]; [apply Z.bits_0|].
    apply Z.bits_above_log2; [lia|]. apply Z.log2_lt_pow2; lia. }
  rewrite <- Z.lxor_lor by exact Hland.
  symmetry. apply Z.add_nocarry_lxor. exact Hland.
Qed.

Lemma nibbles (value : Z) :
  0 <= value < 256 ->
  0 <= Z.shiftr value 4 < 16 /\ 0 <= Z.land value 15 < 16.
Proof.
  intros Hv. rewrite Z.shiftr_div_pow2 by lia.
  change 15 with (Z.ones 4). rewrite Z.land_ones by lia.
  split; [|apply Z.mod_pos_bound; lia].
  split; [apply Z.div_pos; lia | apply Z.div_lt_upper_bound; lia].
Qed.

Lemma u16_small (z : Z) : 0 <= z < 2 ^ 16 -> u16 z = z.
Proof. intros. unfold u16. apply Z.mod_small. lia. Qed.

Lemma u32_small (z : Z) : 0 <= z < 2 ^ 32 -> u32 z = z.
Proof. intros. unfold u32. apply Z.mod_small. lia. Qed.

Lemma i32_small (z : Z) : - 2 ^ 31 <= z < 2 ^ 31 -> i32 z = z.
Proof. intros. unfold i32. rewrite Z.mod_small; lia. Qed.

Lemma pow2_nibble (r : Z) : 0 <= r < 15 -> 1 <= 2 ^ r <= 2 ^ 14.
Proof.
  intros Hr. split; [apply (Z.pow_le_mono_r 2 0 r); lia|].
  apply Z.pow_le_mono_r; lia.
Qed.

(** The end-of-band run that a symbol with run nibble [r] starts: 1 << r,
    plus the [r] extra bits when [r] is not zero. *)
Lemma startEobRun_spec (r : Z) (d : decoder) :
  0 <= r < 15 ->
  (r = 0 -> startEobRun r d = Ok (setEobRun 1 d))
  /\ (r <> 0 -> forall bits bt rs,
        decodeBits r (d_bits d) (d_r d) = Ok (bits, bt, rs) ->
        0 <= bits < 2 ^ r ->
        startEobRun r d = Ok (setEobRun (2 ^ r + bits) (setReader bt rs d)))
  /\ (forall d', startEobRun r d = Ok d' ->
        engineOnly d d' /\ 0 <= d_eobRun d' < 2 ^ 16).
Proof.
  intros Hr. pose proof (pow2_nibble r Hr) as Hp.
  assert (H1r : u16 (Z.shiftl 1 r) = 2 ^ r).
  { rewrite Z.shiftl_1_l. apply u16_small. lia. }
  assert (Hlor : forall a b, 0 <= a < 2 ^ 16 -> 0 <= b < 2 ^ 16 ->
                         0 <= Z.lor a b < 2 ^ 16).
  { intros a b Ha Hb'.
    assert (0 <= Z.lor a b) by (apply Z.lor_nonneg; lia).
    split; [lia|].
    - destruct (Z.eq_dec (Z.lor a b) 0) as [->|Hne]; [lia|].
      apply Z.log2_lt_pow2; [lia|].
      rewrite Z.log2_lor by lia.
      destruct (Z.eq_dec a 0) as [->|]; destruct (Z.eq_dec b 0) as [->|];
        simpl; try lia.
      + rewrite Z.max_r by (apply Z.log2_nonneg). apply Z.log2_lt_pow2; lia.
      + rewrite Z.max_l by (apply Z.log2_nonneg). apply Z.log2_lt_pow2; lia.
      + apply Z.max_lub_lt; apply Z.log2_lt_pow2; lia. }
  unfold startEobRun. rewrite H1r. split; [|split].
  - intros ->. reflexivity.
  - intros Hne bits bt rs Hbits Hb.
    destruct (Z.eqb_spec r 0); [contradiction|]. simpl.
    unfold d_decodeBits, withReader. simpl.
    rewrite i32_small by lia. rewrite Hbits. simpl.
    assert (2 ^ r <= 2 ^ 14) by lia.
    rewrite u32_small by lia. rewrite u16_small by lia.
    rewrite lor_pow2 by lia. destruct d; reflexivity.
  - intros d' H. destruct (Z.eqb_spec r 0); simpl in H.
    + injection H as <-. split; [apply engineOnly_setEobRun | simpl; lia].
    + inv_bind H. injection H as <-.
      inv_bind Hb. destruct a0 as [bits d1]. injection Hb as <-.
      apply d_decodeBits_Ok in Hb0 as [-> _]. simpl.
      split; [destruct d; reflexivity|].
      assert (0 <= u16 bits < 2 ^ 16) by (unfold u16; apply Z.mod_pos_bound; lia).
      pose proof (Hlor (2 ^ r) (u16 bits) ltac:(lia) ltac:(lia)). lia.
Qed.

Lemma loopFuel_S (zig zigEnd : Z) :
  zig <= zigEnd -> exists fuel, loopFuel zig zigEnd = S fuel.
Proof.
  intros H. unfold loopFuel. exists (Z.to_nat (zigEnd - zig)).
  replace (zigEnd - zig + 1) with (Z.succ (zigEnd - zig)) by lia.
  apply Z2Nat.inj_succ. lia.
Qed.

Lemma u16_range (z : Z) : 0 <= u16 z < 2 ^ 16.
Proof. unfold u16. apply Z.mod_pos_bound. lia. Qed.

(** The AC loop writes the block and, of the decoder, the reader and the
    run counter only. *)
Lemma acLoop_engine huff zigEnd al fuel :
  forall zig b (d : decoder) b' d',
  acLoop fuel huff zigEnd al zig b d = Ok (b', d') ->
  engineOnly d d' /\ length b' = length b
  /\ (0 <= d_eobRun d < 2 ^ 16 -> 0 <= d_eobRun d' < 2 ^ 16).
Proof.
  induction fuel as [|fuel IH]; intros zig b d b' d' H; simpl in H.
  - destruct (zigEnd <? zig); injection H as <- <-;
      (split; [apply engineOnly_refl | auto]).
  - destruct (zigEnd <? zig).
    { injection H as <- <-. split; [apply engineOnly_refl | auto]. }
    inv_bind H. destruct a as [value d1].
    apply d_decodeHuffman_Ok in Hb as [Hro Hv].
    pose proof (readerOnly_eobRun _ _ Hro) as He1.
    apply readerOnly_engineOnly in Hro.
    destruct (Z.land value 15 =? 0); simpl in H.
    + destruct (Z.eqb_spec (Z.shiftr value 4) 15); simpl in H.
      * apply IH in H as (H1 & H2 & H3).
        split; [eapply engineOnly_trans; eauto|]. split; [auto|].
        intros. apply H3. lia.
      * inv_bind H. injection H as <- <-.
        apply startEobRun_spec in Hb as [Hb _];
          [|pose proof (nibbles value Hv); lia].
        split; [|split; [reflexivity | intros; apply u16_range]].
        eapply engineOnly_trans; [exact Hro|].
        eapply engineOnly_trans; [exact Hb|]. apply engineOnly_setEobRun.
    + destruct (Z.shiftr value 4 + zig >? zigEnd) eqn:E.
      * rewrite Z.add_comm in E. rewrite E in H. injection H as <- <-.
        split; [exact Hro|]. split; [reflexivity | lia].
      * rewrite Z.add_comm in E. rewrite E in H.
        inv_bind H. destruct a as [ac d2].
        apply d_receiveExtend_Ok in Hb as Hro2.
        pose proof (readerOnly_eobRun _ _ Hro2) as He2.
        apply readerOnly_engineOnly in Hro2.
        inv_bind H. inv_bind H.
        apply IH in H as (H1 & H2 & H3).
        split; [eapply engineOnly_trans; [exact Hro|];
                eapply engineOnly_trans; eauto|].
        apply store_length in Hb1.
        split; [lia | intros; apply H3; lia].
Qed.



(** With a run pending (and a band) no symbol is asked for. *)
Lemma decodeAC_suppressed e zigEnd al zig b dc (d : decoder) :
  zig <= zigEnd ->
  0 < d_eobRun d < 2 ^ 16 ->
  decodeAC e zigEnd al zig b dc d = Ok (b, dc, setEobRun (d_eobRun d - 1) d).
Proof.
  intros Hzig He. unfold decodeAC.
  destruct (Z.leb_spec zig zigEnd); [|lia].
  destruct (Z.gtb_spec (d_eobRun d) 0); [|lia]. simpl.
  rewrite u16_small by lia. reflexivity.
Qed.

Lemma decodeAC_engine e zigEnd al zig b dc (d : decoder) b' dc' d' :
  decodeAC e zigEnd al zig b dc d = Ok (b', dc', d') ->
  engineOnly d d' /\ dc' = dc /\ length b' = length b
  /\ (0 <= d_eobRun d < 2 ^ 16 -> 0 <= d_eobRun d' < 2 ^ 16).
Proof.
  unfold decodeAC. intros H. destruct (_ && _).
  - injection H as <- <- <-.
    split; [apply engineOnly_setEobRun|]. split; [reflexivity|].
    split; [reflexivity|]. intros. apply u16_range.
  - inv_bind H. inv_bind H. destruct a0 as [b1 d1]. injection H as <- <- <-.
    apply acLoop_engine in Hb0 as (H1 & H2 & H3). auto.
Qed.

(** The DC coefficient. *)
Lemma decodeDC_Ok e al b dc (d : decoder) b' dc' d' :
  decodeDC e al b dc d = Ok (b', dc', d') ->
  readerOnly d d' /\ length b' = length b /\ length dc' = length dc.
Proof.
  unfold decodeDC. intros H. inv_bind H. inv_bind H. destruct a0 as [value d1].
  destruct (value >? 16); [discriminate|].
  inv_bind H. destruct a0 as [dcDelta d2].
  inv_bind H. inv_bind H. inv_bind H. inv_bind H. injection H as <- <- <-.
  apply d_decodeHuffman_Ok in Hb0 as [Hr1 _].
  apply d_receiveExtend_Ok in Hb1.
  apply store_length in Hb3, Hb5.
  split; [eapply readerOnly_trans; eauto | auto].
Qed.

Lemma firstPass_engine e zigStart zigEnd al b dc (d : decoder) b' dc' d' :
  firstPass e zigStart zigEnd al b dc d = Ok (b', dc', d') ->
  engineOnly d d' /\ length b' = length b /\ length dc' = length dc
  /\ (0 <= d_eobRun d < 2 ^ 16 -> 0 <= d_eobRun d' < 2 ^ 16).
Proof.
  unfold firstPass. intros H. inv_bind H. destruct a as [[[zig b1] dc1] d1].
  apply decodeAC_engine in H as (H1 & -> & H3 & H4).
  destruct (zigStart =? 0).
  - inv_bind Hb. destruct a as [[b2 dc2] d2]. injection Hb as _ <- <- <-.
    apply decodeDC_Ok in Hb0 as (Hr & Hl1 & Hl2).
    pose proof (readerOnly_eobRun _ _ Hr) as He.
    split; [eapply engineOnly_trans; [apply readerOnly_engineOnly|]; eauto|].
    split; [lia|]. split; [lia|]. intros. apply H4. lia.
  - injection Hb as _ <- <- <-. auto.
Qed.

(** *** C6 *)

(** C6: in a first-pass scan (ah = 0) with zigStart = 0 the decoder
    decodes one DC Huffman symbol per block and then goes on to the AC
    coefficients; when the size category decoded exceeds 16 the block
    fails with an UnsupportedError; otherwise the category is
    sign-extended by receiveExtend, the result is added to the predictor
    of the component, and predictor << al is stored at position 0 of the
    block; the AC coefficients leave the predictor as it is. *)
Theorem firstPass_dc (sp : scanParams) (e : scanEntry) (b : block)
    (dc : list Z) (d : decoder) (h : huffman) (value : Z) (d1 : decoder) :
  sp_ah sp = 0 ->
  sp_zigStart sp = 0 ->
  huffTable d dcTable (scan_td e) = Ok h ->
  d_decodeHuffman h d = Ok (value, d1) ->
  decodeBlock sp e b dc d =
    (let* (b1, dc1, d2) := decodeDC e (sp_al sp) b dc d in
     decodeAC e (sp_zigEnd sp) (sp_al sp) 1 b1 dc1 d2)
  /\ (16 < value ->
      decodeBlock sp e b dc d = Err (UnsupportedError "excessive DC component"))
  /\ (value <= 16 ->
      forall dcDelta d2 dcv,
        d_receiveExtend value d1 = Ok (dcDelta, d2) ->
        index dc (scan_compIndex e) = Ok dcv ->
        b <> [] ->
        let predictor := i32 (dcv + dcDelta) in
        decodeDC e (sp_al sp) b dc d =
          Ok (<[0%nat := i32 (Z.shiftl predictor (sp_al sp))]> b,
              <[Z.to_nat (scan_compIndex e) := predictor]> dc, d2)
        /\ (forall b' dc' d',
              decodeBlock sp e b dc d = Ok (b', dc', d') ->
              dc' = <[Z.to_nat (scan_compIndex e) := predictor]> dc)).
Proof.
  intros Hah Hzs Hh Hv.
  assert (Heq : decodeBlock sp e b dc d =
    (let* (b1, dc1, d2) := decodeDC e (sp_al sp) b dc d in
     decodeAC e (sp_zigEnd sp) (sp_al sp) 1 b1 dc1 d2)).
  { unfold decodeBlock, firstPass. rewrite Hah, Hzs. simpl.
    destruct (decodeDC e (sp_al sp) b dc d) as [[[b1 dc1] d2]|]; reflexivity. }
  split; [exact Heq|]. split.
  - intros H16. rewrite Heq. unfold decodeDC. rewrite Hh. simpl.
    rewrite Hv. simpl. destruct (Z.gtb_spec value 16); [reflexivity | lia].
  - intros H16 dcDelta d2 dcv Hext Hdc Hb predictor.
    assert (HDC : decodeDC e (sp_al sp) b dc d =
      Ok (<[0%nat := i32 (Z.shiftl predictor (sp_al sp))]> b,
          <[Z.to_nat (scan_compIndex e) := predictor]> dc, d2)).
    { unfold decodeDC. rewrite Hh. simpl. rewrite Hv. simpl.
      destruct (Z.gtb_spec value 16); [lia|]. rewrite Hext. simpl.
      rewrite Hdc. simpl. fold predictor.
      apply index_Ok in Hdc as [Hci Hlk].
      apply lookup_lt_Some in Hlk as Hlt.
      rewrite store_in_range by lia. simpl.
      rewrite (index_lookup _ _ predictor Hci)
        by (apply list_lookup_insert_eq; exact Hlt).
      simpl. rewrite store_in_range by (destruct b; simpl in *; [congruence | lia]).
      reflexivity. }
    split; [exact HDC|].
    intros b' dc' d' H. rewrite Heq, HDC in H. simpl in H.
    apply decodeAC_engine in H as (_ & -> & _). reflexivity.
Qed.

End FirstPass.


(** ** Refinement *)

Section Refinement.
Context `{P : Primitives}.

Lemma unzig_range (n : nat) (u : Z) :
  unzigOk = true -> unzig !! n = Some u -> 0 <= u < blockSize.
Proof.
  unfold unzigOk. intros H Hu.
  apply andb_true_iff in H as [H _]. apply andb_true_iff in H as [_ H].
  rewrite forallb_forall in H.
  assert (Hin : In u unzig).
  { apply list_elem_of_In. eapply list_elem_of_lookup_2. exact Hu. }
  apply H in Hin. lia.
Qed.

Lemma unzig_inj (n1 n2 : nat) (u : Z) :
  unzigOk = true -> unzig !! n1 = Some u -> unzig !! n2 = Some u -> n1 = n2.
Proof.
  unfold unzigOk. intros H H1 H2.
  apply andb_true_iff in H as [_ H]. apply bool_decide_eq_true in H.
  eapply NoDup_lookup; eauto.
Qed.










(** Without the bound on the coefficients the frame and the lengths are
    kept all the same. *)
Lemma refineNonZeroes_engine fuel :
  forall (b : block) zig zigEnd nz delta (d : decoder) zig' b' d',
  refineNonZeroes fuel b zig zigEnd nz delta d = Ok (zig', b', d') ->
  readerOnly d d' /\ length b' = length b /\ zig <= zig'.
Proof.
  induction fuel as [|fuel IH]; intros b zig zigEnd nz delta d zig' b' d' H;
    simpl in H.
  - destruct (zigEnd <? zig); injection H as <- <- <-;
      (split; [apply readerOnly_refl | split; [reflexivity | lia]]).
  - destruct (zigEnd <? zig).
    { injection H as <- <- <-.
      split; [apply readerOnly_refl | split; [reflexivity | lia]]. }
    inv_bind H. inv_bind H.
    destruct (a0 =? 0).
    + destruct (nz =? 0).
      * injection H as <- <- <-.
        split; [apply readerOnly_refl | split; [reflexivity | lia]].
      * apply IH in H as (H1 & H2 & H3). split; [auto | split; [auto | lia]].
    + inv_bind H. destruct a1 as [bit d1]. apply d_decodeBit_Ok in Hb1.
      destruct bit; simpl in H.
      * inv_bind H. apply IH in H as (H1 & H2 & H3).
        assert (length a1 = length b)
          by (destruct (a0 >=? 0); eapply store_length; eauto).
        split; [eapply readerOnly_trans; eauto | split; [lia | lia]].
      * apply IH in H as (H1 & H2 & H3).
        split; [eapply readerOnly_trans; eauto | split; [lia | lia]].
Qed.

Lemma refineLoop_engine h zigEnd delta fuel :
  forall zig (b : block) (d : decoder) zig' b' d',
  refineLoop fuel h zigEnd delta zig b d = Ok (zig', b', d') ->
  engineOnly d d' /\ length b' = length b
  /\ (0 <= d_eobRun d < 2 ^ 16 -> 0 <= d_eobRun d' < 2 ^ 16).
Proof.
  induction fuel as [|fuel IH]; intros zig b d zig' b' d' H; simpl in H.
  - destruct (zigEnd <? zig); injection H as <- <- <-;
      (split; [apply engineOnly_refl | auto]).
  - destruct (zigEnd <? zig).
    { injection H as <- <- <-. split; [apply engineOnly_refl | auto]. }
    inv_bind H. destruct a as [value d1].
    apply d_decodeHuffman_Ok in Hb as [Hro Hv].
    pose proof (readerOnly_eobRun _ _ Hro) as He1.
    apply readerOnly_engineOnly in Hro.
    pose proof (nibbles value Hv) as [Hn0 Hn1].
    assert (Hcont : forall z d2,
      engineOnly d d2 ->
      (0 <= d_eobRun d < 2 ^ 16 -> 0 <= d_eobRun d2 < 2 ^ 16) ->
      (let* (zig, b, d) :=
         refineNonZeroes (loopFuel zig zigEnd) b zig zigEnd
           (i32 (Z.shiftr value 4)) delta d2 in
       if zig >? zigEnd then Err (FormatError "too many coefficients")
       else
         let* b := (if negb (z =? 0)
                    then let* u := index unzig zig in store b u z
                    else Ok b) in
         refineLoop fuel h zigEnd delta (zig + 1) b d) = Ok (zig', b', d') ->
      engineOnly d d' /\ length b' = length b
      /\ (0 <= d_eobRun d < 2 ^ 16 -> 0 <= d_eobRun d' < 2 ^ 16)).
    { intros z d2 Hd2 He2 Hc. inv_bind Hc. destruct a as [[zig1 b1] d3].
      apply refineNonZeroes_engine in Hb as (Hro3 & Hlen1 & _).
      pose proof (readerOnly_eobRun _ _ Hro3) as He3.
      apply readerOnly_engineOnly in Hro3.
      destruct (zig1 >? zigEnd); [discriminate|].
      inv_bind Hc. rename a into b2.
      assert (Hlen2 : length b2 = length b1).
      { destruct (negb (z =? 0)).
        - inv_bind Hb. eapply store_length; eauto.
        - injection Hb as <-. reflexivity. }
      apply IH in Hc as (H1 & H2 & H3).
      split; [eapply engineOnly_trans; [exact Hd2|];
              eapply engineOnly_trans; eauto|].
      split; [lia|]. intros. apply H3. rewrite He3. auto. }
    destruct (Z.land value 15 =? 0).
    + destruct (negb (Z.shiftr value 4 =? 15)) eqn:E15.
      * inv_bind H. injection H as <- <- <-.
        apply startEobRun_spec in Hb as [Hb Hb'];
          [|apply negb_true_iff, Z.eqb_neq in E15; lia].
        split; [eapply engineOnly_trans; eauto | auto].
      * apply (Hcont 0 d1); auto. intros. lia.
    + destruct (Z.land value 15 =? 1); [|discriminate].
      inv_bind H. destruct a as [bit d2].
      apply d_decodeBit_Ok in Hb.
      pose proof (readerOnly_eobRun _ _ Hb) as He2.
      apply readerOnly_engineOnly in Hb.
      eapply Hcont; [| |exact H].
      * eapply engineOnly_trans; eauto.
      * intros. lia.
Qed.

Lemma refine_engine (b : block) h zigStart zigEnd delta (d : decoder) b' d' :
  refine b h zigStart zigEnd delta d = Ok (b', d') ->
  engineOnly d d' /\ length b' = length b
  /\ (0 <= d_eobRun d < 2 ^ 16 -> 0 <= d_eobRun d' < 2 ^ 16).
Proof.
  intros H. unfold refine in H.
  destruct (zigStart =? 0).
  - destruct (negb (zigEnd =? 0)); [discriminate|].
    inv_bind H. destruct a as [bit d1]. apply d_decodeBit_Ok in Hb.
    pose proof (readerOnly_eobRun _ _ Hb) as He.
    apply readerOnly_engineOnly in Hb.
    destruct bit.
    + inv_bind H. inv_bind H. injection H as <- <-.
      apply store_length in Hb1.
      split; [exact Hb|]. split; [exact Hb1 | lia].
    + injection H as <- <-. split; [exact Hb|]. split; [reflexivity | lia].
  - inv_bind H. destruct a as [[zig b1] d1].
    assert (H1 : engineOnly d d1 /\ length b1 = length b
                 /\ (0 <= d_eobRun d < 2 ^ 16 -> 0 <= d_eobRun d1 < 2 ^ 16)).
    { destruct (d_eobRun d =? 0).
      - eapply refineLoop_engine; eauto.
      - injection Hb as <- <- <-. split; [apply engineOnly_refl | auto]. }
    destruct H1 as (Heng & Hlen & He).
    destruct (d_eobRun d1 >? 0).
    + inv_bind H. destruct a as [[zig2 b2] d2]. injection H as <- <-.
      apply refineNonZeroes_engine in Hb0 as (Hro & Hlen2 & _).
      split.
      { eapply engineOnly_trans; [exact Heng|].
        eapply engineOnly_trans; [apply engineOnly_setEobRun|].
        apply readerOnly_engineOnly. exact Hro. }
      split; [lia|].
      intros. rewrite (readerOnly_eobRun _ _ Hro). simpl. apply u16_range.
    + injection H as <- <-. auto.
Qed.

End Refinement.

Section RefinementClaim.
Context `{P : Primitives}.

(** *** C4 *)


End RefinementClaim.


(** ** One block *)

Section Block.
Context `{P : Primitives}.

Lemma sameCore_refl (d : decoder) : sameCore d d.
Proof. split; [apply sameFrame_refl | auto]. Qed.

Lemma sameCore_trans (d1 d2 d3 : decoder) :
  sameCore d1 d2 -> sameCore d2 d3 -> sameCore d1 d3.
Proof.
  intros (H1 & H2 & H3 & H4) (H5 & H6 & H7 & H8).
  split; [eapply sameFrame_trans; eauto|]. repeat split; congruence.
Qed.

Lemma saveCoeffs_Ok (d : decoder) ci k (b : block) d' :
  saveCoeffs d ci k b = Ok d' ->
  sameCore d d' /\ emitted d' = emitted d.
Proof.
  unfold saveCoeffs. intros H. inv_bind H.
  destruct a as [blocks|]; [|discriminate].
  inv_bind H. inv_bind H. injection H as <-.
  split; [|reflexivity]. split; [repeat split | auto].
Qed.

(** Saving the block that was loaded changes nothing. *)
Lemma load_save (d d' : decoder) ci k (b : block) :
  loadCoeffs d ci k = Ok b ->
  d_progCoeffs d' = d_progCoeffs d ->
  saveCoeffs d' ci k b = Ok d'.
Proof.
  unfold loadCoeffs, saveCoeffs. intros H Hpc. rewrite Hpc.
  inv_bind H. rewrite Hb. simpl.
  destruct a as [blocks|]; [|discriminate].
  apply index_Ok in Hb as [Hci Hpcs]. apply index_Ok in H as [Hk Hblocks].
  rewrite store_in_range by (apply lookup_lt_Some in Hblocks; lia). simpl.
  rewrite list_insert_id by exact Hblocks.
  rewrite store_in_range by (apply lookup_lt_Some in Hpcs; lia). simpl.
  rewrite list_insert_id by exact Hpcs.
  rewrite <- Hpc. destruct d'; reflexivity.
Qed.

Lemma reconstructBlock_Ok (b : block) bx by_ ci (d : decoder) dst b' d' :
  reconstructBlock b bx by_ ci d = Ok (dst, b', d') ->
  d' = setReconstructBuf dst d.
Proof.
  unfold reconstructBlock. intros H.
  inv_bind H. inv_bind H. inv_bind H. inv_bind H. injection H as <- _ <-.
  reflexivity.
Qed.

Lemma cellTile_geometry pix pix' bx by_ (d d' : decoder) :
  d_width d' = d_width d -> d_height d' = d_height d ->
  tileGeometry (cellTile pix bx by_ d') = tileGeometry (cellTile pix' bx by_ d).
Proof. intros Hw Hh. unfold tileGeometry, cellTile. simpl. rewrite Hw, Hh. reflexivity. Qed.

(** The cell: the sink is called when the block is of the third
    component, and only then. *)
Lemma assemble_Ok ci dst bx by_ (d d' : decoder) :
  assemble ci dst bx by_ d = Ok d' ->
  sameCore d d' /\ d_progCoeffs d' = d_progCoeffs d
  /\ exists tiles, emitted d' = emitted d ++ tiles
       /\ tileGeometry <$> tiles =
          (if ci =? 2 then [tileGeometry (cellTile [] bx by_ d)] else []).
Proof.
  unfold assemble. intros H.
  destruct (ci =? 0) eqn:E0.
  { inv_bind H. injection H as <-.
    apply Z.eqb_eq in E0. subst ci. simpl.
    split; [split; [repeat split | auto]|]. split; [reflexivity|].
    exists []. rewrite app_nil_r. auto. }
  destruct (ci =? 1) eqn:E1.
  { inv_bind H. injection H as <-.
    apply Z.eqb_eq in E1. subst ci. simpl.
    split; [split; [repeat split | auto]|]. split; [reflexivity|].
    exists []. rewrite app_nil_r. auto. }
  destruct (ci =? 2) eqn:E2.
  - inv_bind H. inv_bind H.
    destruct (_ <? _) in H; [discriminate|]. injection H as <-.
    split; [split; [repeat split | auto]|]. split; [reflexivity|].
    eexists. split; [reflexivity|]. reflexivity.
  - injection H as <-.
    split; [apply sameCore_refl|]. split; [reflexivity|].
    exists []. rewrite app_nil_r. auto.
Qed.

Lemma finishBlock_Ok sp e hi bx by_ (b : block) dc (d : decoder) st st' :
  finishBlock sp e hi bx by_ b dc d st = Ok st' ->
  sameCore d (st_d st') /\ st_dc st' = dc
  /\ st_mcu st' = st_mcu st /\ st_expectedRST st' = st_expectedRST st
  /\ st_blockCount st' = st_blockCount st
  /\ exists tiles, emitted (st_d st') = emitted d ++ tiles
       /\ tileGeometry <$> tiles = tileOf d (scan_compIndex e) bx by_.
Proof.
  unfold finishBlock, tileOf. intros H.
  destruct (d_progressive d).
  - inv_bind H. injection H as <-. simpl.
    apply saveCoeffs_Ok in Hb as [Hc He].
    split; [exact Hc|]. repeat (split; [reflexivity|]).
    exists []. rewrite app_nil_r. auto.
  - inv_bind H. destruct a as [[dst b1] d1]. inv_bind H. injection H as <-.
    simpl. apply reconstructBlock_Ok in Hb. subst d1.
    apply assemble_Ok in Hb0 as (Hc & _ & tiles & Ht & Hg).
    split.
    { eapply sameCore_trans; [|exact Hc].
      split; [repeat split | auto]. }
    repeat (split; [reflexivity|]).
    exists tiles. split; [exact Ht|]. rewrite Hg.
    destruct (scan_compIndex e =? 2); [|reflexivity].
    f_equal.
Qed.

Lemma decodeBlock_engine sp e (b : block) dc (d : decoder) b' dc' d' :
  decodeBlock sp e b dc d = Ok (b', dc', d') ->
  engineOnly d d' /\ length b' = length b /\ length dc' = length dc
  /\ (0 <= d_eobRun d < 2 ^ 16 -> 0 <= d_eobRun d' < 2 ^ 16).
Proof.
  unfold decodeBlock. intros H. destruct (negb (sp_ah sp =? 0)).
  - inv_bind H. inv_bind H. destruct a0 as [b1 d1]. injection H as <- <- <-.
    apply refine_engine in Hb0 as (H1 & H2 & H3). auto.
  - apply firstPass_engine in H. exact H.
Qed.

Lemma engineOnly_emitted (d d' : decoder) : engineOnly d d' -> emitted d' = emitted d.
Proof. intros ->. reflexivity. Qed.

Lemma engineOnly_progCoeffs (d d' : decoder) :
  engineOnly d d' -> d_progCoeffs d' = d_progCoeffs d.
Proof. intros ->. reflexivity. Qed.

(** What a block leaves alone, and what it hands to the sink. *)
Lemma visitBlock_Ok sp e hi bx by_ st st' :
  visitBlock sp e hi bx by_ st = Ok st' ->
  sameFrame (st_d st) (st_d st')
  /\ st_mcu st' = st_mcu st /\ st_expectedRST st' = st_expectedRST st
  /\ st_blockCount st' = st_blockCount st
  /\ length (st_dc st') = length (st_dc st)
  /\ (0 <= d_eobRun (st_d st) < 2 ^ 16 -> 0 <= d_eobRun (st_d st') < 2 ^ 16)
  /\ exists tiles, emitted (st_d st') = emitted (st_d st) ++ tiles
       /\ tileGeometry <$> tiles = tileOf (st_d st) (scan_compIndex e) bx by_.
Proof.
  unfold visitBlock. intros H. inv_bind H. inv_bind H.
  destruct a0 as [[b1 dc1] d1].
  apply decodeBlock_engine in Hb0 as (Heng & _ & Hdc & He).
  apply finishBlock_Ok in H as (Hc & Hdc' & Hm & Hr & Hbc & tiles & Ht & Hg).
  pose proof (engineOnly_sameFrame _ _ Heng) as Hf.
  destruct Hc as (Hf' & He' & _).
  split; [eapply sameFrame_trans; eauto|].
  repeat (split; [congruence|]).
  split; [intros; rewrite He'; auto|].
  exists tiles. rewrite Ht, (engineOnly_emitted _ _ Heng).
  split; [reflexivity|]. rewrite Hg. unfold tileOf, tileGeometry, cellTile.
  destruct Hf as (Hw & Hh & _ & _ & _ & Hp & _). rewrite Hw, Hh, Hp. reflexivity.
Qed.

End Block.


(** ** Loops, again *)

Lemma bind_ret {A : Type} (m : result A) : (let* a := m in Ok a) = m.
Proof. destruct m; reflexivity. Qed.

Lemma forEach_fmap {A B St : Type} (f : A -> B) (body : B -> St -> result St)
    (l : list A) (s : St) :
  forEach body (f <$> l) s = forEach (fun x => body (f x)) l s.
Proof.
  revert s. induction l as [|x l IH]; intros s; simpl; [reflexivity|].
  destruct (body (f x) s); simpl; auto.
Qed.

Lemma forEach_flat_map {A B St : Type} (f : A -> list B)
    (body : B -> St -> result St) (l : list A) (s : St) :
  forEach body (flat_map f l) s = forEach (fun x s => forEach body (f x) s) l s.
Proof.
  revert s. induction l as [|x l IH]; intros s; simpl; [reflexivity|].
  rewrite forEach_app. destruct (forEach body (f x) s); simpl; auto.
Qed.

(** Two bodies that agree on the elements of the list and on the states
    an invariant allows give the same loop. *)
Lemma forEach_ext_inv {A St : Type} (I : St -> Prop)
    (f g : A -> St -> result St) (l : list A) :
  (forall x s, x ∈ l -> I s ->
     f x s = g x s /\ (forall s', f x s = Ok s' -> I s')) ->
  forall s, I s ->
  forEach f l s = forEach g l s /\ (forall s', forEach f l s = Ok s' -> I s').
Proof.
  induction l as [|x l IH]; intros Hstep s Hs; simpl.
  - split; [reflexivity|]. intros s' H. injection H as <-. exact Hs.
  - destruct (Hstep x s ltac:(left) Hs) as [Hfg Hnext]. rewrite <- Hfg.
    destruct (f x s) as [s1|] eqn:E; simpl; [|split; [reflexivity | discriminate]].
    apply IH; [|auto]. intros y s2 Hy. apply Hstep. right. exact Hy.
Qed.

(** A loop over the indices of an array is a loop over its elements. *)
Lemma forEach_index {A St : Type} (f : A -> St -> result St) (l : list A) :
  forall (a : Z) (pre : list A) (s : St),
  a = Z.of_nat (length pre) ->
  forEach (fun i s => let* x := index (pre ++ l) i in f x s)
          (seqZ a (Z.of_nat (length l))) s
  = forEach f l s.
Proof.
  induction l as [|x l IH]; intros a pre s Ha; [reflexivity|].
  rewrite seqZ_cons by (simpl; lia). simpl forEach.
  rewrite (index_lookup (pre ++ x :: l) a x) by
    (try lia; subst a; rewrite Nat2Z.id; apply list_lookup_middle; reflexivity).
  simpl. destruct (f x s) as [s1|]; simpl; [|reflexivity].
  replace (Z.pred (Z.of_nat (S (length l)))) with (Z.of_nat (length l)) by lia.
  replace (pre ++ x :: l) with ((pre ++ [x]) ++ l) by (rewrite <- app_assoc; reflexivity).
  apply IH. rewrite length_app. simpl. lia.
Qed.

(** Two nested loops are one loop over the pairs. *)
Lemma forEach_nested_flat {St : Type} (F : Z -> Z -> St -> result St) (w h : Z)
    (s : St) :
  0 <= w ->
  forEach (fun y s => forEach (F y) (seqZ 0 w) s) (seqZ 0 h) s
  = forEach (fun k s => F (k / w) (k mod w) s) (seqZ 0 (w * h)) s.
Proof.
  intros Hw.
  destruct (Z.le_gt_cases h 0) as [Hh|Hh].
  { assert (w * h <= 0) by (apply Z.mul_nonneg_nonpos; lia).
    rewrite (seqZ_nil 0 h), (seqZ_nil 0 (w * h)) by lia. reflexivity. }
  rewrite <- (Z2Nat.id h) by lia. generalize (Z.to_nat h) as n. clear Hh.
  intros n. revert s. induction n as [|n IH]; intros s.
  { simpl. rewrite Z.mul_0_r. reflexivity. }
  rewrite seqZ_S, forEach_app, IH. simpl forEach.
  replace (w * Z.of_nat (S n)) with (w * Z.of_nat n + w) by lia.
  assert (0 <= w * Z.of_nat n) by (apply Z.mul_nonneg_nonneg; lia).
  rewrite seqZ_app by lia. rewrite forEach_app.
  destruct (forEach _ (seqZ 0 (w * Z.of_nat n)) s) as [s1|]; simpl; [|reflexivity].
  rewrite bind_ret.
  replace (0 + w * Z.of_nat n) with (w * Z.of_nat n + 0) by lia.
  rewrite <- fmap_add_seqZ, forEach_fmap.
  apply (forEach_ext_inv (fun _ => True)); [|exact I].
  intros x s2 Hx _. apply elem_of_seqZ in Hx. split; [|auto].
  replace ((w * Z.of_nat n + x) / w) with (Z.of_nat n)
    by (apply (Z.div_unique _ _ _ x); lia).
  replace ((w * Z.of_nat n + x) mod w) with x
    by (apply (Z.mod_unique _ _ (Z.of_nat n)); lia).
  reflexivity.
Qed.

(** ** Restart markers *)

Section Restart.
Context `{P : Primitives}.

Lemma restart_Ok (st st' : scanState) :
  restart st = Ok st' ->
  sameFrame (st_d st) (st_d st')
  /\ d_bits (st_d st') = bitsZero
  /\ st_dc st' = zeroDc
  /\ d_eobRun (st_d st') = 0
  /\ st_expectedRST st' = nextRST (st_expectedRST st)
  /\ st_mcu st' = st_mcu st /\ st_blockCount st' = st_blockCount st
  /\ emitted (st_d st') = emitted (st_d st)
  /\ d_progCoeffs (st_d st') = d_progCoeffs (st_d st)
  /\ tmpAt (st_d st') 0 = 0xff /\ tmpAt (st_d st') 1 = st_expectedRST st.
Proof.
  unfold restart. intros H. inv_bind H. rename a into d1.
  inv_bind H. rename a into d2.
  destruct (Z.eqb_spec (tmpAt d2 0) 255) as [Ht0|]; simpl in H; [|discriminate].
  destruct (Z.eqb_spec (tmpAt d2 1) (st_expectedRST st)) as [Ht1|]; simpl in H;
    [|discriminate].
  injection H as <-. simpl.
  apply d_readFull_Ok in Hb as (Hf1 & He1 & Hp1 & Em1 & _).
  assert (H2 : sameFrame d1 d2 /\ emitted d2 = emitted d1
               /\ d_progCoeffs d2 = d_progCoeffs d1).
  { destruct (_ && _).
    - apply d_readFull_Ok in Hb0 as (Hf2 & _ & Hp2 & Em2 & _). auto.
    - injection Hb0 as <-. split; [apply sameFrame_refl | auto]. }
  destruct H2 as (Hf2 & Em2 & Hp2).
  split.
  { eapply sameFrame_trans; [exact Hf1|]. eapply sameFrame_trans; [exact Hf2|].
    repeat split. }
  repeat split; try congruence; try exact Ht0; try exact Ht1.
Qed.

End Restart.

(** ** The loops of [processSOS] and the events of the scan *)

Section Events.
Context `{P : Primitives}.

Lemma runEvent_visit_inMcu sp d0 k bc e hi bx by_ st st' :
  inMcu d0 k bc st ->
  visitBlock sp e hi bx by_ st = Ok st' ->
  inMcu d0 k bc st'.
Proof.
  intros (Hf & Hm & Hbc) H.
  apply visitBlock_Ok in H as (Hf' & Hm' & _ & Hbc' & _).
  split; [eapply sameFrame_trans; eauto|]. split; congruence.
Qed.

Lemma blockBody_events sp d0 k e hi vi j st bc :
  0 < sp_mxx sp -> 0 <= k -> 0 < hi -> 0 <= j < hi * vi ->
  inMcu d0 k bc st ->
  (sp_nComp sp = 1 -> bc = k * (hi * vi) + j) ->
  blockBody sp (k mod sp_mxx sp) (k / sp_mxx sp) e hi vi j st
  = forEach (runEvent sp) (blockEvents sp d0 k e hi vi j) st
  /\ forall st', blockBody sp (k mod sp_mxx sp) (k / sp_mxx sp) e hi vi j st
                 = Ok st' ->
       inMcu d0 k (if sp_nComp sp =? 1 then bc + 1 else bc) st'.
Proof.
  intros HW Hk Hhi Hj Hin Hbc.
  pose proof Hin as ((Hw & Hh & _) & Hm & Hcount).
  unfold blockBody, blockEvents.
  destruct (Z.eqb_spec (sp_nComp sp) 1) as [H1|H1]; simpl negb; cbv iota.
  - specialize (Hbc H1).
    assert (0 <= k * (hi * vi)) by (apply Z.mul_nonneg_nonneg; lia).
    assert (0 < sp_mxx sp * hi) by (apply Z.mul_pos_pos; lia).
    rewrite Hcount, Hbc.
    rewrite Z.rem_mod_nonneg, Z.quot_div_nonneg by lia.
    simpl st_d. rewrite Hw, Hh, !Z.geb_leb.
    rewrite (Z.mul_comm (_ mod _) 8), (Z.mul_comm (_ / _) 8).
    destruct (_ || _); simpl; rewrite Hcount, Hbc.
    + split; [reflexivity|]. intros st' H'. injection H' as <-.
      destruct Hin as (Hf & _). split; [exact Hf|]. split; [exact Hm | simpl; lia].
    + rewrite bind_ret. split; [reflexivity|]. intros st' H'.
      eapply runEvent_visit_inMcu; [|exact H'].
      destruct Hin as (Hf & _). split; [exact Hf|]. split; [exact Hm | simpl; lia].
  - rewrite Z.rem_mod_nonneg, Z.quot_div_nonneg by lia.
    simpl. rewrite bind_ret. split; [reflexivity|].
    intros st' H'. eapply runEvent_visit_inMcu; eauto.
Qed.

Lemma componentBody_events sp d0 k e bc st cmp :
  0 < sp_mxx sp -> 0 <= k -> 0 <= scan_compIndex e ->
  d_comp d0 !! Z.to_nat (scan_compIndex e) = Some cmp ->
  0 < comp_h cmp -> 0 < comp_v cmp ->
  inMcu d0 k bc st ->
  (sp_nComp sp = 1 -> bc = k * (comp_h cmp * comp_v cmp)) ->
  (let* cmp := index (d_comp (st_d st)) (scan_compIndex e) in
   forEach (blockBody sp (k mod sp_mxx sp) (k / sp_mxx sp) e
              (comp_h cmp) (comp_v cmp))
           (seqZ 0 (comp_h cmp * comp_v cmp)) st)
  = forEach (runEvent sp) (componentEvents sp d0 k e) st
  /\ forall st',
       forEach (runEvent sp) (componentEvents sp d0 k e) st = Ok st' ->
       inMcu d0 k (if sp_nComp sp =? 1
                   then (k + 1) * (comp_h cmp * comp_v cmp) else bc) st'.
Proof.
  intros HW Hk Hci Hcmp Hhi Hvi Hin Hbc.
  pose proof Hin as ((_ & _ & _ & _ & _ & _ & Hcomp & _) & _).
  unfold componentEvents. rewrite Hcmp.
  rewrite (index_lookup _ _ cmp Hci) by (rewrite Hcomp; exact Hcmp). simpl.
  rewrite forEach_flat_map.
  set (hv := comp_h cmp * comp_v cmp).
  assert (Hhv : 0 < hv) by (apply Z.mul_pos_pos; assumption).
  pose proof (forEach_seqZ_ext
    (fun j st => inMcu d0 k (if sp_nComp sp =? 1 then bc + j else bc) st)
    (blockBody sp (k mod sp_mxx sp) (k / sp_mxx sp) e (comp_h cmp) (comp_v cmp))
    (fun j st => forEach (runEvent sp)
                   (blockEvents sp d0 k e (comp_h cmp) (comp_v cmp) j) st)
    (Z.to_nat hv) 0 st) as Hext.
  rewrite Z2Nat.id in Hext by lia.
  destruct Hext as [Heq Hpost].
  - destruct (sp_nComp sp =? 1); [rewrite Z.add_0_r|]; exact Hin.
  - intros j s Hj Hs.
    destruct (blockBody_events sp d0 k e (comp_h cmp) (comp_v cmp) j s
                (if sp_nComp sp =? 1 then bc + j else bc)
                HW Hk Hhi ltac:(fold hv; lia) Hs) as [Hb1 Hb2].
    { intros H1. rewrite H1. simpl. rewrite (Hbc H1). reflexivity. }
    split; [exact Hb1|]. intros s' Hs'. apply Hb2 in Hs'.
    destruct (sp_nComp sp =? 1); [|exact Hs'].
    replace (bc + (j + 1)) with (bc + j + 1) by lia. exact Hs'.
  - split; [exact Heq|]. intros st' H. rewrite <- Heq in H. apply Hpost in H.
    destruct (Z.eqb_spec (sp_nComp sp) 1) as [H1|H1]; [|exact H].
    rewrite (Hbc H1) in H. fold hv in H.
    replace ((k + 1) * hv) with (k * hv + (0 + hv)) by lia. exact H.
Qed.

Lemma afterMCU_events sp d0 k bc st :
  0 <= k ->
  inMcu d0 k bc st ->
  afterMCU sp st = forEach (runEvent sp) [EvMcu (restartDue sp d0 (k + 1))] st
  /\ forall st', afterMCU sp st = Ok st' -> inMcu d0 (k + 1) bc st'.
Proof.
  intros Hk (Hf0 & Hm & Hbc).
  pose proof Hf0 as (_ & _ & Hri & _).
  unfold afterMCU, restartDue. simpl forEach. rewrite bind_ret.
  cbn [st_d st_mcu setMcu]. rewrite Hm, Hri.
  assert (Hcond : (d_ri d0 >? 0) && (Z.rem (k + 1) (d_ri d0) =? 0)
                  = (0 <? d_ri d0) && ((k + 1) mod d_ri d0 =? 0)).
  { rewrite Z.gtb_ltb. destruct (Z.ltb_spec 0 (d_ri d0)); [|reflexivity].
    simpl. rewrite Z.rem_mod_nonneg by lia. reflexivity. }
  rewrite Hcond.
  destruct (_ && _ && _).
  - split; [reflexivity|]. intros st' H.
    apply restart_Ok in H as (Hf & _ & _ & _ & _ & Hm' & Hbc' & _).
    simpl in *. split; [eapply sameFrame_trans; eauto|].
    split; [exact Hm' | congruence].
  - split; [reflexivity|]. intros st' H. injection H as <-.
    split; [exact Hf0|]. split; [reflexivity | exact Hbc].
Qed.

Lemma mcuBody_events sp d0 k st :
  0 < sp_mxx sp -> 0 <= k ->
  Z.of_nat (length (sp_scan sp)) = sp_nComp sp ->
  Forall (fun e => 0 <= scan_compIndex e
                   /\ exists cmp, d_comp d0 !! Z.to_nat (scan_compIndex e)
                                  = Some cmp /\ 0 < comp_h cmp
                                  /\ 0 < comp_v cmp)
         (sp_scan sp) ->
  inMcu d0 k (countAt sp d0 k) st ->
  mcuBody sp (k / sp_mxx sp) (k mod sp_mxx sp) st
  = forEach (runEvent sp) (mcuEvents sp d0 k) st
  /\ forall st', mcuBody sp (k / sp_mxx sp) (k mod sp_mxx sp) st = Ok st' ->
       inMcu d0 (k + 1) (countAt sp d0 (k + 1)) st'.
Proof.
  intros HW Hk Hlen Hscan Hin.
  unfold mcuBody, mcuEvents. rewrite forEach_app, forEach_flat_map.
  assert (Hcomp :
    forEach (componentBody sp (k mod sp_mxx sp) (k / sp_mxx sp))
            (seqZ 0 (sp_nComp sp)) st
    = forEach (fun e st => forEach (runEvent sp) (componentEvents sp d0 k e) st)
              (sp_scan sp) st
    /\ forall st',
         forEach (fun e st => forEach (runEvent sp) (componentEvents sp d0 k e) st)
                 (sp_scan sp) st = Ok st' ->
         inMcu d0 k (countAt sp d0 (k + 1)) st').
  { rewrite <- Hlen.
    pose proof (forEach_index
      (fun e st =>
         let* cmp := index (d_comp (st_d st)) (scan_compIndex e) in
         forEach (blockBody sp (k mod sp_mxx sp) (k / sp_mxx sp) e
                    (comp_h cmp) (comp_v cmp))
                 (seqZ 0 (comp_h cmp * comp_v cmp)) st)
      (sp_scan sp) 0 [] st eq_refl) as Hidx.
    simpl app in Hidx. unfold componentBody. rewrite Hidx. clear Hidx.
    destruct (Z.eqb_spec (sp_nComp sp) 1) as [H1|H1].
    - unfold countAt in *. rewrite H1 in *. simpl Z.eqb in *. cbv iota in *.
      destruct (sp_scan sp) as [|e [|e2 l]] eqn:Escan; simpl in Hlen; try lia.
      apply Forall_inv in Hscan. destruct Hscan as (Hci & cmp & Hcmp & Hhi & Hvi).
      rewrite Hcmp in *. simpl forEach. rewrite !bind_ret.
      destruct (componentBody_events sp d0 k e _ st cmp HW Hk Hci Hcmp Hhi Hvi Hin)
        as [Heq Hpost]; [reflexivity|].
      rewrite H1 in Hpost. simpl in Hpost. auto.
    - assert (Hc : forall j, countAt sp d0 j = 0).
      { intros j. unfold countAt. destruct (sp_scan sp) as [|e [|e2 l]]; auto.
        destruct (Z.eqb_spec (sp_nComp sp) 1); [contradiction | reflexivity]. }
      rewrite Hc in *.
      pose proof (forEach_ext_inv (inMcu d0 k 0)
        (fun e st =>
           let* cmp := index (d_comp (st_d st)) (scan_compIndex e) in
           forEach (blockBody sp (k mod sp_mxx sp) (k / sp_mxx sp) e
                      (comp_h cmp) (comp_v cmp))
                   (seqZ 0 (comp_h cmp * comp_v cmp)) st)
        (fun e st => forEach (runEvent sp) (componentEvents sp d0 k e) st)
        (sp_scan sp)) as Hext.
      destruct (Hext) with (s := st) as [Heq Hpost]; [|exact Hin|].
      + intros e s He Hs. rewrite Forall_forall in Hscan.
        destruct (Hscan e He) as (Hci & cmp & Hcmp & Hhi & Hvi).
        destruct (componentBody_events sp d0 k e 0 s cmp HW Hk Hci Hcmp Hhi Hvi Hs)
          as [Heq Hpost]; [intros; contradiction|].
        split; [exact Heq|]. intros s' Hs'. rewrite Heq in Hs'.
        apply Hpost in Hs'.
        destruct (Z.eqb_spec (sp_nComp sp) 1); [contradiction | exact Hs'].
      + split; [exact Heq|]. intros st' Hs'. rewrite <- Heq in Hs'. auto. }
  destruct Hcomp as [Heq Hpost]. rewrite Heq.
  destruct (forEach _ (sp_scan sp) st) as [st1|] eqn:E; simpl;
    [|split; [reflexivity | discriminate]].
  specialize (Hpost st1 eq_refl).
  destruct (afterMCU_events sp d0 k _ st1 Hk Hpost) as [Ha Hb].
  split; [exact Ha|]. intros st' H. apply Hb in H. exact H.
Qed.

(** The events of the first [k] MCUs are run as the loops run them, and
    leave the counters where the next MCU expects them. *)
Lemma prefix_events sp st0 (n : nat) :
  scanReady sp st0 ->
  Z.of_nat n <= sp_mxx sp * sp_myy sp ->
  forEach (fun k st => mcuBody sp (k / sp_mxx sp) (k mod sp_mxx sp) st)
          (seqZ 0 (Z.of_nat n)) st0
  = forEach (runEvent sp) (eventsUpTo sp (st_d st0) (Z.of_nat n)) st0
  /\ forall st',
       forEach (runEvent sp) (eventsUpTo sp (st_d st0) (Z.of_nat n)) st0 = Ok st' ->
       inMcu (st_d st0) (Z.of_nat n) (countAt sp (st_d st0) (Z.of_nat n)) st'.
Proof.
  intros (HW & Hm & Hbc & Hlen & Hscan) Hn.
  unfold eventsUpTo. rewrite forEach_flat_map.
  pose proof (forEach_seqZ_ext
    (fun k st => inMcu (st_d st0) k (countAt sp (st_d st0) k) st)
    (fun k st => mcuBody sp (k / sp_mxx sp) (k mod sp_mxx sp) st)
    (fun k st => forEach (runEvent sp) (mcuEvents sp (st_d st0) k) st)
    n 0 st0) as Hext.
  destruct Hext as [Heq Hpost].
  - split; [apply sameFrame_refl|]. split; [exact Hm|].
    rewrite Hbc. unfold countAt.
    destruct (sp_scan sp) as [|e [|e2 l]]; auto.
    destruct (sp_nComp sp =? 1); auto.
    destruct (d_comp (st_d st0) !! _); lia.
  - intros k s Hk Hs.
    assert (0 < sp_mxx sp).
    { destruct (Z.eq_dec (sp_mxx sp) 0) as [E|E]; [rewrite E in Hn; lia | lia]. }
    apply mcuBody_events; auto. lia.
  - split; [exact Heq|]. intros st' H. rewrite <- Heq in H.
    apply Hpost in H. exact H.
Qed.

End Events.

Section Representation.
Context `{P : Primitives}.

(** The loops of [processSOS] run the events of the scan, in order. *)
Lemma scanLoop_events sp st0 :
  scanReady sp st0 ->
  scanLoop sp st0 = forEach (runEvent sp) (scanEvents sp (st_d st0)) st0.
Proof.
  intros Hready. pose proof Hready as (HW & _).
  unfold scanLoop, scanEvents.
  rewrite (forEach_nested_flat (mcuBody sp)) by exact HW.
  destruct (Z.le_gt_cases (sp_mxx sp * sp_myy sp) 0) as [Ht|Ht].
  { unfold eventsUpTo. rewrite (seqZ_nil 0 _) by lia. reflexivity. }
  rewrite <- (Z2Nat.id (sp_mxx sp * sp_myy sp)) by lia.
  apply prefix_events; [exact Hready | lia].
Qed.

End Representation.



(** ** The end-of-band run across blocks *)

Section EobRun.
Context `{P : Primitives}.

(** A block entered with a run pending leaves the counter one lower, or
    as it was when the scan has no AC coefficient to skip. *)
Lemma decodeBlock_pending sp e (b : block) dc (d : decoder) b' dc' d' :
  0 < d_eobRun d < 2 ^ 16 ->
  decodeBlock sp e b dc d = Ok (b', dc', d') ->
  d_eobRun d' = d_eobRun d - 1 \/ d_eobRun d' = d_eobRun d.
Proof.
  intros He H. unfold decodeBlock in H.
  destruct (negb (sp_ah sp =? 0)).
  - inv_bind H. inv_bind H. destruct a0 as [b1 d1]. injection H as <- <- <-.
    unfold refine in Hb0.
    destruct (sp_zigStart sp =? 0).
    + destruct (negb _); [discriminate|].
      inv_bind Hb0. destruct a0 as [bit d2]. apply d_decodeBit_Ok in Hb1.
      apply readerOnly_eobRun in Hb1.
      destruct bit.
      * inv_bind Hb0. inv_bind Hb0. injection Hb0 as <- <-. right. exact Hb1.
      * injection Hb0 as <- <-. right. exact Hb1.
    + destruct (Z.eqb_spec (d_eobRun d) 0); [lia|]. simpl in Hb0.
      destruct (Z.gtb_spec (d_eobRun d) 0); [|lia].
      inv_bind Hb0. destruct a0 as [[zig2 b2] d2]. injection Hb0 as <- <-.
      apply refineNonZeroes_engine in Hb1 as (Hro & _).
      apply readerOnly_eobRun in Hro. simpl in Hro.
      left. rewrite Hro. apply u16_small. lia.
  - unfold firstPass in H. inv_bind H. destruct a as [[[zig b1] dc1] d1].
    assert (He1 : d_eobRun d1 = d_eobRun d).
    { destruct (sp_zigStart sp =? 0).
      - inv_bind Hb. destruct a as [[b2 dc2] d2]. injection Hb as _ _ _ <-.
        apply decodeDC_Ok in Hb0 as (Hro & _). apply readerOnly_eobRun in Hro.
        exact Hro.
      - injection Hb as _ _ _ <-. reflexivity. }
    unfold decodeAC in H.
    destruct (Z.leb_spec zig (sp_zigEnd sp)).
    + destruct (Z.gtb_spec (d_eobRun d1) 0); [|lia]. simpl in H.
      injection H as <- <- <-. simpl. left. rewrite He1. apply u16_small. lia.
    + simpl in H. inv_bind H. inv_bind H. destruct a0 as [b2 d2].
      injection H as <- <- <-.
      destruct (loopFuel zig (sp_zigEnd sp)); simpl in Hb1;
        (destruct (Z.ltb_spec (sp_zigEnd sp) zig); [|lia]);
        injection Hb1 as <- <-; right; exact He1.
Qed.

Lemma visitBlock_pending sp e hi bx by_ st st' :
  0 < d_eobRun (st_d st) < 2 ^ 16 ->
  visitBlock sp e hi bx by_ st = Ok st' ->
  d_eobRun (st_d st') = d_eobRun (st_d st) - 1
  \/ d_eobRun (st_d st') = d_eobRun (st_d st).
Proof.
  intros He H. unfold visitBlock in H. inv_bind H. inv_bind H.
  destruct a0 as [[b1 dc1] d1].
  apply decodeBlock_pending in Hb0; [|exact He].
  apply finishBlock_Ok in H as ((_ & -> & _) & _). exact Hb0.
Qed.

(** The counter is cleared by a restart marker and by nothing else: any
    other event leaves a pending run as it is or takes one from it. *)
Lemma runEvent_pending sp ev st st' :
  0 < d_eobRun (st_d st) < 2 ^ 16 ->
  runEvent sp ev st = Ok st' ->
  if isRestart ev then d_eobRun (st_d st') = 0
  else d_eobRun (st_d st') = d_eobRun (st_d st)
       \/ (isVisit ev = true
           /\ d_eobRun (st_d st') = d_eobRun (st_d st) - 1).
Proof.
  intros He H. destruct ev as [e hi bx by_| |[|]]; simpl in *.
  - apply visitBlock_pending in H; [|exact He]. tauto.
  - injection H as <-. left. reflexivity.
  - apply restart_Ok in H as (_ & _ & _ & H & _). exact H.
  - injection H as <-. left. reflexivity.
Qed.

(** A block under an end-of-band run, in a first-pass scan with AC
    coefficients: it is decoded as [suppressedBlock] says, and the run
    counter goes down by one. *)
Lemma visitBlock_suppressed sp e hi bx by_ st :
  sp_ah sp = 0 ->
  acStart sp <= sp_zigEnd sp ->
  0 < d_eobRun (st_d st) < 2 ^ 16 ->
  visitBlock sp e hi bx by_ st = suppressedBlock sp e hi bx by_ st
  /\ forall st', visitBlock sp e hi bx by_ st = Ok st' ->
       d_eobRun (st_d st') = d_eobRun (st_d st) - 1.
Proof.
  intros Hah Hband He. unfold acStart in Hband.
  assert (Heq : visitBlock sp e hi bx by_ st = suppressedBlock sp e hi bx by_ st).
  { unfold visitBlock, suppressedBlock.
    destruct (loadBlock sp e hi bx by_ (st_d st)) as [b|]; [|reflexivity]. simpl.
    unfold decodeBlock, firstPass. rewrite Hah. simpl.
    destruct (Z.eqb_spec (sp_zigStart sp) 0) as [Hz|Hz].
    - rewrite Hz. simpl.
      destruct (decodeDC e (sp_al sp) b (st_dc st) (st_d st))
        as [[[b1 dc1] d1]|] eqn:EDC; [|reflexivity]. simpl.
      apply decodeDC_Ok in EDC as (Hro & _).
      apply readerOnly_eobRun in Hro.
      rewrite decodeAC_suppressed by lia. reflexivity.
    - simpl. rewrite decodeAC_suppressed by lia. reflexivity. }
  split; [exact Heq|].
  intros st' H. rewrite Heq in H. unfold suppressedBlock in H.
  inv_bind H. inv_bind H. destruct a0 as [[b1 dc1] d1].
  apply finishBlock_Ok in H as ((_ & -> & _) & _). simpl.
  destruct (sp_zigStart sp =? 0).
  - apply decodeDC_Ok in Hb0 as (Hro & _).
    apply readerOnly_eobRun in Hro. lia.
  - injection Hb0 as _ _ <-. reflexivity.
Qed.

Lemma visits_cons ev evs :
  visits (ev :: evs) = (if isVisit ev then 1 else 0) + visits evs.
Proof.
  unfold visits. rewrite filter_cons.
  destruct (isVisit ev); simpl.
  - destruct (decide (true = true)); [|congruence]. simpl length. lia.
  - destruct (decide (false = true)); [discriminate|]. lia.
Qed.

Lemma visits_nonneg evs : 0 <= visits evs.
Proof. unfold visits. lia. Qed.

(** The same along the events of a scan, as long as no restart marker
    comes and the counter lasts. *)
Lemma run_suppressed sp (evs : list scanEvent) :
  sp_ah sp = 0 ->
  acStart sp <= sp_zigEnd sp ->
  forallb (fun ev => negb (isRestart ev)) evs = true ->
  forall st,
  visits evs <= d_eobRun (st_d st) < 2 ^ 16 ->
  forEach (runEvent sp) evs st = forEach (runSuppressed sp) evs st
  /\ forall st', forEach (runEvent sp) evs st = Ok st' ->
       d_eobRun (st_d st') = d_eobRun (st_d st) - visits evs.
Proof.
  intros Hah Hband.
  induction evs as [|ev evs IH]; intros Hnr st He.
  - simpl. split; [reflexivity|]. intros st' H. injection H as <-.
    unfold visits. simpl. lia.
  - simpl in Hnr. apply andb_true_iff in Hnr as [Hev Hnr].
    rewrite visits_cons in *. pose proof (visits_nonneg evs) as Hv.
    simpl forEach.
    assert (Hstep : runEvent sp ev st = runSuppressed sp ev st
                    /\ forall st1, runEvent sp ev st = Ok st1 ->
                         d_eobRun (st_d st1)
                         = d_eobRun (st_d st) - (if isVisit ev then 1 else 0)).
    { destruct ev as [e hi bx by_| |[|]]; simpl in *; try discriminate.
      - apply visitBlock_suppressed; auto. lia.
      - split; [reflexivity|]. intros st1 H. injection H as <-. simpl. lia.
      - split; [reflexivity|]. intros st1 H. injection H as <-. simpl. lia. }
    destruct Hstep as [Heq Hdec]. rewrite <- Heq.
    destruct (runEvent sp ev st) as [st1|] eqn:E; simpl;
      [|split; [reflexivity | discriminate]].
    specialize (Hdec st1 eq_refl).
    assert (Hc : 0 <= (if isVisit ev then 1 else 0) <= 1)
      by (destruct (isVisit ev); lia).
    set (c := if isVisit ev then 1 else 0) in *.
    destruct (IH Hnr st1 ltac:(lia)) as [IH1 IH2].
    split; [exact IH1|]. intros st' H. rewrite (IH2 st' H). lia.
Qed.

(** *** C1 *)


End EobRun.


(** ** From the header to the loops *)

Section Setup.
Context `{P : Primitives}.

Lemma scanComponent_entry (d : decoder) i scan totalHV scan' totalHV' :
  scanComponent d i (scan, totalHV) = Ok (scan', totalHV') ->
  exists e, scan' = scan ++ [e] /\ 0 <= scan_compIndex e < d_nComp d
            /\ is_Some (d_comp d !! Z.to_nat (scan_compIndex e)).
Proof.
  unfold scanComponent. intros H.
  destruct ((d_nComp d <? 0) || (maxComponents <? d_nComp d)) eqn:E1;
    [discriminate|].
  apply orb_false_iff in E1 as [E1a E1b].
  apply Z.ltb_ge in E1a, E1b.
  pose proof (findComponent_range d (tmpAt d (1 + 2 * i))) as Hr.
  set (k := findComponent d (tmpAt d (1 + 2 * i))) in *.
  destruct (Z.ltb_spec k 0); [discriminate|].
  destruct (maxComponents <=? i); [discriminate|].
  destruct (existsb _ scan); [discriminate|].
  inv_bind H.
  destruct (_ || _) in H; [discriminate|].
  destruct (_ || _) in H; [discriminate|].
  injection H as <- <-.
  eexists. split; [reflexivity|]. simpl.
  unfold maxComponents in *.
  replace (u8 k) with k by (unfold u8; rewrite Z.mod_small; lia).
  split; [lia|]. apply index_Ok in Hb as [_ Hb]. rewrite Hb. eauto.
Qed.

Lemma scanComponents_entries (d : decoder) (l : list Z) :
  forall scan totalHV scan' totalHV',
  Forall (fun e => 0 <= scan_compIndex e < d_nComp d
                   /\ is_Some (d_comp d !! Z.to_nat (scan_compIndex e))) scan ->
  forEach (scanComponent d) l (scan, totalHV) = Ok (scan', totalHV') ->
  Forall (fun e => 0 <= scan_compIndex e < d_nComp d
                   /\ is_Some (d_comp d !! Z.to_nat (scan_compIndex e))) scan'.
Proof.
  induction l as [|i l IH]; intros scan t scan' t' Hs H; simpl in H.
  - injection H as <- <-. exact Hs.
  - inv_bind H. destruct a as [scan1 t1].
    apply scanComponent_entry in Hb as (e & -> & He & Hsome).
    eapply IH; [|exact H]. apply Forall_app. split; [exact Hs|].
    constructor; [split; [exact He | exact Hsome] | constructor].
Qed.

(** What an accepted header has established. *)
Lemma scanHeader_Ok n (d : decoder) nComp scan bounds d1 :
  scanHeader n d = Ok (nComp, scan, bounds, d1) ->
  d_readFull n d = Ok d1
  /\ nComp = tmpAt d1 0 /\ 1 <= nComp
  /\ Z.of_nat (length scan) = nComp
  /\ Forall (fun e => 0 <= scan_compIndex e < d_nComp d
                      /\ is_Some (d_comp d !! Z.to_nat (scan_compIndex e))) scan
  /\ scanBounds d1 nComp = Ok bounds.
Proof.
  unfold scanHeader. intros H.
  destruct (d_nComp d =? 0); [discriminate|].
  destruct ((n <? 6) || _ || _) eqn:E; [discriminate|].
  apply orb_false_iff in E as [E _]. apply orb_false_iff in E as [E _].
  apply Z.ltb_ge in E.
  inv_bind H. rename a into d0.
  destruct (Z.eqb_spec n (4 + 2 * tmpAt d0 0)); [|discriminate]. simpl in H.
  inv_bind H. destruct a as [sc t].
  destruct (_ && _) in H; [discriminate|].
  inv_bind H. injection H as <- <- <- <-.
  destruct (d_readFull_Ok _ _ _ Hb) as ((_ & _ & _ & HnC & _ & _ & Hcmp & _) & _).
  pose proof (scanComponents_Ok _ _ _ _ Hb0) as [Hlen _].
  apply scanComponents_entries in Hb0; [|constructor].
  rewrite HnC, Hcmp in Hb0.
  split; [exact Hb|]. split; [reflexivity|]. split; [lia|].
  split; [lia|]. split; [exact Hb0 | exact Hb1].
Qed.

Lemma makeImg_Ok mxx myy (d d' : decoder) :
  makeImg mxx myy d = Ok d' ->
  sameCore d d' /\ d_progCoeffs d' = d_progCoeffs d /\ emitted d' = emitted d.
Proof.
  unfold makeImg. intros H.
  destruct (d_nComp d =? 1).
  { injection H as <-. split; [split; [repeat split | auto] | auto]. }
  inv_bind H. inv_bind H.
  destruct (_ || _) in H; [discriminate|].
  destruct (_ || _) in H; [|discriminate].
  simpl in H. destruct (d_nComp d =? 4).
  - inv_bind H. destruct (_ <? 0) in H; [discriminate|]. injection H as <-.
    split; [split; [repeat split | auto] | auto].
  - injection H as <-. split; [split; [repeat split | auto] | auto].
Qed.

Lemma allocCoeffs_Ok mxx myy e (d d' : decoder) :
  allocCoeffs mxx myy e d = Ok d' ->
  sameCore d d' /\ emitted d' = emitted d.
Proof.
  unfold allocCoeffs. intros H. inv_bind H.
  destruct a as [blocks|].
  - injection H as <-. split; [apply sameCore_refl | reflexivity].
  - inv_bind H. destruct (_ <? 0) in H; [discriminate|].
    inv_bind H. injection H as <-.
    split; [split; [repeat split | auto] | auto].
Qed.

(** What the set-up leaves to the loops: the bit reader is reset, the
    run counter is not. *)
Lemma scanSetup_Ok nComp scan bounds (d : decoder) sp st :
  scanSetup nComp scan bounds d = Ok (sp, st) ->
  sameFrame d (st_d st)
  /\ d_bits (st_d st) = bitsZero
  /\ d_eobRun (st_d st) = d_eobRun d
  /\ emitted (st_d st) = emitted d
  /\ st_dc st = zeroDc /\ st_expectedRST st = rst0Marker
  /\ st_mcu st = 0 /\ st_blockCount st = 0
  /\ sp_nComp sp = nComp /\ sp_scan sp = scan
  /\ (sp_zigStart sp, sp_zigEnd sp, sp_ah sp, sp_al sp) = bounds
  /\ exists c0, d_comp d !! 0%nat = Some c0
       /\ sp_mxx sp = Z.quot (d_width d + 8 * comp_h c0 - 1) (8 * comp_h c0)
       /\ sp_myy sp = Z.quot (d_height d + 8 * comp_v c0 - 1) (8 * comp_v c0).
Proof.
  unfold scanSetup. destruct bounds as [[[zs ze] ah] al]. intros H.
  inv_bind H. rename a into c0. apply index_Ok in Hb as [_ Hc0].
  destruct (_ || _) in H; [discriminate|].
  inv_bind H. rename a into d1. inv_bind H. rename a into d2.
  injection H as <- <-. simpl.
  assert (H1 : sameCore d d1 /\ emitted d1 = emitted d).
  { destruct (_ && _).
    - apply makeImg_Ok in Hb as (H1 & _ & H2). auto.
    - injection Hb as <-. split; [apply sameCore_refl | reflexivity]. }
  assert (H2 : sameCore d1 d2 /\ emitted d2 = emitted d1).
  { destruct (d_progressive d1).
    - revert Hb0.
      apply (forEach_invariant (fun x => sameCore d1 x /\ emitted x = emitted d1));
        [|split; [apply sameCore_refl | reflexivity]].
      intros i s s' [Hs1 Hs2] Hstep. inv_bind Hstep.
      apply allocCoeffs_Ok in Hstep as [Ha Hb'].
      split; [eapply sameCore_trans; eauto | congruence].
    - injection Hb0 as <-. split; [apply sameCore_refl | reflexivity]. }
  destruct H1 as [(Hf1 & He1 & _) Hm1], H2 as [(Hf2 & He2 & _) Hm2].
  split; [eapply sameFrame_trans; eauto|].
  repeat split; try congruence.
  exists c0. auto.
Qed.

Lemma quot_nonneg_ceil (w a : Z) : 0 <= w -> 0 < a -> 0 <= Z.quot (w + a - 1) a.
Proof. intros. apply Z.quot_pos; lia. Qed.

(** After the header and the set-up of a well-formed frame the loops find
    what they rely on. *)
Lemma setup_ready n (d : decoder) nComp scan bounds d1 sp st :
  frameOk d ->
  scanHeader n d = Ok (nComp, scan, bounds, d1) ->
  scanSetup nComp scan bounds d1 = Ok (sp, st) ->
  scanReady sp st.
Proof.
  intros (Hw & Hh & Hcomp) Hhdr Hset.
  apply scanHeader_Ok in Hhdr as (Hread & _ & HnC & Hlen & Hscan & _).
  apply d_readFull_Ok in Hread as (Hf1 & _).
  apply scanSetup_Ok in Hset
    as (Hf2 & _ & _ & _ & _ & _ & Hm & Hbc & HspN & HspS & _ & c0 & Hc0 & Hmxx & _).
  pose proof (sameFrame_trans _ _ _ Hf1 Hf2) as Hf.
  destruct Hf as (Hw' & _ & _ & HnC' & _ & _ & Hcomp' & _).
  destruct Hf1 as (Hw1 & _ & _ & HnC1 & _ & _ & Hcomp1 & _).
  assert (Hn1 : 1 <= d_nComp d).
  { destruct scan as [|e scan]; [simpl in Hlen; lia|].
    apply Forall_inv in Hscan. lia. }
  split.
  { rewrite Hmxx. rewrite Hcomp1 in Hc0.
    assert (H0n : Z.of_nat 0 < d_nComp d) by (simpl; lia).
    destruct (Hcomp 0%nat c0 H0n Hc0) as [Hh0 _].
    rewrite Hw1. apply quot_nonneg_ceil; lia. }
  split; [exact Hm|]. split; [exact Hbc|].
  rewrite HspN, HspS. split; [exact Hlen|].
  eapply Forall_impl; [exact Hscan|]. intros e [He0 [cmp E]]. simpl.
  split; [lia|]. rewrite Hcomp'.
  exists cmp. split; [exact E|].
  assert (Hi : Z.of_nat (Z.to_nat (scan_compIndex e)) < d_nComp d)
    by (rewrite Z2Nat.id; lia).
  apply (Hcomp _ _ Hi E).
Qed.

End Setup.


(** ** The claims on the traversal *)

Section TraversalClaims.
Context `{P : Primitives}.

Lemma processSOS_unfold n (d : decoder) nComp scan bounds d1 sp st0 :
  scanHeader n d = Ok (nComp, scan, bounds, d1) ->
  scanSetup nComp scan bounds d1 = Ok (sp, st0) ->
  processSOS n d = (let* st := scanLoop sp st0 in Ok (st_d st)).
Proof.
  intros H1 H2. unfold processSOS. rewrite H1. simpl. rewrite H2. reflexivity.
Qed.

(** *** C10 *)

(** C10: when a new scan starts the bit reader is reset and the
    end-of-band run counter is not: it is, when the loops start, what the
    previous scan left.  In a first-pass scan with AC coefficients the
    first events of the scan, as long as no restart marker comes and they
    hold no more blocks than the counter, decode their blocks without any
    AC symbol and bring the counter down by their number.  A pending run
    is cleared by a restart marker, and otherwise every event leaves it as
    it is or, when it is a block, takes one from it. *)
Theorem eobRun_carries_over (n : Z) (d : decoder) nComp scan bounds d1 sp st0 :
  scanHeader n d = Ok (nComp, scan, bounds, d1) ->
  scanSetup nComp scan bounds d1 = Ok (sp, st0) ->
  processSOS n d = (let* st := scanLoop sp st0 in Ok (st_d st))
  /\ d_bits (st_d st0) = bitsZero
  /\ d_eobRun (st_d st0) = d_eobRun d
  /\ (frameOk d ->
      scanLoop sp st0 = forEach (runEvent sp) (scanEvents sp (st_d st0)) st0)
  /\ (sp_ah sp = 0 -> acStart sp <= sp_zigEnd sp ->
      forall evs rest,
        scanEvents sp (st_d st0) = evs ++ rest ->
        forallb (fun ev => negb (isRestart ev)) evs = true ->
        visits evs <= d_eobRun d < 2 ^ 16 ->
        forEach (runEvent sp) evs st0 = forEach (runSuppressed sp) evs st0
        /\ forall st', forEach (runEvent sp) evs st0 = Ok st' ->
             d_eobRun (st_d st') = d_eobRun d - visits evs)
  /\ (forall ev st st',
        0 < d_eobRun (st_d st) < 2 ^ 16 ->
        runEvent sp ev st = Ok st' ->
        if isRestart ev then d_eobRun (st_d st') = 0
        else d_eobRun (st_d st') = d_eobRun (st_d st)
             \/ (isVisit ev = true
                 /\ d_eobRun (st_d st') = d_eobRun (st_d st) - 1)).
Proof.
  intros Hhdr Hset.
  pose proof (scanHeader_Ok _ _ _ _ _ _ Hhdr) as (Hread & _).
  apply d_readFull_Ok in Hread as (_ & He1 & _).
  pose proof (scanSetup_Ok _ _ _ _ _ _ Hset) as (_ & Hbits & He2 & _).
  split; [eapply processSOS_unfold; eauto|].
  split; [exact Hbits|]. split; [congruence|].
  split.
  { intros Hok. apply scanLoop_events. eapply setup_ready; eauto. }
  split.
  - intros Hah Hband evs rest _ Hnr He.
    assert (He0 : d_eobRun (st_d st0) = d_eobRun d) by congruence.
    rewrite <- He0 in *. apply run_suppressed; assumption.
  - intros ev st st' He H. eapply runEvent_pending; eauto.
Qed.

(** *** C2 *)

Lemma filter_flat_map {A B : Type} (Q : B -> Prop) `{forall x, Decision (Q x)}
    (f : A -> list B) (l : list A) :
  filter Q (flat_map f l) = flat_map (fun x => filter Q (f x)) l.
Proof.
  induction l as [|x l IH]; simpl; [reflexivity|].
  rewrite filter_app, IH. reflexivity.
Qed.

Lemma flat_map_ext_in {A B : Type} (f g : A -> list B) (l : list A) :
  (forall x, x ∈ l -> f x = g x) -> flat_map f l = flat_map g l.
Proof.
  induction l as [|x l IH]; intros H; simpl; [reflexivity|].
  rewrite (H x) by left. rewrite IH; [reflexivity|].
  intros y Hy. apply H. right. exact Hy.
Qed.

Lemma flat_map_fmap {A B C : Type} (f : B -> list C) (g : A -> B) (l : list A) :
  flat_map f (g <$> l) = flat_map (fun x => f (g x)) l.
Proof.
  induction l as [|x l IH]; [reflexivity|].
  rewrite fmap_cons. simpl. f_equal. exact IH.
Qed.

(** A list over the pairs (k, j) with j < m is a list over k*m + j. *)
Lemma flat_map_nested {B : Type} (f : Z -> list B) (m : Z) (n : nat) :
  0 <= m ->
  flat_map (fun k => flat_map (fun j => f (k * m + j)) (seqZ 0 m))
           (seqZ 0 (Z.of_nat n))
  = flat_map f (seqZ 0 (Z.of_nat n * m)).
Proof.
  intros Hm. induction n as [|n IH]; [reflexivity|].
  rewrite seqZ_S, flat_map_app, IH. simpl flat_map. rewrite app_nil_r.
  replace (Z.of_nat (S n) * m) with (Z.of_nat n * m + m) by lia.
  assert (0 <= Z.of_nat n * m) by (apply Z.mul_nonneg_nonneg; lia).
  rewrite seqZ_app, flat_map_app by lia. f_equal.
  replace (0 + Z.of_nat n * m) with (Z.of_nat n * m + 0) by lia.
  rewrite <- fmap_add_seqZ. rewrite flat_map_fmap.
  apply flat_map_ext_in. intros j _. reflexivity.
Qed.

Lemma filter_visit_cons (ev : scanEvent) (evs : list scanEvent) :
  filter (fun ev => isVisit ev = true) (ev :: evs)
  = (if isVisit ev then [ev] else [])
    ++ filter (fun ev => isVisit ev = true) evs.
Proof.
  rewrite filter_cons. destruct (isVisit ev); case_decide; try congruence;
    reflexivity.
Qed.

(** The blocks decoded by a scan of one component are those of the grid,
    in raster order. *)
Lemma scanEvents_raster sp (d : decoder) e cmp :
  sp_nComp sp = 1 -> sp_scan sp = [e] ->
  d_comp d !! Z.to_nat (scan_compIndex e) = Some cmp ->
  0 <= comp_h cmp * comp_v cmp ->
  filter (fun ev => isVisit ev = true) (scanEvents sp d)
  = rasterVisits sp d e (comp_h cmp) (comp_v cmp).
Proof.
  intros H1 Hscan Hcmp Hhv.
  unfold scanEvents, eventsUpTo, rasterVisits.
  rewrite filter_flat_map.
  set (hv := comp_h cmp * comp_v cmp) in *.
  set (g := fun count : Z =>
              if (d_width d <=? 8 * (count mod (sp_mxx sp * comp_h cmp)))
                 || (d_height d <=? 8 * (count / (sp_mxx sp * comp_h cmp)))
              then []
              else [EvVisit e (comp_h cmp) (count mod (sp_mxx sp * comp_h cmp))
                      (count / (sp_mxx sp * comp_h cmp))]).
  assert (Hmcu : forall k,
    filter (fun ev => isVisit ev = true) (mcuEvents sp d k)
    = flat_map (fun j => g (k * hv + j)) (seqZ 0 hv)).
  { intros k. unfold mcuEvents. rewrite Hscan. simpl flat_map.
    rewrite app_nil_r, filter_app. unfold componentEvents. rewrite Hcmp.
    fold hv. rewrite filter_flat_map.
    rewrite (filter_visit_cons (EvMcu _) []). simpl.
    rewrite app_nil_r. apply flat_map_ext_in. intros j _.
    unfold blockEvents. rewrite H1. simpl negb. cbv iota. fold hv.
    rewrite filter_visit_cons. simpl.
    unfold g. destruct (_ || _); [reflexivity|].
    rewrite filter_visit_cons. reflexivity. }
  rewrite (flat_map_ext_in _ _ _ (fun k _ => Hmcu k)).
  destruct (Z.le_gt_cases (sp_mxx sp * sp_myy sp) 0) as [Ht|Ht].
  { rewrite (seqZ_nil 0 (sp_mxx sp * sp_myy sp)) by lia.
    assert (sp_mxx sp * sp_myy sp * hv <= 0)
      by (apply Z.mul_nonpos_nonneg; lia).
    rewrite (seqZ_nil 0 (sp_mxx sp * sp_myy sp * hv)) by lia. reflexivity. }
  rewrite <- (Z2Nat.id (sp_mxx sp * sp_myy sp)) by lia.
  apply flat_map_nested. exact Hhv.
Qed.

(** C2: the loops of [processSOS] run the events [scanEvents], which
    place the blocks as the specification says.  In a scan of more than
    one component block j of a component of the MCU at column mx of row
    my is decoded at (hi*mx + j mod hi, vi*my + j div hi).  In a scan of
    one component the blocks are counted in raster order over a grid
    mxx*hi wide, block number count being at (count mod (mxx*hi),
    count div (mxx*hi)); a block whose top-left pixel is outside the
    image moves the counter and nothing else, so that no data of the
    stream is consumed; the blocks decoded by the whole scan are those
    inside the image, in raster order. *)
Theorem traversal_order (sp : scanParams) (st0 : scanState) :
  scanReady sp st0 ->
  scanLoop sp st0 = forEach (runEvent sp) (scanEvents sp (st_d st0)) st0
  /\ (sp_nComp sp <> 1 ->
      forall (d : decoder) mx my e hi vi j,
        0 <= mx < sp_mxx sp ->
        blockEvents sp d (my * sp_mxx sp + mx) e hi vi j
        = [EvVisit e hi (hi * mx + j mod hi) (vi * my + j / hi)])
  /\ (sp_nComp sp = 1 ->
      forall (d : decoder) k e hi vi j,
        let count := k * (hi * vi) + j in
        let bx := count mod (sp_mxx sp * hi) in
        let by_ := count / (sp_mxx sp * hi) in
        blockEvents sp d k e hi vi j
        = EvCount :: (if (d_width d <=? 8 * bx) || (d_height d <=? 8 * by_)
                      then [] else [EvVisit e hi bx by_]))
  /\ (forall st, exists st',
        runEvent sp EvCount st = Ok st' /\ st_d st' = st_d st
        /\ st_dc st' = st_dc st)
  /\ (sp_nComp sp = 1 ->
      forall e cmp,
        sp_scan sp = [e] ->
        d_comp (st_d st0) !! Z.to_nat (scan_compIndex e) = Some cmp ->
        filter (fun ev => isVisit ev = true) (scanEvents sp (st_d st0))
        = rasterVisits sp (st_d st0) e (comp_h cmp) (comp_v cmp)).
Proof.
  intros Hready. split; [apply scanLoop_events; exact Hready|].
  split.
  { intros H1 d mx my e hi vi j Hmx. unfold blockEvents.
    destruct (Z.eqb_spec (sp_nComp sp) 1); [contradiction|]. simpl.
    replace ((my * sp_mxx sp + mx) mod sp_mxx sp) with mx
      by (apply (Z.mod_unique _ _ my); lia).
    replace ((my * sp_mxx sp + mx) / sp_mxx sp) with my
      by (apply (Z.div_unique _ _ _ mx); lia).
    reflexivity. }
  split.
  { intros H1 d k e hi vi j. unfold blockEvents. rewrite H1. reflexivity. }
  split.
  { intros st. eexists. split; [reflexivity|]. split; reflexivity. }
  intros H1 e cmp Hscan Hcmp.
  destruct Hready as (_ & _ & _ & _ & Hall).
  rewrite Hscan in Hall. apply Forall_inv in Hall.
  destruct Hall as (_ & cmp' & Hcmp' & Hh & Hv).
  rewrite Hcmp in Hcmp'. injection Hcmp' as <-.
  apply scanEvents_raster; auto.
  apply Z.lt_le_incl, Z.mul_pos_pos; assumption.
Qed.

(** *** C3 *)




End TraversalClaims.


(** ** Buffers filled by a loop *)

Lemma forEach_seqZ_total {St : Type} (I : Z -> St -> Prop)
    (f : Z -> St -> result St) (n : nat) :
  forall (a : Z) (s : St),
  I a s ->
  (forall i s, a <= i < a + Z.of_nat n -> I i s ->
     exists s', f i s = Ok s' /\ I (i + 1) s') ->
  exists s', forEach f (seqZ a (Z.of_nat n)) s = Ok s' /\ I (a + Z.of_nat n) s'.
Proof.
  induction n as [|n IH]; intros a s Hs Hstep.
  - exists s. simpl. rewrite Z.add_0_r. auto.
  - rewrite seqZ_cons by lia. simpl.
    destruct (Hstep a s ltac:(lia) Hs) as (s1 & Hf & Hs1). rewrite Hf. simpl.
    replace (Z.pred (Z.of_nat (S n))) with (Z.of_nat n) by lia.
    destruct (IH (Z.succ a) s1) as (s' & H1 & H2).
    + replace (Z.succ a) with (a + 1) by lia. exact Hs1.
    + intros i s2 Hi. apply Hstep. lia.
    + exists s'. split; [exact H1|].
      replace (a + Z.of_nat (S n)) with (Z.succ a + Z.of_nat n) by lia. exact H2.
Qed.

Lemma fill_step (F : Z -> result Z) (buf0 : list Z) (k : Z) (buf buf' : list Z) :
  0 <= k ->
  filled F k buf0 buf ->
  (let* v := F k in store buf k v) = Ok buf' ->
  filled F (k + 1) buf0 buf'.
Proof.
  intros Hk [Hlen Hfill] H. inv_bind H. apply store_Ok in H as [Hr ->].
  split; [rewrite length_insert; exact Hlen|].
  intros i Hi. destruct (Z.eq_dec i k) as [->|Hne].
  - exists a. split; [exact Hb|]. apply list_lookup_insert_eq. lia.
  - destruct (Hfill i ltac:(lia)) as (v & Hv & Hl). exists v.
    split; [exact Hv|]. rewrite list_lookup_insert_ne by lia. exact Hl.
Qed.

Lemma fill_loop (F : Z -> result Z) (m : nat) (buf buf' : list Z) :
  forEach (fun k buf => let* v := F k in store buf k v)
          (seqZ 0 (Z.of_nat m)) buf = Ok buf' ->
  filled F (Z.of_nat m) buf buf'.
Proof.
  intros H.
  pose proof (forEach_seqZ_ext (fun k b => filled F k buf b)
    (fun k buf => let* v := F k in store buf k v)
    (fun k buf => let* v := F k in store buf k v) m 0 buf) as [_ Hpost].
  - split; [reflexivity|]. intros i Hi. lia.
  - intros i s Hi Hs. split; [reflexivity|]. intros s' Hs'.
    eapply fill_step; eauto. lia.
  - apply Hpost in H. exact H.
Qed.

Lemma fill_loop_total (F : Z -> result Z) (m : nat) (buf : list Z) :
  (forall i, 0 <= i < Z.of_nat m -> exists v, F i = Ok v) ->
  (m <= length buf)%nat ->
  exists buf', forEach (fun k buf => let* v := F k in store buf k v)
                 (seqZ 0 (Z.of_nat m)) buf = Ok buf'.
Proof.
  intros HF Hlen.
  destruct (forEach_seqZ_total (fun k b => length b = length buf)
    (fun k buf => let* v := F k in store buf k v) m 0 buf) as (buf' & H & _).
  - reflexivity.
  - intros i s Hi Hs. destruct (HF i ltac:(lia)) as (v & Hv). rewrite Hv. simpl.
    rewrite store_in_range by lia. eexists. split; [reflexivity|].
    rewrite length_insert. exact Hs.
  - eauto.
Qed.

(** A grid filled row by row is a buffer filled entry by entry. *)
Lemma grid_flat (G : Z -> list Z -> result (list Z)) (n : Z) (buf : list Z) :
  0 < n ->
  forEach (fun y buf => forEach (fun x buf => G (y * n + x) buf) (seqZ 0 n) buf)
          (seqZ 0 n) buf
  = forEach G (seqZ 0 (n * n)) buf.
Proof.
  intros Hn.
  rewrite (forEach_nested_flat (fun y x buf => G (y * n + x) buf)) by lia.
  apply (forEach_ext_inv (fun _ => True)); [|exact I].
  intros k s _ _. split; [|auto]. f_equal.
  rewrite (Z.div_mod k n) at 3 by lia. lia.
Qed.

(** ** Block reconstruction *)

Section Reconstruct.
Context `{P : Primitives}.

Lemma unzig_length : unzigOk = true -> length unzig = Z.to_nat blockSize.
Proof.
  unfold unzigOk. intros H.
  apply andb_true_iff in H as [H _]. apply andb_true_iff in H as [H _].
  apply bool_decide_eq_true in H. exact H.
Qed.

Lemma levelShift_clamp (c : Z) : levelShift c = clampSpec c.
Proof.
  unfold levelShift, clampSpec, u8.
  destruct (Z.ltb_spec c (-128)); destruct (Z.leb_spec c (-128)); try lia;
    try reflexivity.
  - assert (c = -128) by lia. subst c. reflexivity.
  - destruct (Z.gtb_spec c 127); destruct (Z.leb_spec 128 c); try lia;
      try reflexivity.
    rewrite i32_small by lia. apply Z.mod_small. lia.
Qed.

Lemma dequantize_spec (qt b : list Z) :
  unzigOk = true ->
  length b = Z.to_nat blockSize -> length qt = Z.to_nat blockSize ->
  exists b1, dequantize qt b = Ok b1 /\ dequantizedUpTo qt b blockSize b1.
Proof.
  intros Hok Hb Hqt. unfold dequantize.
  pose proof (unzig_length Hok) as Hlen.
  destruct (forEach_seqZ_total (dequantizedUpTo qt b)
    (fun zig b =>
       let* u := index unzig zig in
       let* bu := index b u in
       let* q := index qt zig in
       store b u (i32 (bu * q)))
    (Z.to_nat blockSize) 0 b) as (b1 & H1 & H2).
  - split; [reflexivity|]. intros p c Hp. split; [intros; lia | auto].
  - intros z bz Hz [Hbz Hinv].
    unfold blockSize in *. simpl Z.of_nat in Hz.
    destruct (lookup_lt_is_Some_2 unzig (Z.to_nat z)) as [u Hu]; [lia|].
    pose proof (unzig_range _ _ Hok Hu) as Hur. unfold blockSize in Hur.
    destruct (lookup_lt_is_Some_2 b (Z.to_nat u)) as [c Hc]; [lia|].
    destruct (lookup_lt_is_Some_2 qt (Z.to_nat z)) as [q Hq]; [lia|].
    assert (Hbzu : bz !! Z.to_nat u = Some c).
    { destruct (Hinv _ _ Hc) as [_ H2]. apply H2. intros z' Hz' Hu'.
      rewrite Z2Nat.id in Hu' by lia.
      pose proof (unzig_inj _ _ _ Hok Hu Hu'). lia. }
    rewrite (index_lookup _ _ u) by (try lia; exact Hu). simpl.
    rewrite (index_lookup _ _ c) by (try lia; exact Hbzu). simpl.
    rewrite (index_lookup _ _ q) by (try lia; exact Hq). simpl.
    rewrite store_in_range by lia.
    eexists. split; [reflexivity|].
    split; [rewrite length_insert; exact Hbz|].
    intros p c' Hp. destruct (Hinv p c' Hp) as [I1 I2].
    destruct (Nat.eq_dec p (Z.to_nat u)) as [->|Hne].
    + rewrite Hc in Hp. injection Hp as <-.
      rewrite list_lookup_insert_eq by lia. split.
      * intros z' q' Hz' Hu' Hq'. rewrite Z2Nat.id in Hu' by lia.
        pose proof (unzig_inj _ _ _ Hok Hu Hu') as Heq.
        assert (z' = z) by lia. subst z'. congruence.
      * intros Hno. exfalso. apply (Hno z); [lia|].
        rewrite Z2Nat.id by lia. exact Hu.
    + rewrite list_lookup_insert_ne by auto. split.
      * intros z' q' Hz' Hu' Hq'.
        destruct (Z.eq_dec z' z) as [->|Hzz].
        { rewrite Hu in Hu'. injection Hu' as ->. lia. }
        apply (I1 z' q'); auto. lia.
      * intros Hno. apply I2. intros z' Hz'. apply Hno. lia.
  - exists b1. split; [exact H1|]. exact H2.
Qed.

Lemma levelShiftAll_eq (b buf : list Z) :
  levelShiftAll b buf =
  forEach (fun k buf =>
             let* v := (let* c := index b k in Ok (levelShift c)) in
             store buf k v)
          (seqZ 0 (8 * 8)) buf.
Proof.
  unfold levelShiftAll.
  rewrite <- (grid_flat
    (fun k buf => let* v := (let* c := index b k in Ok (levelShift c)) in
                  store buf k v) 8 buf) by lia.
  apply (forEach_ext_inv (fun _ => True)); [|exact I].
  intros y s _ _. split; [|auto].
  apply (forEach_ext_inv (fun _ => True)); [|exact I].
  intros x s' _ _. split; [|auto].
  destruct (index b (y * 8 + x)); reflexivity.
Qed.

(** *** C7 *)

(** C7: block reconstruction multiplies, for every zig-zag index z, the
    z-th value of the quantization table into the coefficient at the
    natural-order position of z, applies the inverse DCT, and maps each
    of the 64 values c that result to a byte: 0 when c <= -128, 255 when
    c >= 128 and c + 128 otherwise.  It depends on the block and the
    table only and always returns without an error. *)
Theorem reconstructBlock_spec (b : block) (bx by_ compIndex : Z) (d : decoder)
    (cmp : component) (qt : block) :
  unzigOk = true ->
  length b = Z.to_nat blockSize ->
  index (d_comp d) compIndex = Ok cmp ->
  index (d_quant d) (comp_tq cmp) = Ok qt ->
  length qt = Z.to_nat blockSize ->
  length (reconstructBlockBuf d) = Z.to_nat blockSize ->
  exists b1 buf,
    dequantize qt b = Ok b1
    /\ (forall (z p : nat) (c q : Z),
          unzig !! z = Some (Z.of_nat p) -> b !! p = Some c -> qt !! z = Some q ->
          b1 !! p = Some (i32 (c * q)))
    /\ reconstructBlock b bx by_ compIndex d
       = Ok (buf, resize (Z.to_nat blockSize) 0 (idct b1), setReconstructBuf buf d)
    /\ length buf = Z.to_nat blockSize
    /\ forall (i : nat) (c : Z),
         resize (Z.to_nat blockSize) 0 (idct b1) !! i = Some c ->
         buf !! i = Some (clampSpec c).
Proof.
  intros Hok Hb Hcmp Hqt Hqlen Hbuf.
  destruct (dequantize_spec qt b Hok Hb Hqlen) as (b1 & Hdq & Hlen1 & Hinv).
  set (b2 := resize (Z.to_nat blockSize) 0 (idct b1)).
  assert (Hb2 : length b2 = 64%nat) by (unfold b2; apply length_resize).
  destruct (fill_loop_total
    (fun k => let* c := index b2 k in Ok (levelShift c)) 64
    (reconstructBlockBuf d)) as (buf & Hfill).
  { intros i Hi. destruct (lookup_lt_is_Some_2 b2 (Z.to_nat i)) as [c Hc]; [lia|].
    exists (levelShift c). rewrite (index_lookup _ _ c) by (try lia; exact Hc).
    reflexivity. }
  { unfold blockSize in Hbuf. simpl in Hbuf. lia. }
  pose proof (fill_loop _ 64 _ _ Hfill) as [Hlen Hall].
  exists b1, buf. split; [exact Hdq|]. split.
  { intros z p c q Hz Hp Hq. destruct (Hinv p c Hp) as [H1 _].
    apply (H1 (Z.of_nat z) q); rewrite ?Nat2Z.id; auto.
    apply lookup_lt_Some in Hz. rewrite (unzig_length Hok) in Hz.
    unfold blockSize in *. lia. }
  split.
  { unfold reconstructBlock. rewrite Hcmp. simpl. rewrite Hqt. simpl.
    rewrite Hdq. simpl. fold b2. rewrite levelShiftAll_eq.
    change (8 * 8) with (Z.of_nat 64). rewrite Hfill. reflexivity. }
  split; [rewrite Hlen; exact Hbuf|].
  intros i c Hc. fold b2 in Hc. apply lookup_lt_Some in Hc as Hi.
  rewrite Hb2 in Hi.
  destruct (Hall (Z.of_nat i) ltac:(lia)) as (v & Hv & Hl).
  rewrite Nat2Z.id in Hl. rewrite Hl.
  rewrite (index_lookup _ _ c) in Hv by (try lia; rewrite Nat2Z.id; exact Hc).
  simpl in Hv. injection Hv as <-. rewrite levelShift_clamp. reflexivity.
Qed.

End Reconstruct.


(** ** The tiles handed to the sink *)

Section Tiles.
Context `{P : Primitives}.












Lemma pixelAt_body (sos cb : list Z) (k : Z) :
  (let* yy := index sos (k * 3 + 0) in
   let* cbv := index sos (k * 3 + 1) in
   let* cr := index sos (k * 3 + 2) in
   let '(r, g, b) := YCbCrToRGB yy cbv cr in
   store cb k (rgb565 (u8 r) (u8 g) (u8 b)))
  = (let* v := pixelAt sos k in store cb k v).
Proof.
  unfold pixelAt.
  destruct (index sos (k * 3 + 0)) as [yy|]; [|reflexivity]. simpl.
  destruct (index sos (k * 3 + 1)) as [cbv|]; [|reflexivity]. simpl.
  destruct (index sos (k * 3 + 2)) as [cr|]; [|reflexivity]. simpl.
  destruct (YCbCrToRGB yy cbv cr) as [[r g] b]. reflexivity.
Qed.

Lemma convertCell_eq (sos cb : list Z) :
  convertCell sos cb
  = forEach (fun k cb => let* v := pixelAt sos k in store cb k v)
            (seqZ 0 (16 * 16)) cb.
Proof.
  unfold convertCell.
  rewrite <- (grid_flat
    (fun k cb => let* v := pixelAt sos k in store cb k v) 16 cb) by lia.
  apply (forEach_ext_inv (fun _ => True)); [|exact I].
  intros y s _ _. split; [|auto].
  apply (forEach_ext_inv (fun _ => True)); [|exact I].
  intros x s' _ _. split; [|auto]. apply pixelAt_body.
Qed.


(** *** C5 *)


End Tiles.


(** ** The theorems at concrete inputs *)

Lemma sp420_ready (ri : Z) : scanReady sp420 (st420 ri).
Proof.
  split; [simpl; lia|]. split; [reflexivity|]. split; [reflexivity|].
  split; [reflexivity|].
  repeat constructor; simpl; try lia;
    (eexists; split; [reflexivity | simpl; lia]).
Qed.


Lemma traversal_order_witness :
  scanReady sp420 (st420 0)
  /\ scanLoop sp420 (st420 0)
     = forEach (runEvent sp420) (scanEvents sp420 (st_d (st420 0))) (st420 0)
  /\ blockEvents sp420 (st_d (st420 0)) (0 * sp_mxx sp420 + 1)
       (mkScanEntry 0 0 0) 2 2 3
     = [EvVisit (mkScanEntry 0 0 0) 2 (2 * 1 + 3 mod 2) (2 * 0 + 3 / 2)].
Proof.
  pose proof (@traversal_order Scripted sp420 (st420 0) (sp420_ready 0))
    as (Hloop & Hmcu & _).
  split; [apply sp420_ready|]. split; [exact Hloop|].
  apply Hmcu; [discriminate | simpl; lia].
Defined.






Lemma firstPass_dc_witness :
  sp_ah spBaseline = 0 /\ sp_zigStart spBaseline = 0
  /\ @huffTable Scripted dDC dcTable 0 = @Ok Z 0
  /\ @d_decodeHuffman Scripted 0 dDC = Ok (3, @setReader Scripted 1 [SExt 5; SHuff 0] dDC)
  /\ decodeBlock spBaseline (mkScanEntry 0 0 0) zeroBlock zeroDc dDC
     = (let* (b1, dc1, d2) := decodeDC (mkScanEntry 0 0 0) 0 zeroBlock zeroDc dDC in
        decodeAC (mkScanEntry 0 0 0) 63 0 1 b1 dc1 d2).
Proof.
  assert (H1 : @huffTable Scripted dDC dcTable 0 = @Ok Z 0) by (vm_compute; reflexivity).
  assert (H2 : @d_decodeHuffman Scripted 0 dDC = Ok (3, @setReader Scripted 1 [SExt 5; SHuff 0] dDC))
    by (vm_compute; reflexivity).
  split; [reflexivity|]. split; [reflexivity|]. split; [exact H1|].
  split; [exact H2|].
  exact (proj1 (@firstPass_dc Scripted spBaseline (mkScanEntry 0 0 0) zeroBlock
                  zeroDc dDC 0 3 _ eq_refl eq_refl H1 H2)).
Defined.

Lemma reconstructBlock_spec_witness :
  @unzigOk Scripted = true
  /\ length zeroBlock = Z.to_nat blockSize
  /\ index (d_comp dDC) 0 = Ok (mkComponent 1 1 1 0)
  /\ index (d_quant dDC) 0 = Ok (replicate 64 1)
  /\ length (replicate 64 1) = Z.to_nat blockSize
  /\ length (reconstructBlockBuf dDC) = Z.to_nat blockSize
  /\ isOk (reconstructBlock zeroBlock 0 0 0 dDC) = true.
Proof.
  assert (H1 : @unzigOk Scripted = true) by (vm_compute; reflexivity).
  assert (H2 : index (d_comp dDC) 0 = Ok (mkComponent 1 1 1 0))
    by (vm_compute; reflexivity).
  assert (H3 : index (d_quant dDC) (comp_tq (mkComponent 1 1 1 0))
               = Ok (replicate 64 1)) by (vm_compute; reflexivity).
  split; [exact H1|]. split; [reflexivity|]. split; [exact H2|].
  split; [exact H3|]. split; [reflexivity|]. split; [reflexivity|].
  destruct (@reconstructBlock_spec Scripted zeroBlock 0 0 0 dDC _ _ H1 eq_refl
              H2 H3 eq_refl eq_refl) as (b1 & buf & _ & _ & H & _).
  rewrite H. reflexivity.
Defined.

Lemma scanHeader_length_witness :
  d_readFull 9 dProg9 = Ok (readHeader 9 dProg9)
  /\ isFormatError (scanHeader 9 dProg9) = true.
Proof.
  assert (H1 : d_readFull 9 dProg9 = Ok (readHeader 9 dProg9))
    by (vm_compute; reflexivity).
  split; [exact H1|].
  destruct (@scanHeader_length Scripted 9 dProg9 _ H1) as [_ Hbad].
  apply Hbad. vm_compute. discriminate.
Defined.

(** A progressive image: a header of 6 = 4 + 2*1 bytes is accepted, and
    one of 9 = 7 + 2*1 bytes is rejected. *)
Lemma scanHeader_length_counterexample :
  d_progressive dProg = true
  /\ isOk (scanHeader 6 dProg) = true
  /\ 6 <> 7 + 2 * 1
  /\ d_progressive dProg9 = true
  /\ scanHeader 9 dProg9 = Err (FormatError "SOS has wrong length").
Proof. repeat split; try (vm_compute; reflexivity). lia. Qed.



Lemma eobRun_carries_over_witness :
  scanHeader 6 dCarry
  = Ok (carryHeader.1.1.1, carryHeader.1.1.2, carryHeader.1.2, carryHeader.2)
  /\ scanSetup carryHeader.1.1.1 carryHeader.1.1.2 carryHeader.1.2 carryHeader.2
     = Ok (carrySetup.1, carrySetup.2)
  /\ d_eobRun (st_d carrySetup.2) = d_eobRun dCarry.
Proof.
  assert (H1 : scanHeader 6 dCarry
               = Ok (carryHeader.1.1.1, carryHeader.1.1.2, carryHeader.1.2,
                     carryHeader.2)) by (vm_compute; reflexivity).
  assert (H2 : scanSetup carryHeader.1.1.1 carryHeader.1.1.2 carryHeader.1.2
                 carryHeader.2 = Ok (carrySetup.1, carrySetup.2))
    by (vm_compute; reflexivity).
  split; [exact H1|]. split; [exact H2|].
  destruct (@eobRun_carries_over Scripted 6 dCarry _ _ _ _ _ _ H1 H2)
    as (_ & _ & Hrun & _).
  exact Hrun.
Defined.


(** * More of scan.go *)

(** ** The packed pixel *)

Lemma forallb_seqZ (f : Z -> bool) (a n i : Z) :
  forallb f (seqZ a n) = true -> a <= i < a + n -> f i = true.
Proof.
  intros H Hi. rewrite forallb_forall in H. apply H.
  apply list_elem_of_In, elem_of_seqZ. lia.
Qed.

Lemma red_bits (r : Z) :
  0 <= r < 256 -> Z.land (u16 (Z.shiftl (u16 r) 8)) 0xF800 = r / 8 * 2048.
Proof.
  intros Hr.
  assert (H : forallb (fun r => Z.land (u16 (Z.shiftl (u16 r) 8)) 0xF800
                                =? r / 8 * 2048) (seqZ 0 256) = true)
    by (vm_compute; reflexivity).
  apply Z.eqb_eq. apply (forallb_seqZ _ 0 256 r H). lia.
Qed.

Lemma green_bits (g : Z) :
  0 <= g < 256 ->
  Z.shiftr (Z.land (u16 (Z.shiftl (u16 g) 8)) 0xFC00) 5 = g / 4 * 32.
Proof.
  intros Hg.
  assert (H : forallb (fun g => Z.shiftr (Z.land (u16 (Z.shiftl (u16 g) 8)) 0xFC00) 5
                                =? g / 4 * 32) (seqZ 0 256) = true)
    by (vm_compute; reflexivity).
  apply Z.eqb_eq. apply (forallb_seqZ _ 0 256 g H). lia.
Qed.

Lemma blue_bits (b : Z) :
  0 <= b < 256 ->
  Z.shiftr (Z.land (u16 (Z.shiftl (u16 b) 8)) 0xF800) 11 = b / 8.
Proof.
  intros Hb.
  assert (H : forallb (fun b => Z.shiftr (Z.land (u16 (Z.shiftl (u16 b) 8)) 0xF800) 11
                                =? b / 8) (seqZ 0 256) = true)
    by (vm_compute; reflexivity).
  apply Z.eqb_eq. apply (forallb_seqZ _ 0 256 b H). lia.
Qed.

(** X1: the pixel handed to the sink is packed 5-6-5: the five high bits
    of red in bits 15..11, the six high bits of green in bits 10..5 and
    the five high bits of blue in bits 4..0. *)
Theorem rgb565_packing (r g b : Z) :
  0 <= r < 256 -> 0 <= g < 256 -> 0 <= b < 256 ->
  rgb565 r g b = r / 8 * 2048 + g / 4 * 32 + b / 8
  /\ Z.shiftr (rgb565 r g b) 11 = r / 8
  /\ Z.land (Z.shiftr (rgb565 r g b) 5) 63 = g / 4
  /\ Z.land (rgb565 r g b) 31 = b / 8.
Proof.
  intros Hr Hg Hb.
  assert (HR : 0 <= r / 8 < 32)
    by (split; [apply Z.div_pos; lia | apply Z.div_lt_upper_bound; lia]).
  assert (HG : 0 <= g / 4 < 64)
    by (split; [apply Z.div_pos; lia | apply Z.div_lt_upper_bound; lia]).
  assert (HB : 0 <= b / 8 < 32)
    by (split; [apply Z.div_pos; lia | apply Z.div_lt_upper_bound; lia]).
  assert (Heq : rgb565 r g b = r / 8 * 2048 + g / 4 * 32 + b / 8).
  { unfold rgb565. rewrite red_bits, green_bits, blue_bits by assumption.
    rewrite (u16_small (r / 8 * 2048 + g / 4 * 32)) by lia.
    apply u16_small. lia. }
  split; [exact Heq|]. rewrite Heq.
  split; [|split].
  - rewrite Z.shiftr_div_pow2 by lia. change (2 ^ 11) with 2048.
    symmetry. apply (Z.div_unique _ _ _ (g / 4 * 32 + b / 8)); lia.
  - rewrite Z.shiftr_div_pow2 by lia. change (2 ^ 5) with 32.
    change 63 with (Z.ones 6). rewrite Z.land_ones by lia. change (2 ^ 6) with 64.
    replace ((r / 8 * 2048 + g / 4 * 32 + b / 8) / 32) with (r / 8 * 64 + g / 4)
      by (apply (Z.div_unique _ _ _ (b / 8)); lia).
    symmetry. apply (Z.mod_unique _ _ (r / 8)); lia.
  - change 31 with (Z.ones 5). rewrite Z.land_ones by lia. change (2 ^ 5) with 32.
    symmetry. apply (Z.mod_unique _ _ (r / 8 * 64 + g / 4)); lia.
Qed.

Lemma rgb565_packing_witness :
  0 <= 255 < 256 /\ 0 <= 128 < 256 /\ 0 <= 7 < 256
  /\ rgb565 255 128 7 = 255 / 8 * 2048 + 128 / 4 * 32 + 7 / 8.
Proof.
  split; [lia|]. split; [lia|]. split; [lia|].
  exact (proj1 (rgb565_packing 255 128 7 ltac:(lia) ltac:(lia) ltac:(lia))).
Defined.

(** ** The writes of the cell loops *)

Lemma bind_assoc {A B C : Type} (m : result A) (f : A -> result B)
    (g : B -> result C) :
  (let* b := (let* a := m in f a) in g b) = (let* a := m in let* b := f a in g b).
Proof. destruct m; reflexivity. Qed.

Lemma forallb_Forall {A : Type} (f : A -> bool) (Q : A -> Prop) (l : list A) :
  (forall x, f x = true -> Q x) -> forallb f l = true -> Forall Q l.
Proof.
  intros Hf H. rewrite forallb_forall in H. apply Forall_forall.
  intros x Hx. apply Hf, H, list_elem_of_In, Hx.
Qed.

Lemma scatter_spec (src : list Z) (ws : list (Z * Z)) :
  forall buf : list Z,
  Forall (fun w => 0 <= w.1 < Z.of_nat (length buf)
                   /\ 0 <= w.2 < Z.of_nat (length src)) ws ->
  NoDup ws.*1 ->
  exists buf', scatter src ws buf = Ok buf'
    /\ length buf' = length buf
    /\ (forall w, w ∈ ws -> buf' !! Z.to_nat w.1 = src !! Z.to_nat w.2)
    /\ (forall i : nat, Z.of_nat i ∉ ws.*1 -> buf' !! i = buf !! i).
Proof.
  induction ws as [|w ws IH]; intros buf Hr Hnd.
  - exists buf. split; [reflexivity|]. split; [reflexivity|].
    split; [intros w Hw; inversion Hw | reflexivity].
  - apply Forall_cons in Hr as [[Hp Hs] Hr].
    rewrite fmap_cons in Hnd. apply NoDup_cons in Hnd as [Hnin Hnd].
    destruct (lookup_lt_is_Some_2 src (Z.to_nat w.2) ltac:(lia)) as [v Hv].
    unfold scatter. simpl.
    rewrite (index_lookup _ _ _ (proj1 Hs) Hv). simpl.
    rewrite store_in_range by exact Hp. simpl.
    destruct (IH (<[Z.to_nat w.1 := v]> buf)) as (buf' & Hrun & Hlen & Hw & Hother).
    { rewrite length_insert. exact Hr. }
    { exact Hnd. }
    exists buf'. split; [exact Hrun|].
    split; [rewrite Hlen; apply length_insert|].
    split.
    + intros w' Hw'. apply elem_of_cons in Hw' as [->|Hw']; [|apply Hw, Hw'].
      rewrite Hother.
      * rewrite list_lookup_insert_eq by lia. symmetry. exact Hv.
      * rewrite Z2Nat.id by lia. exact Hnin.
    + intros i Hi. apply not_elem_of_cons in Hi as [Hne Hi].
      rewrite (Hother i Hi). apply list_lookup_insert_ne. lia.
Qed.

Lemma rem_16 (z : Z) : Z.rem (z * 8 * 2) 16 = 0.
Proof.
  replace (z * 8 * 2) with (z * 16) by lia. apply Z.rem_mul. lia.
Qed.

Lemma rem_8 (z : Z) : 0 <= z -> Z.rem (z * 8) 16 = 8 * (z mod 2).
Proof.
  intros Hz. rewrite Z.rem_mod_nonneg by lia.
  symmetry. apply (Z.mod_unique _ _ (z / 2)); [|].
  - pose proof (Z.mod_pos_bound z 2 ltac:(lia)). lia.
  - pose proof (Z.div_mod z 2 ltac:(lia)). lia.
Qed.

Lemma putChroma_scatter (ch : Z) (dst : list Z) (bx by_ : Z) (buf : list Z) :
  putChroma ch dst bx by_ buf = scatter dst (chromaWrites ch) buf.
Proof.
  unfold putChroma, scatter, chromaWrites. rewrite !rem_16.
  rewrite forEach_flat_map.
  apply (forEach_ext_inv (fun _ => True)); [|exact I].
  intros cy s _ _. split; [|auto].
  rewrite forEach_flat_map.
  apply (forEach_ext_inv (fun _ => True)); [|exact I].
  intros cx s' _ _. split; [|auto].
  simpl. rewrite !bind_assoc.
  destruct (index dst (cy * 8 + cx)); [simpl|reflexivity].
  destruct (store s' _ a); [simpl|reflexivity].
  destruct (store a0 _ a); [simpl|reflexivity].
  destruct (store a1 _ a); [simpl|reflexivity].
  destruct (store a2 _ a); reflexivity.
Qed.

Lemma putLuma_scatter (dst : list Z) (bx by_ : Z) (buf : list Z) :
  putLuma dst bx by_ buf
  = scatter dst (lumaWrites (Z.rem (bx * 8) 16) (Z.rem (by_ * 8) 16)) buf.
Proof.
  unfold putLuma, scatter, lumaWrites.
  rewrite forEach_flat_map.
  apply (forEach_ext_inv (fun _ => True)); [|exact I].
  intros cy s _ _. split; [|auto].
  rewrite forEach_flat_map.
  apply (forEach_ext_inv (fun _ => True)); [|exact I].
  intros cx s' _ _. split; [|auto].
  simpl.
  destruct (index dst (cy * 8 + cx)); [simpl|reflexivity].
  destruct (store s' _ a); reflexivity.
Qed.


(** ** A block in the cell *)

Lemma writes_in_range (ws : list (Z * Z)) (buf src : list Z) :
  forallb (fun w => (0 <=? w.1) && (w.1 <? 768) && (0 <=? w.2) && (w.2 <? 64)) ws
  = true ->
  length buf = 768%nat -> (64 <= length src)%nat ->
  Forall (fun w => 0 <= w.1 < Z.of_nat (length buf)
                   /\ 0 <= w.2 < Z.of_nat (length src)) ws.
Proof.
  intros H Hbuf Hsrc. revert H. apply forallb_Forall.
  intros w Hw. simpl in Hw.
  apply andb_prop in Hw as [Hw H4]. apply andb_prop in Hw as [Hw H3].
  apply andb_prop in Hw as [H1 H2]. rewrite Hbuf. lia.
Qed.

Lemma putChroma_cell (ch : Z) (dst : list Z) (bx by_ : Z) (buf : list Z) :
  0 <= ch < 3 -> length buf = 768%nat -> (64 <= length dst)%nat ->
  exists buf', putChroma ch dst bx by_ buf = Ok buf'
    /\ length buf' = length buf
    /\ (forall y x, 0 <= y < 16 -> 0 <= x < 16 ->
          buf' !! Z.to_nat ((y * 16 + x) * 3 + ch)
          = dst !! Z.to_nat (y / 2 * 8 + x / 2))
    /\ (forall y x c, 0 <= y < 16 -> 0 <= x < 16 -> 0 <= c < 3 -> c <> ch ->
          buf' !! Z.to_nat ((y * 16 + x) * 3 + c)
          = buf !! Z.to_nat ((y * 16 + x) * 3 + c)).
Proof.
  intros Hch Hbuf Hdst. rewrite putChroma_scatter.
  assert (Hrange : forallb (fun ch =>
            forallb (fun w => (0 <=? w.1) && (w.1 <? 768) && (0 <=? w.2) && (w.2 <? 64))
                    (chromaWrites ch)) (seqZ 0 3) = true)
    by (vm_compute; reflexivity).
  assert (Hnd : forallb (fun ch => bool_decide (NoDup (chromaWrites ch).*1))
                        (seqZ 0 3) = true)
    by (vm_compute; reflexivity).
  assert (Hin : forallb (fun ch => forallb (fun y => forallb (fun x =>
            bool_decide (((y * 16 + x) * 3 + ch, y / 2 * 8 + x / 2)
                         ∈ chromaWrites ch))
            (seqZ 0 16)) (seqZ 0 16)) (seqZ 0 3) = true)
    by (vm_compute; reflexivity).
  assert (Hout : forallb (fun ch => forallb (fun y => forallb (fun x =>
            forallb (fun c => (c =? ch)
                              || bool_decide ((y * 16 + x) * 3 + c
                                              ∉ (chromaWrites ch).*1))
            (seqZ 0 3)) (seqZ 0 16)) (seqZ 0 16)) (seqZ 0 3) = true)
    by (vm_compute; reflexivity).
  apply (forallb_seqZ _ 0 3 ch) in Hrange; [|lia].
  apply (forallb_seqZ _ 0 3 ch) in Hnd; [|lia].
  apply (forallb_seqZ _ 0 3 ch) in Hin; [|lia].
  apply (forallb_seqZ _ 0 3 ch) in Hout; [|lia].
  apply bool_decide_eq_true_1 in Hnd.
  destruct (scatter_spec dst (chromaWrites ch) buf
              (writes_in_range _ _ _ Hrange Hbuf Hdst) Hnd)
    as (buf' & Hrun & Hlen & Hw & Hother).
  exists buf'. split; [exact Hrun|]. split; [exact Hlen|]. split.
  - intros y x Hy Hx.
    apply (forallb_seqZ _ 0 16 y) in Hin; [|lia].
    apply (forallb_seqZ _ 0 16 x) in Hin; [|lia].
    apply bool_decide_eq_true_1 in Hin. exact (Hw _ Hin).
  - intros y x c Hy Hx Hc Hne.
    apply (forallb_seqZ _ 0 16 y) in Hout; [|lia].
    apply (forallb_seqZ _ 0 16 x) in Hout; [|lia].
    apply (forallb_seqZ _ 0 3 c) in Hout; [|lia].
    apply orb_prop in Hout as [Hout|Hout]; [apply Z.eqb_eq in Hout; lia|].
    apply bool_decide_eq_true_1 in Hout.
    apply Hother. rewrite Z2Nat.id by lia. exact Hout.
Qed.

(** X2: a chroma block is spread over the whole cell, every sample
    covering two pixels by two: pixel (x, y) of the cell gets sample
    (y/2)*8 + x/2 of the block in channel [ch], wherever the block is in
    the image; the other two channels of the cell are left as they are. *)
Theorem putChroma_upsamples (ch : Z) (dst : list Z) (bx by_ : Z) (buf : list Z) :
  0 <= ch < 3 -> length buf = 768%nat -> (64 <= length dst)%nat ->
  exists buf', putChroma ch dst bx by_ buf = Ok buf'
    /\ length buf' = length buf
    /\ (forall y x, 0 <= y < 16 -> 0 <= x < 16 ->
          buf' !! Z.to_nat ((y * 16 + x) * 3 + ch)
          = dst !! Z.to_nat (y / 2 * 8 + x / 2))
    /\ (forall y x c, 0 <= y < 16 -> 0 <= x < 16 -> 0 <= c < 3 -> c <> ch ->
          buf' !! Z.to_nat ((y * 16 + x) * 3 + c)
          = buf !! Z.to_nat ((y * 16 + x) * 3 + c)).
Proof. exact (putChroma_cell ch dst bx by_ buf). Qed.

Lemma putChroma_upsamples_witness :
  0 <= 1 < 3 /\ length (replicate 768 0) = 768%nat
  /\ (64 <= length (seqZ 0 64))%nat
  /\ exists buf', putChroma 1 (seqZ 0 64) 5 3 (replicate 768 0) = Ok buf'
       /\ buf' !! Z.to_nat ((7 * 16 + 9) * 3 + 1) = Some 28.
Proof.
  assert (H1 : length (replicate 768 0) = 768%nat) by reflexivity.
  assert (H2 : (64 <= length (seqZ 0 64))%nat) by (vm_compute; lia).
  split; [lia|]. split; [exact H1|]. split; [exact H2|].
  destruct (putChroma_upsamples 1 (seqZ 0 64) 5 3 (replicate 768 0)
              ltac:(lia) H1 H2) as (buf' & Hrun & _ & Hpix & _).
  exists buf'. split; [exact Hrun|].
  rewrite (Hpix 7 9) by lia. reflexivity.
Defined.

Lemma putLuma_cell (dst : list Z) (bx by_ qx qy : Z) (buf : list Z) :
  0 <= bx -> 0 <= by_ -> bx mod 2 = qx -> by_ mod 2 = qy ->
  length buf = 768%nat -> (64 <= length dst)%nat ->
  exists buf', putLuma dst bx by_ buf = Ok buf'
    /\ length buf' = length buf
    /\ (forall cy cx, 0 <= cy < 8 -> 0 <= cx < 8 ->
          buf' !! Z.to_nat (((cy + 8 * qy) * 16 + (cx + 8 * qx)) * 3 + 0)
          = dst !! Z.to_nat (cy * 8 + cx))
    /\ (forall y x c, 0 <= y < 16 -> 0 <= x < 16 -> 0 <= c < 3 ->
          c <> 0 \/ x / 8 <> qx \/ y / 8 <> qy ->
          buf' !! Z.to_nat ((y * 16 + x) * 3 + c)
          = buf !! Z.to_nat ((y * 16 + x) * 3 + c)).
Proof.
  intros Hbx Hby Ex Ey Hbuf Hdst. rewrite putLuma_scatter, !rem_8 by assumption.
  pose proof (Z.mod_pos_bound bx 2 ltac:(lia)) as Hqx.
  pose proof (Z.mod_pos_bound by_ 2 ltac:(lia)) as Hqy.
  rewrite Ex in *. rewrite Ey in *.
  assert (Hrange : forallb (fun qy => forallb (fun qx =>
            forallb (fun w => (0 <=? w.1) && (w.1 <? 768) && (0 <=? w.2) && (w.2 <? 64))
                    (lumaWrites (8 * qx) (8 * qy))) (seqZ 0 2)) (seqZ 0 2) = true)
    by (vm_compute; reflexivity).
  assert (Hnd : forallb (fun qy => forallb (fun qx =>
            bool_decide (NoDup (lumaWrites (8 * qx) (8 * qy)).*1))
            (seqZ 0 2)) (seqZ 0 2) = true)
    by (vm_compute; reflexivity).
  assert (Hin : forallb (fun qy => forallb (fun qx =>
            forallb (fun cy => forallb (fun cx =>
              bool_decide ((((cy + 8 * qy) * 16 + (cx + 8 * qx)) * 3 + 0, cy * 8 + cx)
                           ∈ lumaWrites (8 * qx) (8 * qy)))
            (seqZ 0 8)) (seqZ 0 8)) (seqZ 0 2)) (seqZ 0 2) = true)
    by (vm_compute; reflexivity).
  assert (Hout : forallb (fun qy => forallb (fun qx =>
            forallb (fun y => forallb (fun x => forallb (fun c =>
              ((c =? 0) && (x / 8 =? qx) && (y / 8 =? qy))
              || bool_decide ((y * 16 + x) * 3 + c
                              ∉ (lumaWrites (8 * qx) (8 * qy)).*1))
            (seqZ 0 3)) (seqZ 0 16)) (seqZ 0 16)) (seqZ 0 2)) (seqZ 0 2) = true)
    by (vm_compute; reflexivity).
  apply (forallb_seqZ _ 0 2 qy) in Hrange; [|lia].
  apply (forallb_seqZ _ 0 2 qx) in Hrange; [|lia].
  apply (forallb_seqZ _ 0 2 qy) in Hnd; [|lia].
  apply (forallb_seqZ _ 0 2 qx) in Hnd; [|lia].
  apply (forallb_seqZ _ 0 2 qy) in Hin; [|lia].
  apply (forallb_seqZ _ 0 2 qx) in Hin; [|lia].
  apply (forallb_seqZ _ 0 2 qy) in Hout; [|lia].
  apply (forallb_seqZ _ 0 2 qx) in Hout; [|lia].
  apply bool_decide_eq_true_1 in Hnd.
  destruct (scatter_spec dst (lumaWrites (8 * qx) (8 * qy)) buf
              (writes_in_range _ _ _ Hrange Hbuf Hdst) Hnd)
    as (buf' & Hrun & Hlen & Hw & Hother).
  exists buf'. split; [exact Hrun|]. split; [exact Hlen|]. split.
  - intros cy cx Hcy Hcx.
    apply (forallb_seqZ _ 0 8 cy) in Hin; [|lia].
    apply (forallb_seqZ _ 0 8 cx) in Hin; [|lia].
    apply bool_decide_eq_true_1 in Hin. exact (Hw _ Hin).
  - intros y x c Hy Hx Hc Hne.
    apply (forallb_seqZ _ 0 16 y) in Hout; [|lia].
    apply (forallb_seqZ _ 0 16 x) in Hout; [|lia].
    apply (forallb_seqZ _ 0 3 c) in Hout; [|lia].
    apply orb_prop in Hout as [Hout|Hout].
    + apply andb_prop in Hout as [Hout H3]. apply andb_prop in Hout as [H1 H2].
      apply Z.eqb_eq in H1, H2, H3. lia.
    + apply bool_decide_eq_true_1 in Hout.
      apply Hother. rewrite Z2Nat.id by lia. exact Hout.
Qed.

(** X3: a luma block goes to the quadrant of the cell that the parities
    of its block coordinates name, sample (cx, cy) to pixel
    (cx + 8*(bx mod 2), cy + 8*(by mod 2)), in channel 0; the other
    quadrants and the other channels of the cell are left as they are. *)
Theorem putLuma_quadrant (dst : list Z) (bx by_ : Z) (buf : list Z) :
  0 <= bx -> 0 <= by_ -> length buf = 768%nat -> (64 <= length dst)%nat ->
  exists buf', putLuma dst bx by_ buf = Ok buf'
    /\ length buf' = length buf
    /\ (forall cy cx, 0 <= cy < 8 -> 0 <= cx < 8 ->
          buf' !! Z.to_nat (((cy + 8 * (by_ mod 2)) * 16
                             + (cx + 8 * (bx mod 2))) * 3 + 0)
          = dst !! Z.to_nat (cy * 8 + cx))
    /\ (forall y x c, 0 <= y < 16 -> 0 <= x < 16 -> 0 <= c < 3 ->
          c <> 0 \/ x / 8 <> bx mod 2 \/ y / 8 <> by_ mod 2 ->
          buf' !! Z.to_nat ((y * 16 + x) * 3 + c)
          = buf !! Z.to_nat ((y * 16 + x) * 3 + c)).
Proof.
  intros Hbx Hby. exact (putLuma_cell dst bx by_ _ _ buf Hbx Hby eq_refl eq_refl).
Qed.

Lemma putLuma_quadrant_witness :
  0 <= 3 /\ 0 <= 2 /\ length (replicate 768 0) = 768%nat
  /\ (64 <= length (seqZ 0 64))%nat
  /\ exists buf', putLuma (seqZ 0 64) 3 2 (replicate 768 0) = Ok buf'
       /\ buf' !! Z.to_nat (((1 + 8 * (2 mod 2)) * 16 + (2 + 8 * (3 mod 2))) * 3 + 0)
          = Some 10.
Proof.
  assert (H1 : length (replicate 768 0) = 768%nat) by reflexivity.
  assert (H2 : (64 <= length (seqZ 0 64))%nat) by (vm_compute; lia).
  split; [lia|]. split; [lia|]. split; [exact H1|]. split; [exact H2|].
  destruct (putLuma_quadrant (seqZ 0 64) 3 2 (replicate 768 0)
              ltac:(lia) ltac:(lia) H1 H2) as (buf' & Hrun & _ & Hpix & _).
  exists buf'. split; [exact Hrun|].
  rewrite (Hpix 1 2) by lia. reflexivity.
Defined.


(** ** The six blocks of an MCU and the tile *)

Section Cell.
Context `{P : Primitives}.

Lemma convertCell_total (sos cb : list Z) :
  length sos = 768%nat -> (256 <= length cb)%nat ->
  exists cb', convertCell sos cb = Ok cb'
    /\ length cb' = length cb
    /\ forall i, 0 <= i < 256 ->
         exists v, pixelAt sos i = Ok v /\ cb' !! Z.to_nat i = Some v.
Proof.
  intros Hsos Hcb. rewrite convertCell_eq. change (16 * 16) with (Z.of_nat 256).
  destruct (fill_loop_total (pixelAt sos) 256 cb) as [cb' Hrun]; [|exact Hcb|].
  - intros i Hi. unfold pixelAt.
    destruct (lookup_lt_is_Some_2 sos (Z.to_nat (i * 3 + 0)) ltac:(lia)) as [a Ha].
    destruct (lookup_lt_is_Some_2 sos (Z.to_nat (i * 3 + 1)) ltac:(lia)) as [b Hb].
    destruct (lookup_lt_is_Some_2 sos (Z.to_nat (i * 3 + 2)) ltac:(lia)) as [c Hc].
    rewrite (index_lookup sos (i * 3 + 0) a ltac:(lia) Ha). simpl.
    rewrite (index_lookup sos (i * 3 + 1) b ltac:(lia) Hb). simpl.
    rewrite (index_lookup sos (i * 3 + 2) c ltac:(lia) Hc). simpl.
    destruct (YCbCrToRGB a b c) as [[r g] bl]. eexists. reflexivity.
  - exists cb'. split; [exact Hrun|].
    apply fill_loop in Hrun as [Hlen Hfill]. split; [exact Hlen|]. exact Hfill.
Qed.

Lemma assemble_luma (dst : list Z) (bx by_ : Z) (d : decoder) (buf : list Z) :
  putLuma dst bx by_ (processSOSBuf d) = Ok buf ->
  assemble 0 dst bx by_ d = Ok (setSOSBuf buf d).
Proof. intros H. unfold assemble. simpl. rewrite H. reflexivity. Qed.

Lemma assemble_second (dst : list Z) (bx by_ : Z) (d : decoder) (buf : list Z) :
  putChroma 1 dst bx by_ (processSOSBuf d) = Ok buf ->
  assemble 1 dst bx by_ d = Ok (setSOSBuf buf d).
Proof. intros H. unfold assemble. simpl. rewrite H. reflexivity. Qed.

Lemma assemble_third_total (dst : list Z) (bx by_ : Z) (d : decoder) (buf : list Z) :
  putChroma 2 dst bx by_ (processSOSBuf d) = Ok buf ->
  length buf = 768%nat -> (256 <= length (callbackBuf d))%nat ->
  exists cb,
    assemble 2 dst bx by_ d
    = Ok (setCallback cb (emitted d ++ [cellTile (take 256 cb) bx by_ d])
            (setSOSBuf buf d))
    /\ length (take 256 cb) = 256%nat
    /\ forall i, 0 <= i < 256 ->
         exists v, pixelAt buf i = Ok v /\ take 256 cb !! Z.to_nat i = Some v.
Proof.
  intros Hput Hbuf Hcb.
  destruct (convertCell_total buf (callbackBuf d) Hbuf Hcb) as (cb & Hconv & Hlen & Hpix).
  exists cb. split; [|split].
  - unfold assemble. simpl. rewrite Hput. simpl. rewrite Hconv. simpl.
    destruct (Z.ltb_spec (Z.of_nat (length cb)) (8 * 8 * 4)) as [Hlt|_]; [lia|].
    reflexivity.
  - rewrite length_take. lia.
  - intros i Hi. destruct (Hpix i Hi) as (v & Hv & Hl).
    exists v. split; [exact Hv|].
    rewrite lookup_take_lt by lia. exact Hl.
Qed.

Lemma half_cell (y : Z) :
  0 <= y < 16 ->
  ((y <? 8) = true /\ y / 8 = 0 /\ y mod 8 = y /\ y < 8)
  \/ ((y <? 8) = false /\ y / 8 = 1 /\ y mod 8 = y - 8 /\ 8 <= y).
Proof.
  intros Hy. destruct (Z.ltb_spec y 8) as [H|H]; [left|right].
  - split; [reflexivity|]. split; [apply Z.div_small; lia|].
    split; [apply Z.mod_small; lia | exact H].
  - split; [reflexivity|]. split; [|split; [|exact H]].
    + symmetry. apply (Z.div_unique _ _ _ (y - 8)); lia.
    + symmetry. apply (Z.mod_unique _ _ 1); lia.
Qed.

Lemma even_mod (z : Z) : (2 * z) mod 2 = 0.
Proof. symmetry. apply (Z.mod_unique _ _ z); lia. Qed.

Lemma odd_mod (z : Z) : (2 * z + 1) mod 2 = 1.
Proof. symmetry. apply (Z.mod_unique _ _ z); lia. Qed.

Lemma pixelAt_lookup (sos : list Z) (k yv cbv crv : Z) :
  0 <= k ->
  sos !! Z.to_nat (k * 3 + 0) = Some yv ->
  sos !! Z.to_nat (k * 3 + 1) = Some cbv ->
  sos !! Z.to_nat (k * 3 + 2) = Some crv ->
  pixelAt sos k = Ok (let '(r, g, b) := YCbCrToRGB yv cbv crv in
                      rgb565 (u8 r) (u8 g) (u8 b)).
Proof.
  intros Hk H0 H1 H2. unfold pixelAt.
  rewrite (index_lookup sos (k * 3 + 0) yv ltac:(lia) H0). simpl.
  rewrite (index_lookup sos (k * 3 + 1) cbv ltac:(lia) H1). simpl.
  rewrite (index_lookup sos (k * 3 + 2) crv ltac:(lia) H2). simpl.
  destruct (YCbCrToRGB yv cbv crv) as [[r g] b]. reflexivity.
Qed.

Lemma mcu_cell_pixels (y00 y10 y01 y11 cb cr : list Z) (mx my : Z) (d : decoder) :
  0 <= mx -> 0 <= my ->
  length (processSOSBuf d) = 768%nat -> (256 <= length (callbackBuf d))%nat ->
  (64 <= length y00)%nat -> (64 <= length y10)%nat ->
  (64 <= length y01)%nat -> (64 <= length y11)%nat ->
  (64 <= length cb)%nat -> (64 <= length cr)%nat ->
  exists d' pix,
    (let* d := assemble 0 y00 (2 * mx) (2 * my) d in
     let* d := assemble 0 y10 (2 * mx + 1) (2 * my) d in
     let* d := assemble 0 y01 (2 * mx) (2 * my + 1) d in
     let* d := assemble 0 y11 (2 * mx + 1) (2 * my + 1) d in
     let* d := assemble 1 cb mx my d in
     assemble 2 cr mx my d) = Ok d'
    /\ emitted d' = emitted d ++ [cellTile pix mx my d]
    /\ length pix = 256%nat
    /\ forall y x, 0 <= y < 16 -> 0 <= x < 16 ->
         exists yv cbv crv,
           (if y <? 8 then (if x <? 8 then y00 else y10)
            else (if x <? 8 then y01 else y11))
             !! Z.to_nat (y mod 8 * 8 + x mod 8) = Some yv
           /\ cb !! Z.to_nat (y / 2 * 8 + x / 2) = Some cbv
           /\ cr !! Z.to_nat (y / 2 * 8 + x / 2) = Some crv
           /\ pix !! Z.to_nat (y * 16 + x)
              = Some (let '(r, g, b) := YCbCrToRGB yv cbv crv in
                      rgb565 (u8 r) (u8 g) (u8 b)).
Proof.
  intros Hmx Hmy Hsos Hcbuf L00 L10 L01 L11 Lcb Lcr.
  destruct (putLuma_cell y00 (2 * mx) (2 * my) 0 0 (processSOSBuf d)
              ltac:(lia) ltac:(lia) (even_mod mx) (even_mod my) Hsos L00)
    as (b1 & R1 & N1 & I1 & O1).
  assert (S1 : length b1 = 768%nat) by lia.
  destruct (putLuma_cell y10 (2 * mx + 1) (2 * my) 1 0 b1
              ltac:(lia) ltac:(lia) (odd_mod mx) (even_mod my) S1 L10)
    as (b2 & R2 & N2 & I2 & O2).
  assert (S2 : length b2 = 768%nat) by lia.
  destruct (putLuma_cell y01 (2 * mx) (2 * my + 1) 0 1 b2
              ltac:(lia) ltac:(lia) (even_mod mx) (odd_mod my) S2 L01)
    as (b3 & R3 & N3 & I3 & O3).
  assert (S3 : length b3 = 768%nat) by lia.
  destruct (putLuma_cell y11 (2 * mx + 1) (2 * my + 1) 1 1 b3
              ltac:(lia) ltac:(lia) (odd_mod mx) (odd_mod my) S3 L11)
    as (b4 & R4 & N4 & I4 & O4).
  assert (S4 : length b4 = 768%nat) by lia.
  destruct (putChroma_cell 1 cb mx my b4 ltac:(lia) S4 Lcb)
    as (b5 & R5 & N5 & I5 & O5).
  assert (S5 : length b5 = 768%nat) by lia.
  destruct (putChroma_cell 2 cr mx my b5 ltac:(lia) S5 Lcr)
    as (b6 & R6 & N6 & I6 & O6).
  assert (S6 : length b6 = 768%nat) by lia.
  set (d1 := setSOSBuf b1 d).
  set (d2 := setSOSBuf b2 d1).
  set (d3 := setSOSBuf b3 d2).
  set (d4 := setSOSBuf b4 d3).
  set (d5 := setSOSBuf b5 d4).
  destruct (assemble_third_total cr mx my d5 b6 R6 S6 Hcbuf)
    as (cbuf & Hasm & Hlen & Hpix).
  eexists. exists (take 256 cbuf).
  split; [|split; [|split]].
  - rewrite (assemble_luma y00 _ _ d b1 R1). cbn [bind]. fold d1.
    rewrite (assemble_luma y10 _ _ d1 b2 R2). cbn [bind]. fold d2.
    rewrite (assemble_luma y01 _ _ d2 b3 R3). cbn [bind]. fold d3.
    rewrite (assemble_luma y11 _ _ d3 b4 R4). cbn [bind]. fold d4.
    rewrite (assemble_second cb _ _ d4 b5 R5). cbn [bind]. fold d5.
    exact Hasm.
  - reflexivity.
  - exact Hlen.
  - intros y x Hy Hx.
    assert (Hc0 : b6 !! Z.to_nat ((y * 16 + x) * 3 + 0)
                  = b4 !! Z.to_nat ((y * 16 + x) * 3 + 0)).
    { rewrite (O6 y x 0) by lia. apply O5; lia. }
    assert (Hc1 : b6 !! Z.to_nat ((y * 16 + x) * 3 + 1)
                  = cb !! Z.to_nat (y / 2 * 8 + x / 2)).
    { rewrite (O6 y x 1) by lia. apply I5; lia. }
    assert (Hc2 : b6 !! Z.to_nat ((y * 16 + x) * 3 + 2)
                  = cr !! Z.to_nat (y / 2 * 8 + x / 2)).
    { apply I6; lia. }
    assert (Hh : 0 <= y / 2 * 8 + x / 2 < 64).
    { assert (0 <= y / 2 < 8)
        by (split; [apply Z.div_pos; lia | apply Z.div_lt_upper_bound; lia]).
      assert (0 <= x / 2 < 8)
        by (split; [apply Z.div_pos; lia | apply Z.div_lt_upper_bound; lia]).
      lia. }
    destruct (lookup_lt_is_Some_2 cb (Z.to_nat (y / 2 * 8 + x / 2)) ltac:(lia))
      as [cbv Hcbv].
    destruct (lookup_lt_is_Some_2 cr (Z.to_nat (y / 2 * 8 + x / 2)) ltac:(lia))
      as [crv Hcrv].
    assert (Hy0 : exists yv,
              (if y <? 8 then (if x <? 8 then y00 else y10)
               else (if x <? 8 then y01 else y11))
                !! Z.to_nat (y mod 8 * 8 + x mod 8) = Some yv
              /\ b4 !! Z.to_nat ((y * 16 + x) * 3 + 0) = Some yv).
    { destruct (half_cell y Hy) as [(-> & Hyq & Hym & Hyh)|(-> & Hyq & Hym & Hyh)];
        destruct (half_cell x Hx) as [(-> & Hxq & Hxm & Hxh)|(-> & Hxq & Hxm & Hxh)];
        rewrite Hym, Hxm.
      - destruct (lookup_lt_is_Some_2 y00 (Z.to_nat (y * 8 + x)) ltac:(lia))
          as [yv Hyv].
        exists yv. split; [exact Hyv|].
        rewrite (O4 y x 0) by lia. rewrite (O3 y x 0) by lia.
        rewrite (O2 y x 0) by lia. rewrite <- Hyv, <- (I1 y x) by lia.
        f_equal. lia.
      - destruct (lookup_lt_is_Some_2 y10 (Z.to_nat (y * 8 + (x - 8))) ltac:(lia))
          as [yv Hyv].
        exists yv. split; [exact Hyv|].
        rewrite (O4 y x 0) by lia. rewrite (O3 y x 0) by lia.
        rewrite <- Hyv, <- (I2 y (x - 8)) by lia.
        f_equal. lia.
      - destruct (lookup_lt_is_Some_2 y01 (Z.to_nat ((y - 8) * 8 + x)) ltac:(lia))
          as [yv Hyv].
        exists yv. split; [exact Hyv|].
        rewrite (O4 y x 0) by lia.
        rewrite <- Hyv, <- (I3 (y - 8) x) by lia.
        f_equal. lia.
      - destruct (lookup_lt_is_Some_2 y11 (Z.to_nat ((y - 8) * 8 + (x - 8)))
                    ltac:(lia)) as [yv Hyv].
        exists yv. split; [exact Hyv|].
        rewrite <- Hyv, <- (I4 (y - 8) (x - 8)) by lia.
        f_equal. lia. }
    destruct Hy0 as (yv & Hyv & Hb4).
    exists yv, cbv, crv.
    split; [exact Hyv|]. split; [exact Hcbv|]. split; [exact Hcrv|].
    destruct (Hpix (y * 16 + x) ltac:(lia)) as (v & Hv & Hl).
    rewrite Hl. f_equal.
    rewrite (pixelAt_lookup b6 (y * 16 + x) yv cbv crv) in Hv.
    + injection Hv as <-. reflexivity.
    + lia.
    + rewrite Hc0. exact Hb4.
    + rewrite Hc1. exact Hcbv.
    + rewrite Hc2. exact Hcrv.
Qed.

(** X4: the six blocks of an MCU of a 4:2:0 baseline image, handed over
    in the order of the scan (four luma blocks, Cb, Cr), end in exactly
    one call of the sink, for the cell of the MCU, with 256 pixels: pixel
    (x, y) is the 5-6-5 packing of the colour conversion of the luma
    sample (x mod 8, y mod 8) of the luma block of its quadrant and of the
    Cb and Cr samples (x/2, y/2). *)
Theorem mcu_tile (y00 y10 y01 y11 cb cr : list Z) (mx my : Z) (d : decoder) :
  0 <= mx -> 0 <= my ->
  length (processSOSBuf d) = 768%nat -> (256 <= length (callbackBuf d))%nat ->
  (64 <= length y00)%nat -> (64 <= length y10)%nat ->
  (64 <= length y01)%nat -> (64 <= length y11)%nat ->
  (64 <= length cb)%nat -> (64 <= length cr)%nat ->
  exists d' pix,
    (let* d := assemble 0 y00 (2 * mx) (2 * my) d in
     let* d := assemble 0 y10 (2 * mx + 1) (2 * my) d in
     let* d := assemble 0 y01 (2 * mx) (2 * my + 1) d in
     let* d := assemble 0 y11 (2 * mx + 1) (2 * my + 1) d in
     let* d := assemble 1 cb mx my d in
     assemble 2 cr mx my d) = Ok d'
    /\ emitted d' = emitted d ++ [cellTile pix mx my d]
    /\ length pix = 256%nat
    /\ forall y x, 0 <= y < 16 -> 0 <= x < 16 ->
         exists yv cbv crv,
           (if y <? 8 then (if x <? 8 then y00 else y10)
            else (if x <? 8 then y01 else y11))
             !! Z.to_nat (y mod 8 * 8 + x mod 8) = Some yv
           /\ cb !! Z.to_nat (y / 2 * 8 + x / 2) = Some cbv
           /\ cr !! Z.to_nat (y / 2 * 8 + x / 2) = Some crv
           /\ pix !! Z.to_nat (y * 16 + x)
              = Some (let '(r, g, b) := YCbCrToRGB yv cbv crv in
                      rgb565 (u8 r) (u8 g) (u8 b)).
Proof. exact (mcu_cell_pixels y00 y10 y01 y11 cb cr mx my d). Qed.

End Cell.

Lemma mcu_tile_witness :
  0 <= 1 /\ 0 <= 0
  /\ length (processSOSBuf dDC) = 768%nat
  /\ (256 <= length (callbackBuf dDC))%nat
  /\ (64 <= length (replicate 64 200))%nat
  /\ (64 <= length (replicate 64 100))%nat
  /\ exists d' pix,
       (let* d := assemble 0 (replicate 64 200) (2 * 1) (2 * 0) dDC in
        let* d := assemble 0 (replicate 64 200) (2 * 1 + 1) (2 * 0) d in
        let* d := assemble 0 (replicate 64 200) (2 * 1) (2 * 0 + 1) d in
        let* d := assemble 0 (replicate 64 200) (2 * 1 + 1) (2 * 0 + 1) d in
        let* d := assemble 1 (replicate 64 100) 1 0 d in
        assemble 2 (replicate 64 100) 1 0 d) = Ok d'
       /\ emitted d' = emitted dDC ++ [cellTile pix 1 0 dDC].
Proof.
  assert (H1 : length (processSOSBuf dDC) = 768%nat) by reflexivity.
  assert (H2 : (256 <= length (callbackBuf dDC))%nat) by (vm_compute; lia).
  assert (H3 : (64 <= length (replicate 64 200))%nat) by (vm_compute; lia).
  assert (H4 : (64 <= length (replicate 64 100))%nat) by (vm_compute; lia).
  split; [lia|]. split; [lia|]. split; [exact H1|]. split; [exact H2|].
  split; [exact H3|]. split; [exact H4|].
  destruct (@mcu_tile Scripted (replicate 64 200) (replicate 64 200)
              (replicate 64 200) (replicate 64 200) (replicate 64 100)
              (replicate 64 100) 1 0 dDC ltac:(lia) ltac:(lia) H1 H2 H3 H3 H3 H3 H4 H4)
    as (d' & pix & Hrun & Hem & _).
  exists d', pix. split; [exact Hrun | exact Hem].
Defined.


(** ** The scan header, entry by entry *)

Section HeaderEntries.
Context `{P : Primitives}.

Lemma find_last (cs : Z) (l : list component) :
  forall (a : Z) (m : nat) (acc : Z),
  let r := fold_left (fun compIndex (jc : Z * component) =>
                        if cs =? comp_c jc.2 then jc.1 else compIndex)
                     (zip (seqZ a (Z.of_nat m)) l) acc in
  (r = acc /\ forall (i : nat) cmp, (i < m)%nat -> l !! i = Some cmp ->
                comp_c cmp <> cs)
  \/ (exists (i : nat) cmp,
        r = a + Z.of_nat i /\ (i < m)%nat /\ l !! i = Some cmp /\ comp_c cmp = cs
        /\ forall (i' : nat) cmp', (i < i')%nat -> (i' < m)%nat ->
             l !! i' = Some cmp' -> comp_c cmp' <> cs).
Proof.
  induction l as [|c l IH]; intros a m acc.
  - rewrite zip_with_nil_r. simpl. left. split; [reflexivity|].
    intros i cmp _ H. rewrite lookup_nil in H. discriminate.
  - destruct m as [|m].
    + simpl. left. split; [reflexivity|]. intros i cmp Hi. lia.
    + rewrite seqZ_cons by lia.
      replace (Z.pred (Z.of_nat (S m))) with (Z.of_nat m) by lia.
      cbn [zip_with fold_left]. cbn [fst snd].
      specialize (IH (Z.succ a) m (if cs =? comp_c c then a else acc)).
      cbv zeta in IH.
      destruct IH as [[Hr Hno]|(i & cmp & Hr & Hi & Hl & Hc & Hlast)].
      * destruct (Z.eqb_spec cs (comp_c c)) as [E|E].
        -- right. exists 0%nat, c. rewrite Hr.
           split; [lia|]. split; [lia|]. split; [reflexivity|].
           split; [congruence|].
           intros [|i'] cmp' H1 H2 H3; [lia|]. simpl in H3.
           apply (Hno i'); [lia | exact H3].
        -- left. split; [exact Hr|].
           intros [|i] cmp Hi Hl; simpl in Hl.
           ++ injection Hl as <-. congruence.
           ++ apply (Hno i); [lia | exact Hl].
      * right. exists (S i), cmp. rewrite Hr.
        split; [lia|]. split; [lia|]. split; [exact Hl|]. split; [exact Hc|].
        intros [|i'] cmp' H1 H2 H3; [lia|]. simpl in H3.
        apply (Hlast i'); [lia | lia | exact H3].
Qed.

Lemma findComponent_spec (d : decoder) (cs : Z) :
  (findComponent d cs = -1
   /\ forall j cmp, 0 <= j < d_nComp d -> d_comp d !! Z.to_nat j = Some cmp ->
        comp_c cmp <> cs)
  \/ (0 <= findComponent d cs < d_nComp d
      /\ exists cmp, d_comp d !! Z.to_nat (findComponent d cs) = Some cmp
           /\ comp_c cmp = cs
           /\ forall j cmp', findComponent d cs < j < d_nComp d ->
                d_comp d !! Z.to_nat j = Some cmp' -> comp_c cmp' <> cs).
Proof.
  unfold findComponent.
  assert (Hseq : seqZ 0 (d_nComp d) = seqZ 0 (Z.of_nat (Z.to_nat (d_nComp d)))).
  { destruct (Z.le_gt_cases 0 (d_nComp d)).
    - rewrite Z2Nat.id by lia. reflexivity.
    - rewrite seqZ_nil by lia. replace (Z.to_nat (d_nComp d)) with 0%nat by lia.
      reflexivity. }
  rewrite Hseq.
  destruct (find_last cs (take (Z.to_nat (d_nComp d)) (d_comp d)) 0
              (Z.to_nat (d_nComp d)) (-1))
    as [[Hr Hno]|(i & cmp & Hr & Hi & Hl & Hc & Hlast)].
  - left. split; [exact Hr|]. intros j cmp Hj Hl.
    apply (Hno (Z.to_nat j)); [lia|].
    rewrite lookup_take_lt by lia. exact Hl.
  - right. rewrite Hr. rewrite lookup_take_lt in Hl by lia.
    split; [lia|]. exists cmp.
    replace (Z.to_nat (0 + Z.of_nat i)) with i by lia.
    split; [exact Hl|]. split; [exact Hc|].
    intros j cmp' Hj Hl'. apply (Hlast (Z.to_nat j)); [lia | lia |].
    rewrite lookup_take_lt by lia. exact Hl'.
Qed.

(** X5: the component selector of a scan is looked up among the
    components of the frame: the search gives -1 exactly when no
    component of the frame has the identifier, and otherwise the index of
    the last component that has it. *)
Theorem findComponent_last (d : decoder) (cs : Z) :
  (findComponent d cs = -1
   <-> forall j cmp, 0 <= j < d_nComp d -> d_comp d !! Z.to_nat j = Some cmp ->
         comp_c cmp <> cs)
  /\ (findComponent d cs <> -1 ->
      0 <= findComponent d cs < d_nComp d
      /\ exists cmp, d_comp d !! Z.to_nat (findComponent d cs) = Some cmp
           /\ comp_c cmp = cs
           /\ forall j cmp', findComponent d cs < j < d_nComp d ->
                d_comp d !! Z.to_nat j = Some cmp' -> comp_c cmp' <> cs).
Proof.
  destruct (findComponent_spec d cs) as [[Hr Hno]|(Hr & cmp & Hl & Hc & Hlast)].
  - split; [split; [intros _; exact Hno | intros _; exact Hr]|].
    intros H. contradiction.
  - split.
    + split; [intros H; lia|].
      intros Hno. exfalso. apply (Hno (findComponent d cs) cmp Hr Hl Hc).
    + intros _. split; [exact Hr|]. exists cmp. auto.
Qed.

Lemma u8_small (z : Z) : 0 <= z < 256 -> u8 z = z.
Proof. intros H. unfold u8. apply Z.mod_small. lia. Qed.

Lemma scanComponent_step (d : decoder) i scan totalHV scan' totalHV' :
  scanComponent d i (scan, totalHV) = Ok (scan', totalHV') ->
  exists e cmp,
    scan' = scan ++ [e]
    /\ 0 <= scan_compIndex e < d_nComp d /\ d_nComp d <= maxComponents
    /\ d_comp d !! Z.to_nat (scan_compIndex e) = Some cmp
    /\ comp_c cmp = tmpAt d (1 + 2 * i)
    /\ (scan_compIndex e ∉ (scan_compIndex <$> scan))
    /\ scan_td e = Z.shiftr (tmpAt d (2 + 2 * i)) 4
    /\ scan_ta e = Z.land (tmpAt d (2 + 2 * i)) 0x0f
    /\ scan_td e <= maxTh /\ scan_ta e <= maxTh
    /\ (d_baseline d = true -> scan_td e <= 1 /\ scan_ta e <= 1).
Proof.
  unfold scanComponent. intros H.
  destruct ((d_nComp d <? 0) || (maxComponents <? d_nComp d)) eqn:E1;
    [discriminate|].
  apply orb_false_iff in E1 as [E1a E1b].
  apply Z.ltb_ge in E1a, E1b.
  destruct (findComponent_spec d (tmpAt d (1 + 2 * i)))
    as [[Hr _]|(Hr & cmp & Hl & Hc & _)].
  { rewrite Hr in H. simpl in H. discriminate. }
  set (k := findComponent d (tmpAt d (1 + 2 * i))) in *.
  destruct (Z.ltb_spec k 0); [lia|].
  destruct (maxComponents <=? i); [discriminate|].
  unfold maxComponents in *.
  rewrite (u8_small k) in H by lia.
  destruct (existsb _ scan) eqn:Ex; [discriminate|].
  rewrite (index_lookup (d_comp d) k cmp ltac:(lia) Hl) in H. simpl in H.
  destruct (_ || _) eqn:Etd in H; [discriminate|].
  destruct (_ || _) eqn:Eta in H; [discriminate|].
  injection H as <- <-.
  eexists. exists cmp. split; [reflexivity|]. simpl.
  apply orb_false_iff in Etd as [Etd1 Etd2], Eta as [Eta1 Eta2].
  rewrite Z.gtb_ltb in Etd1, Eta1. apply Z.ltb_ge in Etd1, Eta1.
  split; [lia|]. split; [lia|]. split; [exact Hl|]. split; [exact Hc|].
  split.
  { intros Hin. apply list_elem_of_fmap in Hin as (e & He & Hin).
    assert (existsb (fun e => k =? scan_compIndex e) scan = true).
    { apply existsb_exists. exists e. split; [apply list_elem_of_In, Hin|].
      apply Z.eqb_eq. exact He. }
    congruence. }
  split; [reflexivity|]. split; [reflexivity|].
  split; [exact Etd1|]. split; [exact Eta1|].
  intros Hbase. rewrite Hbase in Etd2, Eta2. simpl in Etd2, Eta2.
  rewrite Z.gtb_ltb in Etd2, Eta2. apply Z.ltb_ge in Etd2, Eta2. lia.
Qed.

Lemma tmpAt_read (n : Z) (d d1 : decoder) (k : Z) :
  d_readFull n d = Ok d1 -> 0 <= k < n -> 0 <= tmpAt d1 k < 256.
Proof.
  unfold d_readFull. intros H Hk. inv_bind H. destruct a as [bs d'].
  injection H as <-. unfold tmpAt, fillTmp. simpl.
  rewrite nth_lookup, lookup_app_l
    by (rewrite length_fmap, length_resize; lia).
  rewrite list_lookup_fmap.
  destruct (lookup_lt_is_Some_2 (resize (Z.to_nat n) 0 bs) (Z.to_nat k))
    as [x Hx]; [rewrite length_resize; lia|].
  rewrite Hx. simpl. unfold u8. apply Z.mod_pos_bound. lia.
Qed.

Lemma scanComponents_inv (d : decoder) (m : nat) scan totalHV :
  forEach (scanComponent d) (seqZ 0 (Z.of_nat m)) ([], 0) = Ok (scan, totalHV) ->
  length scan = m
  /\ NoDup (scan_compIndex <$> scan)
  /\ (m <> 0%nat -> d_nComp d <= maxComponents)
  /\ forall (k : nat) e, scan !! k = Some e ->
       0 <= scan_compIndex e < d_nComp d
       /\ (exists cmp, d_comp d !! Z.to_nat (scan_compIndex e) = Some cmp
                       /\ comp_c cmp = tmpAt d (1 + 2 * Z.of_nat k))
       /\ scan_td e = Z.shiftr (tmpAt d (2 + 2 * Z.of_nat k)) 4
       /\ scan_ta e = Z.land (tmpAt d (2 + 2 * Z.of_nat k)) 0x0f
       /\ scan_td e <= maxTh /\ scan_ta e <= maxTh
       /\ (d_baseline d = true -> scan_td e <= 1 /\ scan_ta e <= 1).
Proof.
  intros H.
  pose proof (forEach_seqZ_ext
    (fun i (acc : list scanEntry * Z) =>
       Z.of_nat (length acc.1) = i
       /\ NoDup (scan_compIndex <$> acc.1)
       /\ (acc.1 <> [] -> d_nComp d <= maxComponents)
       /\ forall (k : nat) e, acc.1 !! k = Some e ->
            0 <= scan_compIndex e < d_nComp d
            /\ (exists cmp, d_comp d !! Z.to_nat (scan_compIndex e) = Some cmp
                            /\ comp_c cmp = tmpAt d (1 + 2 * Z.of_nat k))
            /\ scan_td e = Z.shiftr (tmpAt d (2 + 2 * Z.of_nat k)) 4
            /\ scan_ta e = Z.land (tmpAt d (2 + 2 * Z.of_nat k)) 0x0f
            /\ scan_td e <= maxTh /\ scan_ta e <= maxTh
            /\ (d_baseline d = true -> scan_td e <= 1 /\ scan_ta e <= 1))
    (scanComponent d) (scanComponent d) m 0 ([], 0)) as Hinv.
  destruct Hinv as [_ Hinv].
  - simpl. split; [reflexivity|]. split; [constructor|].
    split; [congruence|]. intros k e Hk. rewrite lookup_nil in Hk. discriminate.
  - intros i [sc t] Hi (Hlen & Hnd & Hmax & Hall). cbn [fst snd] in *.
    split; [reflexivity|]. intros [sc' t'] Hstep.
    apply scanComponent_step in Hstep
      as (e & cmp & -> & Hci & HnC & Hl & Hc & Hnew & Htd & Hta & Htd3 & Hta3 & Hb).
    cbn [fst snd]. split; [rewrite length_app; simpl; lia|].
    split.
    { rewrite fmap_app. apply NoDup_app. split; [exact Hnd|].
      split; [|apply NoDup_singleton].
      intros x Hx Hx'. simpl in Hx'. apply list_elem_of_singleton in Hx'.
      subst x. contradiction. }
    split; [intros _; exact HnC|].
    intros k e' Hk.
    apply lookup_app_Some in Hk as [Hk|[Hge Hk]]; [apply Hall, Hk|].
    apply list_lookup_singleton_Some in Hk as [Hk <-].
    assert (Hki : Z.of_nat k = i) by lia. rewrite Hki.
    split; [exact Hci|]. split; [exists cmp; split; assumption|].
    split; [exact Htd|]. split; [exact Hta|]. split; [exact Htd3|].
    split; [exact Hta3 | exact Hb].
  - specialize (Hinv (scan, totalHV) H) as (Hlen & Hnd & Hmax & Hall).
    simpl in *. split; [lia|]. split; [exact Hnd|]. split; [|exact Hall].
    intros Hm. apply Hmax. intros ->. simpl in Hlen. lia.
Qed.

Lemma scanHeader_entries n (d : decoder) nComp scan bounds d1 :
  scanHeader n d = Ok (nComp, scan, bounds, d1) ->
  1 <= nComp <= d_nComp d /\ d_nComp d <= maxComponents
  /\ n = 4 + 2 * nComp /\ Z.of_nat (length scan) = nComp
  /\ sameFrame d d1
  /\ NoDup (scan_compIndex <$> scan)
  /\ forall (k : nat) e, scan !! k = Some e ->
       0 <= scan_compIndex e < d_nComp d
       /\ (exists cmp, d_comp d !! Z.to_nat (scan_compIndex e) = Some cmp
                       /\ comp_c cmp = tmpAt d1 (1 + 2 * Z.of_nat k))
       /\ scan_td e = Z.shiftr (tmpAt d1 (2 + 2 * Z.of_nat k)) 4
       /\ scan_ta e = Z.land (tmpAt d1 (2 + 2 * Z.of_nat k)) 0x0f
       /\ 0 <= scan_td e <= maxTh /\ 0 <= scan_ta e <= maxTh
       /\ (d_baseline d = true -> scan_td e <= 1 /\ scan_ta e <= 1).
Proof.
  unfold scanHeader. intros H.
  destruct (d_nComp d =? 0); [discriminate|].
  destruct ((n <? 6) || _ || _) eqn:E; [discriminate|].
  apply orb_false_iff in E as [E _]. apply orb_false_iff in E as [E6 Emax].
  apply Z.ltb_ge in E6, Emax.
  inv_bind H. rename a into d0.
  destruct (Z.eqb_spec n (4 + 2 * tmpAt d0 0)) as [Hn|]; [|discriminate].
  simpl in H. inv_bind H. destruct a as [sc t].
  destruct (_ && _) in H; [discriminate|].
  inv_bind H. injection H as <- <- <- <-.
  pose proof (d_readFull_Ok _ _ _ Hb) as (Hframe & _).
  pose proof Hframe as (_ & _ & _ & HnC & Hbase & _ & Hcmp & _).
  assert (Hpos : 1 <= tmpAt d0 0) by lia.
  rewrite <- (Z2Nat.id (tmpAt d0 0)) in Hb0 by lia.
  apply scanComponents_inv in Hb0 as (Hlen & Hnd & Hmax & Hall).
  rewrite HnC, Hcmp, Hbase in *.
  split; [lia|]. split; [apply Hmax; lia|]. split; [exact Hn|].
  split; [lia|]. split; [exact Hframe|]. split; [exact Hnd|].
  intros k e Hk.
  assert (Hkn : Z.of_nat k < tmpAt d0 0).
  { apply lookup_lt_Some in Hk. lia. }
  destruct (Hall k e Hk) as (Hci & Hsel & Htd & Hta & Htd3 & Hta3 & Hbl).
  pose proof (tmpAt_read n d d0 (2 + 2 * Z.of_nat k) Hb ltac:(lia)) as Hbyte.
  destruct (nibbles _ Hbyte) as [Hhi Hlo].
  split; [exact Hci|]. split; [exact Hsel|]. split; [exact Htd|].
  split; [exact Hta|]. split; [rewrite Htd; lia|]. split; [rewrite Hta; lia|].
  exact Hbl.
Qed.

(** X6: a scan header that is accepted names between one and [d.nComp]
    components, each one a component of the frame whose identifier is the
    selector byte of the entry, and no component twice. *)
Theorem scan_components n (d : decoder) nComp scan bounds d1 :
  scanHeader n d = Ok (nComp, scan, bounds, d1) ->
  1 <= nComp <= d_nComp d /\ d_nComp d <= maxComponents
  /\ Z.of_nat (length scan) = nComp
  /\ NoDup (scan_compIndex <$> scan)
  /\ forall (k : nat) e, scan !! k = Some e ->
       0 <= scan_compIndex e < d_nComp d
       /\ exists cmp, d_comp d !! Z.to_nat (scan_compIndex e) = Some cmp
                      /\ comp_c cmp = tmpAt d1 (1 + 2 * Z.of_nat k).
Proof.
  intros H. apply scanHeader_entries in H
    as (Hn & Hmax & _ & Hlen & _ & Hnd & Hall).
  split; [exact Hn|]. split; [exact Hmax|]. split; [exact Hlen|].
  split; [exact Hnd|].
  intros k e Hk. destruct (Hall k e Hk) as (Hci & Hsel & _).
  split; [exact Hci | exact Hsel].
Qed.

(** X7: in a scan header that is accepted the table selectors of every
    entry are the two nibbles of its second byte, Td the high one and Ta
    the low one; both are at most 3, and at most 1 in a baseline image. *)
Theorem scan_tables n (d : decoder) nComp scan bounds d1 :
  scanHeader n d = Ok (nComp, scan, bounds, d1) ->
  forall (k : nat) e, scan !! k = Some e ->
    scan_td e = Z.shiftr (tmpAt d1 (2 + 2 * Z.of_nat k)) 4
    /\ scan_ta e = Z.land (tmpAt d1 (2 + 2 * Z.of_nat k)) 0x0f
    /\ 0 <= scan_td e <= 3 /\ 0 <= scan_ta e <= 3
    /\ (d_baseline d = true -> scan_td e <= 1 /\ scan_ta e <= 1).
Proof.
  intros H k e Hk. apply scanHeader_entries in H
    as (_ & _ & _ & _ & _ & _ & Hall).
  destruct (Hall k e Hk) as (_ & _ & Htd & Hta & Htd3 & Hta3 & Hbl).
  unfold maxTh in *. auto.
Qed.

(** X8: the spectral selection and the successive approximation of a scan
    that is accepted: 0, 63, 0, 0 in an image that is not progressive;
    in a progressive image the bytes that follow the entries, with
    0 <= zigStart <= zigEnd <= 63, a scan that starts at the DC
    coefficient holding nothing else, a scan of AC coefficients having
    one component only, and ah either 0 or al + 1. *)
Theorem scan_bounds n (d : decoder) nComp scan zigStart zigEnd ah al d1 :
  scanHeader n d = Ok (nComp, scan, (zigStart, zigEnd, ah, al), d1) ->
  0 <= zigStart <= zigEnd /\ zigEnd < blockSize
  /\ 0 <= ah < 16 /\ 0 <= al < 16 /\ (ah = 0 \/ ah = al + 1)
  /\ (d_progressive d = false ->
      zigStart = 0 /\ zigEnd = blockSize - 1 /\ ah = 0 /\ al = 0)
  /\ (d_progressive d = true ->
      zigStart = tmpAt d1 (1 + 2 * nComp) /\ zigEnd = tmpAt d1 (2 + 2 * nComp)
      /\ ah = Z.shiftr (tmpAt d1 (3 + 2 * nComp)) 4
      /\ al = Z.land (tmpAt d1 (3 + 2 * nComp)) 0x0f
      /\ (zigStart = 0 -> zigEnd = 0)
      /\ (zigStart <> 0 -> nComp = 1)).
Proof.
  intros H.
  pose proof (scanHeader_entries _ _ _ _ _ _ H) as (HnC & _ & Hn & _ & Hframe & _).
  apply scanHeader_Ok in H as (Hread & _ & _ & _ & _ & Hb).
  destruct Hframe as (_ & _ & _ & _ & _ & Hprog & _).
  unfold scanBounds in Hb. rewrite Hprog in Hb. unfold blockSize in *.
  destruct (d_progressive d).
  - pose proof (tmpAt_read n d d1 (1 + 2 * nComp) Hread ltac:(lia)) as H1.
    pose proof (tmpAt_read n d d1 (2 + 2 * nComp) Hread ltac:(lia)) as H2.
    pose proof (tmpAt_read n d d1 (3 + 2 * nComp) Hread ltac:(lia)) as H3.
    destruct (nibbles _ H3) as [Hhi Hlo].
    destruct (_ || _) eqn:E1 in Hb; [discriminate|].
    destruct (_ && _) eqn:E2 in Hb; [discriminate|].
    destruct (_ && _) eqn:E3 in Hb; [discriminate|].
    injection Hb as <- <- <- <-.
    apply orb_false_iff in E1 as [E1 E1c]. apply orb_false_iff in E1 as [E1a E1b].
    rewrite Z.gtb_ltb in E1b. apply Z.ltb_ge in E1b. apply Z.leb_gt in E1c.
    split; [lia|]. split; [lia|]. split; [lia|]. split; [lia|].
    split.
    { destruct (Z.eqb_spec (Z.shiftr (tmpAt d1 (3 + 2 * nComp)) 4) 0) as [E|E];
        [left; exact E|]. simpl in E3.
      destruct (Z.eqb_spec (Z.shiftr (tmpAt d1 (3 + 2 * nComp)) 4)
                           (Z.land (tmpAt d1 (3 + 2 * nComp)) 15 + 1)) as [E'|E'];
        [right; exact E' | discriminate]. }
    split; [discriminate|]. intros _.
    split; [reflexivity|]. split; [reflexivity|]. split; [reflexivity|].
    split; [reflexivity|]. split.
    + intros Hz. rewrite Hz in E1a. simpl in E1a.
      destruct (Z.eqb_spec (tmpAt d1 (2 + 2 * nComp)) 0); [assumption | discriminate].
    + intros Hz. destruct (Z.eqb_spec (tmpAt d1 (1 + 2 * nComp)) 0); [contradiction|].
      simpl in E2. destruct (Z.eqb_spec nComp 1); [assumption | discriminate].
  - injection Hb as <- <- <- <-.
    split; [lia|]. split; [lia|]. split; [lia|]. split; [lia|].
    split; [left; reflexivity|]. split; [auto | discriminate].
Qed.

End HeaderEntries.

Lemma scan_components_witness :
  scanHeader 10 d422v = Ok (3, scan3, (0, 63, 0, 0), readHeader 10 d422v)
  /\ 1 <= 3 <= d_nComp d422v
  /\ NoDup (scan_compIndex <$> scan3).
Proof.
  assert (H : scanHeader 10 d422v
              = Ok (3, scan3, (0, 63, 0, 0), readHeader 10 d422v))
    by (vm_compute; reflexivity).
  split; [exact H|].
  destruct (@scan_components Scripted _ _ _ _ _ _ H) as (Hn & _ & _ & Hnd & _).
  split; [exact Hn | exact Hnd].
Defined.

Lemma scan_tables_witness :
  scanHeader 10 d422v = Ok (3, scan3, (0, 63, 0, 0), readHeader 10 d422v)
  /\ scan3 !! 1%nat = Some (mkScanEntry 1 1 1)
  /\ 0 <= scan_td (mkScanEntry 1 1 1) <= 3.
Proof.
  assert (H : scanHeader 10 d422v
              = Ok (3, scan3, (0, 63, 0, 0), readHeader 10 d422v))
    by (vm_compute; reflexivity).
  assert (Hk : scan3 !! 1%nat = Some (mkScanEntry 1 1 1)) by reflexivity.
  split; [exact H|]. split; [exact Hk|].
  destruct (@scan_tables Scripted _ _ _ _ _ _ H 1%nat _ Hk) as (_ & _ & Htd & _).
  exact Htd.
Defined.

Lemma scan_bounds_witness :
  scanHeader 6 dCarry
  = Ok (1, [mkScanEntry 0 0 0], (1, 63, 0, 0), readHeader 6 dCarry)
  /\ 0 <= 1 <= 63 /\ 63 < blockSize.
Proof.
  assert (H : scanHeader 6 dCarry
              = Ok (1, [mkScanEntry 0 0 0], (1, 63, 0, 0), readHeader 6 dCarry))
    by (vm_compute; reflexivity).
  split; [exact H|].
  destruct (@scan_bounds Scripted _ _ _ _ _ _ _ _ _ H) as (Hz & He & _).
  split; [exact Hz | exact He].
Defined.


(** ** What a scan leaves alone *)

Section ScanFrame.
Context `{P : Primitives}.

(** An invariant of the blocks, of the counters and of the restart is an
    invariant of the loops of [processSOS]. *)
Lemma scanLoop_inv (sp : scanParams) (I : scanState -> Prop) :
  (forall e hi bx by_ st st', e ∈ sp_scan sp -> I st ->
     visitBlock sp e hi bx by_ st = Ok st' -> I st') ->
  (forall st n, I st -> I (setBlockCount n st)) ->
  (forall st n, I st -> I (setMcu n st)) ->
  (forall st st', I st -> restart st = Ok st' -> I st') ->
  forall st st', I st -> scanLoop sp st = Ok st' -> I st'.
Proof.
  intros Hvisit Hcount Hmcu Hrst. unfold scanLoop.
  apply forEach_invariant. intros my st st' HI.
  apply forEach_invariant; [|exact HI]. clear st st' HI.
  intros mx st st' HI H. unfold mcuBody in H. inv_bind H. rename a into st1.
  assert (HI1 : I st1).
  { revert Hb. apply forEach_invariant; [|exact HI].
    intros i s s' HIs Hc. unfold componentBody in Hc.
    inv_bind Hc. rename a into e. inv_bind Hc. rename a into cmp.
    assert (He : e ∈ sp_scan sp).
    { apply index_Ok in Hb as [_ Hb]. eapply list_elem_of_lookup_2, Hb. }
    revert Hc. apply forEach_invariant; [|exact HIs].
    intros j t t' HIt Hj. unfold blockBody in Hj.
    destruct (negb _); [eapply Hvisit; eauto|].
    destruct (_ || _); [injection Hj as <-; apply Hcount, HIt|].
    eapply Hvisit; [exact He | apply Hcount, HIt | exact Hj]. }
  unfold afterMCU in H. destruct (_ && _).
  - eapply Hrst; [|exact H]. apply Hmcu, HI1.
  - injection H as <-. apply Hmcu, HI1.
Qed.

Lemma sameImage_refl (d : decoder) : sameImage d d.
Proof. repeat split. Qed.

Lemma sameImage_trans (d1 d2 d3 : decoder) :
  sameImage d1 d2 -> sameImage d2 d3 -> sameImage d1 d3.
Proof.
  intros (A1 & A2 & A3 & A4) (B1 & B2 & B3 & B4).
  repeat split; congruence.
Qed.

Lemma engineOnly_image (d d' : decoder) : engineOnly d d' -> sameImage d d'.
Proof. intros H. rewrite H. repeat split. Qed.

Lemma d_readFull_image n (d d' : decoder) :
  d_readFull n d = Ok d' -> sameImage d d'.
Proof.
  unfold d_readFull. intros H. inv_bind H. destruct a as [bs d1].
  injection H as <-. apply withReader_Ok in Hb as (bt & r & _ & ->).
  repeat split.
Qed.

Lemma saveCoeffs_image (d : decoder) ci k (b : block) d' :
  saveCoeffs d ci k b = Ok d' -> sameImage d d'.
Proof.
  unfold saveCoeffs. intros H. inv_bind H. destruct a; [|discriminate].
  inv_bind H. inv_bind H. injection H as <-. repeat split.
Qed.

Lemma assemble_image ci dst bx by_ (d d' : decoder) :
  assemble ci dst bx by_ d = Ok d' -> sameImage d d'.
Proof.
  unfold assemble. intros H.
  destruct (ci =? 0); [inv_bind H; injection H as <-; repeat split|].
  destruct (ci =? 1); [inv_bind H; injection H as <-; repeat split|].
  destruct (ci =? 2); [|injection H as <-; repeat split].
  inv_bind H. inv_bind H. destruct (_ <? _) in H; [discriminate|].
  injection H as <-. repeat split.
Qed.

Lemma finishBlock_image sp e hi bx by_ (b : block) dc (d : decoder) st st' :
  finishBlock sp e hi bx by_ b dc d st = Ok st' ->
  sameImage d (st_d st')
  /\ (d_progressive d = false -> d_progCoeffs (st_d st') = d_progCoeffs d).
Proof.
  unfold finishBlock. intros H. destruct (d_progressive d).
  - inv_bind H. injection H as <-. simpl.
    split; [eapply saveCoeffs_image; eauto | discriminate].
  - inv_bind H. destruct a as [[dst b1] d1]. inv_bind H. injection H as <-.
    simpl. apply reconstructBlock_Ok in Hb. subst d1.
    pose proof (assemble_image _ _ _ _ _ _ Hb0) as Hi.
    apply assemble_Ok in Hb0 as (_ & Hpc & _).
    split; [|intros _; rewrite Hpc; reflexivity].
    eapply sameImage_trans; [|exact Hi]. repeat split.
Qed.

Lemma visitBlock_image sp e hi bx by_ st st' :
  visitBlock sp e hi bx by_ st = Ok st' ->
  sameImage (st_d st) (st_d st')
  /\ (d_progressive (st_d st) = false ->
      d_progCoeffs (st_d st') = d_progCoeffs (st_d st)).
Proof.
  unfold visitBlock. intros H. inv_bind H. inv_bind H.
  destruct a0 as [[b1 dc1] d1].
  apply decodeBlock_engine in Hb0 as (Heng & _).
  apply finishBlock_image in H as [Hi Hpc].
  pose proof (engineOnly_sameFrame _ _ Heng) as (_ & _ & _ & _ & _ & Hp & _).
  split; [eapply sameImage_trans; [apply engineOnly_image, Heng | exact Hi]|].
  intros Hprog. rewrite Hpc by congruence. apply engineOnly_progCoeffs, Heng.
Qed.

Lemma restart_image (st st' : scanState) :
  restart st = Ok st' -> sameImage (st_d st) (st_d st').
Proof.
  unfold restart. intros H. inv_bind H. rename a into d1.
  inv_bind H. rename a into d2.
  destruct (_ || _) in H; [discriminate|]. injection H as <-. simpl.
  apply d_readFull_image in Hb.
  assert (sameImage d1 d2).
  { destruct (_ && _); [eapply d_readFull_image; eauto|].
    injection Hb0 as <-. apply sameImage_refl. }
  eapply sameImage_trans; [exact Hb|]. eapply sameImage_trans; [eassumption|].
  repeat split.
Qed.

Lemma scanLoop_frame sp st st' :
  scanLoop sp st = Ok st' ->
  sameFrame (st_d st) (st_d st') /\ sameImage (st_d st) (st_d st')
  /\ (d_progressive (st_d st) = false ->
      d_progCoeffs (st_d st') = d_progCoeffs (st_d st)).
Proof.
  apply (scanLoop_inv sp (fun s =>
    sameFrame (st_d st) (st_d s) /\ sameImage (st_d st) (st_d s)
    /\ (d_progressive (st_d st) = false ->
        d_progCoeffs (st_d s) = d_progCoeffs (st_d st)))).
  - intros e hi bx by_ s s' _ (Hf & Hi & Hpc) Hv.
    pose proof (visitBlock_image _ _ _ _ _ _ _ Hv) as [Hi' Hpc'].
    apply visitBlock_Ok in Hv as (Hf' & _).
    split; [eapply sameFrame_trans; eauto|].
    split; [eapply sameImage_trans; eauto|].
    intros Hp. rewrite Hpc' by (destruct Hf as (_&_&_&_&_&Hq&_); congruence).
    apply Hpc, Hp.
  - intros s n H. exact H.
  - intros s n H. exact H.
  - intros s s' (Hf & Hi & Hpc) Hr.
    pose proof (restart_image _ _ Hr) as Hi'.
    apply restart_Ok in Hr as (Hf' & _ & _ & _ & _ & _ & _ & _ & Hpc' & _).
    split; [eapply sameFrame_trans; eauto|].
    split; [eapply sameImage_trans; eauto|].
    intros Hp. rewrite Hpc'. apply Hpc, Hp.
  - split; [apply sameFrame_refl|]. split; [apply sameImage_refl | reflexivity].
Qed.

Lemma scanSetup_baseline nComp scan bounds (d : decoder) sp st :
  scanSetup nComp scan bounds d = Ok (sp, st) ->
  d_progressive d = false -> d_progCoeffs (st_d st) = d_progCoeffs d.
Proof.
  unfold scanSetup. destruct bounds as [[[zs ze] ah] al]. intros H Hp.
  inv_bind H. destruct (_ || _) in H; [discriminate|].
  inv_bind H. rename a0 into d1. inv_bind H. rename a0 into d2.
  injection H as <- <-. simpl.
  assert (H1 : d_progCoeffs d1 = d_progCoeffs d /\ d_progressive d1 = false).
  { destruct (_ && _).
    - apply makeImg_Ok in Hb0 as ((Hf & _) & Hpc & _).
      destruct Hf as (_&_&_&_&_&Hq&_). split; congruence.
    - injection Hb0 as <-. auto. }
  destruct H1 as [H1 H2]. rewrite H2 in Hb1. injection Hb1 as <-. exact H1.
Qed.

(** X9: a scan reads the description of the frame and the tables and
    never writes them: the size of the image, the restart interval, the
    components, the Huffman and the quantization tables are after
    [processSOS] what they were before; in an image that is not
    progressive the stored coefficients are left alone as well. *)
Theorem scan_keeps_frame n (d d' : decoder) :
  processSOS n d = Ok d' ->
  sameFrame d d'
  /\ (d_progressive d = false -> d_progCoeffs d' = d_progCoeffs d).
Proof.
  unfold processSOS. intros H. inv_bind H. destruct a as [[[nComp scan] bounds] d1].
  inv_bind H. destruct a as [sp st0]. inv_bind H. injection H as <-.
  apply scanHeader_Ok in Hb as (Hread & _).
  apply d_readFull_Ok in Hread as (Hf1 & _ & Hpc1 & _).
  pose proof (scanSetup_baseline _ _ _ _ _ _ Hb0) as Hpc2.
  apply scanSetup_Ok in Hb0 as (Hf2 & _).
  apply scanLoop_frame in Hb1 as (Hf3 & _ & Hpc3).
  split.
  - eapply sameFrame_trans; [exact Hf1|]. eapply sameFrame_trans; eauto.
  - intros Hp.
    destruct Hf1 as (_&_&_&_&_&Hq1&_). destruct Hf2 as (_&_&_&_&_&Hq2&_).
    rewrite Hpc3, Hpc2, Hpc1 by congruence. reflexivity.
Qed.

Lemma scanLoop_no_tiles sp st st' :
  d_progressive (st_d st) = true
  \/ Forall (fun e => scan_compIndex e <> 2) (sp_scan sp) ->
  scanLoop sp st = Ok st' ->
  emitted (st_d st') = emitted (st_d st).
Proof.
  intros Hno H.
  cut (sameFrame (st_d st) (st_d st') /\ emitted (st_d st') = emitted (st_d st));
    [intros [_ He]; exact He|].
  revert H.
  apply (scanLoop_inv sp (fun s =>
    sameFrame (st_d st) (st_d s) /\ emitted (st_d s) = emitted (st_d st))).
  - intros e hi bx by_ s s' He (Hf & Hem) Hv.
    apply visitBlock_Ok in Hv as (Hf' & _ & _ & _ & _ & _ & tiles & Ht & Hg).
    split; [eapply sameFrame_trans; eauto|].
    assert (Hnil : tileOf (st_d s) (scan_compIndex e) bx by_ = []).
    { unfold tileOf. destruct Hf as (_&_&_&_&_&Hp&_). rewrite Hp.
      destruct Hno as [->|Hall]; [reflexivity|].
      rewrite Forall_forall in Hall. specialize (Hall e He).
      destruct (Z.eqb_spec (scan_compIndex e) 2); [contradiction|].
      rewrite andb_false_r. reflexivity. }
    rewrite Hnil in Hg. apply fmap_nil_inv in Hg. subst tiles.
    rewrite Ht, app_nil_r. exact Hem.
  - intros s n H. exact H.
  - intros s n H. exact H.
  - intros s s' (Hf & Hem) Hr.
    apply restart_Ok in Hr as (Hf' & _ & _ & _ & _ & _ & _ & He' & _).
    split; [eapply sameFrame_trans; eauto | congruence].
  - split; [apply sameFrame_refl | reflexivity].
Qed.

(** X10: the sink is called for blocks of the third component of an
    image that is not progressive, and for nothing else: a scan of a
    progressive image, or of an image of one or two components, calls the
    sink not once. *)
Theorem no_tiles n (d d' : decoder) :
  processSOS n d = Ok d' ->
  d_progressive d = true \/ d_nComp d <= 2 ->
  emitted d' = emitted d.
Proof.
  unfold processSOS. intros H Hno. inv_bind H.
  destruct a as [[[nComp scan] bounds] d1].
  inv_bind H. destruct a as [sp st0]. inv_bind H. injection H as <-.
  apply scanHeader_Ok in Hb as (Hread & _ & _ & _ & Hall & _).
  apply d_readFull_Ok in Hread as (Hf1 & _ & _ & He1 & _).
  apply scanSetup_Ok in Hb0
    as (Hf2 & _ & _ & He2 & _ & _ & _ & _ & _ & Hscan & _).
  apply scanLoop_no_tiles in Hb1; [congruence|].
  destruct Hno as [Hp|Hn].
  - left. destruct Hf1 as (_&_&_&_&_&Hq1&_). destruct Hf2 as (_&_&_&_&_&Hq2&_).
    congruence.
  - right. rewrite Hscan. eapply Forall_impl; [exact Hall|].
    intros e [He _]. simpl in He. lia.
Qed.





(** ** The stored coefficients of a progressive image *)

Lemma index_insert_eq {A : Type} (l : list A) (i : Z) (x : A) :
  0 <= i < Z.of_nat (length l) -> index (<[Z.to_nat i := x]> l) i = Ok x.
Proof.
  intros Hi. apply index_lookup; [lia|]. apply list_lookup_insert_eq. lia.
Qed.

Lemma index_insert_ne {A : Type} (l : list A) (i j : Z) (x : A) :
  0 <= i -> i <> j -> index (<[Z.to_nat i := x]> l) j = index l j.
Proof.
  intros Hi Hne. unfold index. destruct (j <? 0) eqn:E; [reflexivity|].
  apply Z.ltb_ge in E. rewrite list_lookup_insert_ne by lia. reflexivity.
Qed.

Lemma save_then_load (d : decoder) ci k (b : block) d' :
  saveCoeffs d ci k b = Ok d' ->
  loadCoeffs d' ci k = Ok b
  /\ forall ci' k', ci' <> ci \/ k' <> k ->
       loadCoeffs d' ci' k' = loadCoeffs d ci' k'.
Proof.
  unfold saveCoeffs, loadCoeffs. intros H. inv_bind H.
  destruct a as [blocks|]; [|discriminate].
  inv_bind H. rename a into blocks'. inv_bind H. rename a into pcs.
  injection H as <-. simpl.
  apply store_Ok in Hb0 as [Hk ->], Hb1 as [Hci ->].
  split.
  - rewrite index_insert_eq by exact Hci. simpl.
    apply index_insert_eq. exact Hk.
  - intros ci' k' Hne.
    destruct (Z.eq_dec ci' ci) as [->|Hc].
    + rewrite index_insert_eq by exact Hci. rewrite Hb. simpl.
      apply index_insert_ne; [lia|]. destruct Hne; congruence.
    + rewrite index_insert_ne by (lia || congruence). reflexivity.
Qed.

(** X12: in a progressive image the block decoded at (bx, by) starts from
    the coefficients stored at index by*mxx*hi + bx of its component and
    is stored there again when it is decoded; every other stored block of
    the image is left as it is. *)
Theorem progressive_block_store sp e hi bx by_ st st' :
  d_progressive (st_d st) = true ->
  visitBlock sp e hi bx by_ st = Ok st' ->
  exists b b' dc' d',
    loadCoeffs (st_d st) (scan_compIndex e) (by_ * sp_mxx sp * hi + bx) = Ok b
    /\ decodeBlock sp e b (st_dc st) (st_d st) = Ok (b', dc', d')
    /\ loadCoeffs (st_d st') (scan_compIndex e) (by_ * sp_mxx sp * hi + bx)
       = Ok b'
    /\ st_dc st' = dc'
    /\ forall ci' k',
         ci' <> scan_compIndex e \/ k' <> by_ * sp_mxx sp * hi + bx ->
         loadCoeffs (st_d st') ci' k' = loadCoeffs (st_d st) ci' k'.
Proof.
  intros Hp H. unfold visitBlock in H. inv_bind H. rename a into b.
  inv_bind H. destruct a as [[b' dc'] d'].
  unfold loadBlock in Hb. rewrite Hp in Hb.
  pose proof (decodeBlock_engine _ _ _ _ _ _ _ _ Hb0) as (Heng & _).
  pose proof (engineOnly_sameFrame _ _ Heng) as (_&_&_&_&_&Hq&_).
  unfold finishBlock in H. rewrite Hq, Hp in H.
  inv_bind H. injection H as <-. simpl.
  apply save_then_load in Hb1 as [Hl Hother].
  exists b, b', dc', d'.
  split; [exact Hb|]. split; [exact Hb0|]. split; [exact Hl|].
  split; [reflexivity|].
  intros ci' k' Hne. rewrite (Hother ci' k' Hne).
  unfold loadCoeffs. rewrite (engineOnly_progCoeffs _ _ Heng). reflexivity.
Qed.

Lemma allocCoeffs_step mxx myy e (d d' : decoder) :
  allocCoeffs mxx myy e d = Ok d' ->
  0 <= scan_compIndex e
  /\ ((exists blocks,
         d_progCoeffs d !! Z.to_nat (scan_compIndex e) = Some (Some blocks))
      /\ d' = d
      \/ d_progCoeffs d !! Z.to_nat (scan_compIndex e) = Some None
         /\ exists cmp,
              d_comp d !! Z.to_nat (scan_compIndex e) = Some cmp
              /\ d' = setProgCoeffs
                        (<[Z.to_nat (scan_compIndex e) :=
                             Some (replicate
                                     (Z.to_nat (mxx * myy * comp_h cmp * comp_v cmp))
                                     zeroBlock)]> (d_progCoeffs d)) d).
Proof.
  unfold allocCoeffs. intros H. inv_bind H.
  apply index_Ok in Hb as [Hci Hl]. split; [exact Hci|].
  destruct a as [blocks|].
  - injection H as <-. left. eauto.
  - inv_bind H. rename a into cmp. apply index_Ok in Hb as [_ Hc].
    destruct (_ <? 0) in H; [discriminate|].
    inv_bind H. injection H as <-. apply store_Ok in Hb as [_ ->].
    right. split; [exact Hl|]. exists cmp. auto.
Qed.

Lemma allocLoop_inv mxx myy scan (d0 : decoder) (m : nat) (d' : decoder) :
  forEach (fun i d => let* e := index scan i in allocCoeffs mxx myy e d)
          (seqZ 0 (Z.of_nat m)) d0 = Ok d' ->
  d_comp d' = d_comp d0
  /\ (forall (k : nat) e, (k < m)%nat -> scan !! k = Some e ->
        exists blocks,
          d_progCoeffs d' !! Z.to_nat (scan_compIndex e) = Some (Some blocks))
  /\ forall ci : nat,
       d_progCoeffs d' !! ci = d_progCoeffs d0 !! ci
       \/ (d_progCoeffs d0 !! ci = Some None
           /\ exists cmp,
                d_comp d0 !! ci = Some cmp
                /\ d_progCoeffs d' !! ci
                   = Some (Some (replicate
                                   (Z.to_nat (mxx * myy * comp_h cmp * comp_v cmp))
                                   zeroBlock))).
Proof.
  intros H.
  pose proof (forEach_seqZ_ext
    (fun i (d : decoder) =>
       d_comp d = d_comp d0
       /\ (forall (k : nat) e, Z.of_nat k < i -> scan !! k = Some e ->
             exists blocks,
               d_progCoeffs d !! Z.to_nat (scan_compIndex e) = Some (Some blocks))
       /\ forall ci : nat,
            d_progCoeffs d !! ci = d_progCoeffs d0 !! ci
            \/ (d_progCoeffs d0 !! ci = Some None
                /\ exists cmp,
                     d_comp d0 !! ci = Some cmp
                     /\ d_progCoeffs d !! ci
                        = Some (Some (replicate
                                        (Z.to_nat (mxx * myy * comp_h cmp * comp_v cmp))
                                        zeroBlock))))
    (fun i d => let* e := index scan i in allocCoeffs mxx myy e d)
    (fun i d => let* e := index scan i in allocCoeffs mxx myy e d)
    m 0 d0) as Hinv.
  destruct Hinv as [_ Hinv].
  - split; [reflexivity|]. split; [intros; lia|]. intros ci. left. reflexivity.
  - intros i d Hi (Hc & Hdone & Hall). split; [reflexivity|].
    intros d1 Hstep. inv_bind Hstep. rename a into e.
    apply index_Ok in Hb as [_ He].
    apply allocCoeffs_step in Hstep
      as [Hci [[[blocks Hl] ->]|[Hl (cmp & Hcmp & ->)]]].
    + split; [exact Hc|]. split; [|exact Hall].
      intros k e' Hk He'.
      destruct (Z.eq_dec (Z.of_nat k) i) as [E|E];
        [|apply (Hdone k e'); [lia|exact He']].
      replace (Z.to_nat i) with k in He by lia.
      assert (e' = e) by congruence. subst e'. eauto.
    + simpl. split; [exact Hc|]. split.
      * intros k e' Hk He'.
        destruct (Z.eq_dec (Z.of_nat k) i) as [Ek|Ek].
        { replace (Z.to_nat i) with k in He by lia.
          assert (e' = e) by congruence. subst e'.
          rewrite list_lookup_insert_eq; [eauto|].
          apply lookup_lt_Some in Hl. exact Hl. }
        destruct (Hdone k e' ltac:(lia) He') as [bl Hbl].
        destruct (Nat.eq_dec (Z.to_nat (scan_compIndex e'))
                             (Z.to_nat (scan_compIndex e))) as [En|En].
        { rewrite En in Hbl. congruence. }
        rewrite list_lookup_insert_ne by congruence. eauto.
      * intros ci.
        destruct (Nat.eq_dec ci (Z.to_nat (scan_compIndex e))) as [->|Hne].
        -- right. destruct (Hall (Z.to_nat (scan_compIndex e))) as [Hsame|[H0 _]].
           ++ split; [congruence|]. exists cmp. split; [congruence|].
              apply list_lookup_insert_eq. apply lookup_lt_Some in Hl. exact Hl.
           ++ split; [exact H0|]. exists cmp. split; [congruence|].
              apply list_lookup_insert_eq. apply lookup_lt_Some in Hl. exact Hl.
        -- rewrite list_lookup_insert_ne by congruence. apply Hall.
  - specialize (Hinv d' H) as (Hc & Hdone & Hall).
    split; [exact Hc|]. split; [|exact Hall].
    intros k e Hk. apply Hdone. lia.
Qed.

Lemma seqZ_to_nat (a n : Z) : seqZ a n = seqZ a (Z.of_nat (Z.to_nat n)).
Proof.
  destruct (Z.le_gt_cases 0 n).
  - rewrite Z2Nat.id by lia. reflexivity.
  - rewrite seqZ_nil by lia. replace (Z.to_nat n) with 0%nat by lia. reflexivity.
Qed.

(** X13: the setup of a scan of a progressive image gives every
    component of the scan a coefficient store; a store that exists is
    kept with its coefficients, and a store that did not exist is made of
    mxx*myy*h*v blocks, all zero. *)
Theorem setup_coeffs nComp scan bounds (d : decoder) sp st :
  scanSetup nComp scan bounds d = Ok (sp, st) ->
  d_progressive d = true ->
  (forall (k : nat) e, Z.of_nat k < nComp -> scan !! k = Some e ->
     exists blocks,
       d_progCoeffs (st_d st) !! Z.to_nat (scan_compIndex e) = Some (Some blocks))
  /\ forall ci : nat,
       d_progCoeffs (st_d st) !! ci = d_progCoeffs d !! ci
       \/ (d_progCoeffs d !! ci = Some None
           /\ exists cmp,
                d_comp d !! ci = Some cmp
                /\ d_progCoeffs (st_d st) !! ci
                   = Some (Some (replicate
                                   (Z.to_nat (sp_mxx sp * sp_myy sp
                                              * comp_h cmp * comp_v cmp))
                                   zeroBlock))).
Proof.
  unfold scanSetup. destruct bounds as [[[zs ze] ah] al]. intros H Hp.
  inv_bind H. destruct (_ || _) in H; [discriminate|].
  inv_bind H. rename a0 into d1. inv_bind H. rename a0 into d2.
  injection H as <- <-. simpl.
  assert (H1 : d_progCoeffs d1 = d_progCoeffs d /\ d_progressive d1 = true
               /\ d_comp d1 = d_comp d).
  { destruct (_ && _).
    - apply makeImg_Ok in Hb0 as ((Hf & _) & Hpc & _).
      destruct Hf as (_&_&_&_&_&Hq&Hc&_). repeat split; congruence.
    - injection Hb0 as <-. auto. }
  destruct H1 as (Hpc & Hq & Hc). rewrite Hq in Hb1.
  rewrite seqZ_to_nat in Hb1.
  apply allocLoop_inv in Hb1 as (_ & Hdone & Hall).
  rewrite Hpc, Hc in Hall.
  split; [|exact Hall].
  intros k e Hk He. apply (Hdone k e); [lia | exact He].
Qed.

End ScanFrame.

Lemma scan_keeps_frame_witness :
  processSOS 10 d422v = Ok scanned422v /\ sameFrame d422v scanned422v.
Proof.
  assert (H : processSOS 10 d422v = Ok scanned422v) by (vm_compute; reflexivity).
  split; [exact H|].
  exact (proj1 (@scan_keeps_frame Scripted _ _ _ H)).
Defined.

Lemma no_tiles_witness :
  processSOS 6 dCarry = Ok scannedCarry
  /\ (d_progressive dCarry = true \/ d_nComp dCarry <= 2)
  /\ emitted scannedCarry = emitted dCarry.
Proof.
  assert (H : processSOS 6 dCarry = Ok scannedCarry) by (vm_compute; reflexivity).
  assert (Hp : d_progressive dCarry = true \/ d_nComp dCarry <= 2)
    by (left; reflexivity).
  split; [exact H|]. split; [exact Hp|].
  exact (@no_tiles Scripted _ _ _ H Hp).
Defined.


Lemma progressive_block_store_witness :
  d_progressive (st_d carrySetup.2) = true
  /\ visitBlock carrySetup.1 (mkScanEntry 0 0 0) 1 0 0 carrySetup.2
     = Ok carryVisited
  /\ loadCoeffs (st_d carryVisited) 0 1 = loadCoeffs (st_d carrySetup.2) 0 1.
Proof.
  assert (Hp : d_progressive (st_d carrySetup.2) = true) by reflexivity.
  assert (H : visitBlock carrySetup.1 (mkScanEntry 0 0 0) 1 0 0 carrySetup.2
              = Ok carryVisited) by (vm_compute; reflexivity).
  split; [exact Hp|]. split; [exact H|].
  destruct (@progressive_block_store Scripted _ _ _ _ _ _ _ Hp H)
    as (b & b' & dc' & d' & _ & _ & _ & _ & Hother).
  apply Hother. right. vm_compute. discriminate.
Defined.

Lemma setup_coeffs_witness :
  scanSetup carryHeader.1.1.1 carryHeader.1.1.2 carryHeader.1.2 carryHeader.2
  = Ok (carrySetup.1, carrySetup.2)
  /\ d_progressive carryHeader.2 = true
  /\ exists blocks,
       d_progCoeffs (st_d carrySetup.2) !! Z.to_nat 0 = Some (Some blocks).
Proof.
  assert (H : scanSetup carryHeader.1.1.1 carryHeader.1.1.2 carryHeader.1.2
                carryHeader.2 = Ok (carrySetup.1, carrySetup.2))
    by (vm_compute; reflexivity).
  assert (Hp : d_progressive carryHeader.2 = true) by reflexivity.
  split; [exact H|]. split; [exact Hp|].
  destruct (@setup_coeffs Scripted _ _ _ _ _ _ H Hp) as [Hdone _].
  apply (Hdone 0%nat (mkScanEntry 0 0 0)); [vm_compute; reflexivity | reflexivity].
Defined.


(** ** The spectral band of a scan *)

Section Band.
Context `{P : Primitives}.

Lemma outsideBand_mono zig zig' zigEnd p :
  zig <= zig' -> outsideBand zig zigEnd p -> outsideBand zig' zigEnd p.
Proof. intros Hle H z Hz. apply H. lia. Qed.

Lemma store_outside (b b1 : list Z) (zig zigEnd z u x : Z) (p : nat) :
  outsideBand zig zigEnd p -> zig <= z <= zigEnd ->
  index unzig z = Ok u -> store b u x = Ok b1 ->
  b1 !! p = b !! p.
Proof.
  intros Hout Hz Hu Hs. apply index_Ok in Hu as [Hz0 Hu].
  apply store_Ok in Hs as [Hr ->].
  apply list_lookup_insert_ne. intros E.
  apply (Hout z Hz Hz0). rewrite Hu. f_equal. lia.
Qed.

Lemma acLoop_band huff zigEnd al fuel (p : nat) :
  forall zig b (d : decoder) b' d',
  acLoop fuel huff zigEnd al zig b d = Ok (b', d') ->
  outsideBand zig zigEnd p -> b' !! p = b !! p.
Proof.
  induction fuel as [|fuel IH]; intros zig b d b' d' H Hout; simpl in H.
  - destruct (zigEnd <? zig); injection H as <- <-; reflexivity.
  - destruct (zigEnd <? zig) eqn:Ez; [injection H as <- <-; reflexivity|].
    apply Z.ltb_ge in Ez.
    inv_bind H. destruct a as [value d1].
    apply d_decodeHuffman_Ok in Hb as [_ Hv].
    pose proof (nibbles value Hv) as [Hn0 Hn1].
    destruct (Z.land value 15 =? 0); simpl in H.
    + destruct (Z.eqb_spec (Z.shiftr value 4) 15); simpl in H.
      * apply IH in H; [exact H|]. eapply outsideBand_mono; [|exact Hout]. lia.
      * inv_bind H. injection H as <- <-. reflexivity.
    + destruct (Z.shiftr value 4 + zig >? zigEnd) eqn:E.
      * rewrite Z.add_comm in E. rewrite E in H. injection H as <- <-. reflexivity.
      * rewrite Z.add_comm in E. rewrite E in H.
        rewrite Z.gtb_ltb in E. apply Z.ltb_ge in E.
        inv_bind H. destruct a as [ac d2].
        inv_bind H. inv_bind H.
        apply IH in H; [|eapply outsideBand_mono; [|exact Hout]; lia].
        rewrite H. eapply store_outside; [exact Hout | | exact Hb0 | exact Hb1].
        lia.
Qed.

Lemma refineNonZeroes_band fuel (p : nat) :
  forall (b : block) zig zigEnd nz delta (d : decoder) zig' b' d',
  refineNonZeroes fuel b zig zigEnd nz delta d = Ok (zig', b', d') ->
  outsideBand zig zigEnd p -> b' !! p = b !! p.
Proof.
  induction fuel as [|fuel IH]; intros b zig zigEnd nz delta d zig' b' d' H Hout;
    simpl in H.
  - destruct (zigEnd <? zig); injection H as <- <- <-; reflexivity.
  - destruct (zigEnd <? zig) eqn:Ez; [injection H as <- <- <-; reflexivity|].
    apply Z.ltb_ge in Ez.
    assert (Hnext : outsideBand (zig + 1) zigEnd p)
      by (eapply outsideBand_mono; [|exact Hout]; lia).
    inv_bind H. inv_bind H.
    destruct (a0 =? 0).
    + destruct (nz =? 0).
      * injection H as <- <- <-. reflexivity.
      * eapply IH; eauto.
    + inv_bind H. destruct a1 as [bit d1].
      destruct bit; simpl in H.
      * inv_bind H. apply IH in H; [|exact Hnext]. rewrite H.
        destruct (a0 >=? 0);
          (eapply store_outside; [exact Hout | | exact Hb | exact Hb2]; lia).
      * eapply IH; eauto.
Qed.

Lemma refineLoop_band h zigEnd delta fuel (p : nat) :
  forall zig (b : block) (d : decoder) zig' b' d',
  refineLoop fuel h zigEnd delta zig b d = Ok (zig', b', d') ->
  outsideBand zig zigEnd p -> b' !! p = b !! p.
Proof.
  induction fuel as [|fuel IH]; intros zig b d zig' b' d' H Hout; simpl in H.
  - destruct (zigEnd <? zig); injection H as <- <- <-; reflexivity.
  - destruct (zigEnd <? zig) eqn:Ez; [injection H as <- <- <-; reflexivity|].
    apply Z.ltb_ge in Ez.
    inv_bind H. destruct a as [value d1].
    assert (Hcont : forall z d2,
      (let* (zig, b, d) :=
         refineNonZeroes (loopFuel zig zigEnd) b zig zigEnd
           (i32 (Z.shiftr value 4)) delta d2 in
       if zig >? zigEnd then Err (FormatError "too many coefficients")
       else
         let* b := (if negb (z =? 0)
                    then let* u := index unzig zig in store b u z
                    else Ok b) in
         refineLoop fuel h zigEnd delta (zig + 1) b d) = Ok (zig', b', d') ->
      b' !! p = b !! p).
    { intros z d2 Hc. inv_bind Hc. destruct a as [[zig1 b1] d3].
      pose proof (refineNonZeroes_engine _ _ _ _ _ _ _ _ _ _ Hb0) as (_ & _ & Hle).
      apply refineNonZeroes_band with (p := p) in Hb0; [|exact Hout].
      destruct (zig1 >? zigEnd) eqn:E1; [discriminate|].
      rewrite Z.gtb_ltb in E1. apply Z.ltb_ge in E1.
      inv_bind Hc. rename a into b2.
      apply IH in Hc; [|eapply outsideBand_mono; [|exact Hout]; lia].
      rewrite Hc, <- Hb0.
      destruct (negb (z =? 0)).
      - inv_bind Hb1.
        eapply store_outside; [exact Hout | | exact Hb2 | exact Hb1]. lia.
      - injection Hb1 as <-. reflexivity. }
    destruct (Z.land value 15 =? 0).
    + destruct (negb (Z.shiftr value 4 =? 15)).
      * inv_bind H. injection H as <- <- <-. reflexivity.
      * apply (Hcont 0 d1). exact H.
    + destruct (Z.land value 15 =? 1); [|discriminate].
      inv_bind H. destruct a as [bit d2].
      apply (Hcont (if negb bit then i32 (- delta) else delta) d2). exact H.
Qed.

Lemma refineLoop_le h zigEnd delta fuel :
  forall zig (b : block) (d : decoder) zig' b' d',
  refineLoop fuel h zigEnd delta zig b d = Ok (zig', b', d') -> zig <= zig'.
Proof.
  induction fuel as [|fuel IH]; intros zig b d zig' b' d' H; simpl in H.
  - destruct (zigEnd <? zig); injection H as <- <- <-; lia.
  - destruct (zigEnd <? zig); [injection H as <- <- <-; lia|].
    inv_bind H. destruct a as [value d1].
    assert (Hcont : forall z d2,
      (let* (zig, b, d) :=
         refineNonZeroes (loopFuel zig zigEnd) b zig zigEnd
           (i32 (Z.shiftr value 4)) delta d2 in
       if zig >? zigEnd then Err (FormatError "too many coefficients")
       else
         let* b := (if negb (z =? 0)
                    then let* u := index unzig zig in store b u z
                    else Ok b) in
         refineLoop fuel h zigEnd delta (zig + 1) b d) = Ok (zig', b', d') ->
      zig <= zig').
    { intros z d2 Hc. inv_bind Hc. destruct a as [[zig1 b1] d3].
      apply refineNonZeroes_engine in Hb0 as (_ & _ & Hle).
      destruct (zig1 >? zigEnd); [discriminate|].
      inv_bind Hc. apply IH in Hc. lia. }
    destruct (Z.land value 15 =? 0).
    + destruct (negb (Z.shiftr value 4 =? 15)).
      * inv_bind H. injection H as <- <- <-. lia.
      * apply (Hcont 0 d1). exact H.
    + destruct (Z.land value 15 =? 1); [|discriminate].
      inv_bind H. destruct a as [bit d2].
      apply (Hcont (if negb bit then i32 (- delta) else delta) d2). exact H.
Qed.

Lemma decodeBlock_band sp e (b : block) dc (d : decoder) b' dc' d' (p : nat) :
  decodeBlock sp e b dc d = Ok (b', dc', d') ->
  (sp_zigStart sp = 0 -> p <> 0%nat) ->
  outsideBand (sp_zigStart sp) (sp_zigEnd sp) p ->
  b' !! p = b !! p.
Proof.
  unfold decodeBlock. intros H Hdc Hout.
  destruct (negb (sp_ah sp =? 0)).
  - inv_bind H. inv_bind H. destruct a0 as [b1 d1]. injection H as <- <- <-.
    unfold refine in Hb0.
    destruct (Z.eqb_spec (sp_zigStart sp) 0) as [Hz|Hz].
    + destruct (negb _) in Hb0; [discriminate|].
      inv_bind Hb0. destruct a0 as [bit d2]. destruct bit.
      * inv_bind Hb0. inv_bind Hb0. injection Hb0 as <- <-.
        apply store_Ok in Hb3 as [_ ->].
        apply list_lookup_insert_ne. simpl. intros E. apply (Hdc Hz). lia.
      * injection Hb0 as <- <-. reflexivity.
    + inv_bind Hb0. destruct a0 as [[zig b2] d2].
      assert (H2 : b2 !! p = b !! p /\ sp_zigStart sp <= zig).
      { destruct (d_eobRun d =? 0).
        - split; [eapply refineLoop_band; eauto | eapply refineLoop_le; eauto].
        - injection Hb1 as <- <- <-. split; [reflexivity | lia]. }
      destruct H2 as [H2 Hle].
      destruct (d_eobRun d2 >? 0).
      * inv_bind Hb0. destruct a0 as [[zig3 b3] d3]. injection Hb0 as <- <-.
        apply refineNonZeroes_band with (p := p) in Hb2;
          [|eapply outsideBand_mono; [|exact Hout]; exact Hle].
        congruence.
      * injection Hb0 as <- <-. exact H2.
  - unfold firstPass in H. inv_bind H. destruct a as [[[zig b1] dc1] d1].
    assert (H1 : b1 !! p = b !! p /\ sp_zigStart sp <= zig).
    { destruct (Z.eqb_spec (sp_zigStart sp) 0) as [Hz|Hz].
      - inv_bind Hb. destruct a as [[b0 dc0] d0]. injection Hb as <- <- <- <-.
        split; [|lia]. unfold decodeDC in Hb0.
        inv_bind Hb0. inv_bind Hb0. destruct a0 as [value d2].
        destruct (value >? 16); [discriminate|].
        inv_bind Hb0. destruct a0 as [dcDelta d3].
        inv_bind Hb0. inv_bind Hb0. inv_bind Hb0. inv_bind Hb0.
        injection Hb0 as <- <- <-.
        apply store_Ok in Hb6 as [_ ->].
        apply list_lookup_insert_ne. simpl. intros E. apply (Hdc Hz). lia.
      - injection Hb as <- <- <- <-. split; [reflexivity | lia]. }
    destruct H1 as [H1 Hle].
    unfold decodeAC in H. destruct (_ && _).
    + injection H as <- <- <-. exact H1.
    + inv_bind H. inv_bind H. destruct a0 as [b2 d2]. injection H as <- <- <-.
      apply acLoop_band with (p := p) in Hb1;
        [|eapply outsideBand_mono; [|exact Hout]; exact Hle].
      congruence.
Qed.

(** X14: a scan changes no coefficient outside its spectral band: when a
    block is decoded or refined, every coefficient whose position is not
    the place of a zig-zag index zigStart .. zigEnd (and is not position
    0, when the scan starts at the DC coefficient) is after the block
    what it was before. *)
Theorem scan_band sp e (b : block) dc (d : decoder) b' dc' d' (p : nat) :
  decodeBlock sp e b dc d = Ok (b', dc', d') ->
  (sp_zigStart sp = 0 -> p <> 0%nat) ->
  (forall z, sp_zigStart sp <= z <= sp_zigEnd sp -> 0 <= z ->
     unzig !! Z.to_nat z <> Some (Z.of_nat p)) ->
  b' !! p = b !! p.
Proof. exact (decodeBlock_band sp e b dc d b' dc' d' p). Qed.

End Band.

Lemma scan_band_witness :
  decodeBlock spBand (mkScanEntry 0 0 0) zeroBlock zeroDc dBand
  = Ok (bandResult.1.1, bandResult.1.2, bandResult.2)
  /\ (sp_zigStart spBand = 0 -> 63%nat <> 0%nat)
  /\ (forall z, sp_zigStart spBand <= z <= sp_zigEnd spBand -> 0 <= z ->
        @unzig Scripted !! Z.to_nat z <> Some (Z.of_nat 63))
  /\ bandResult.1.1 !! 8%nat = Some 1
  /\ bandResult.1.1 !! 63%nat = zeroBlock !! 63%nat.
Proof.
  assert (H : decodeBlock spBand (mkScanEntry 0 0 0) zeroBlock zeroDc dBand
              = Ok (bandResult.1.1, bandResult.1.2, bandResult.2))
    by (vm_compute; reflexivity).
  assert (H1 : sp_zigStart spBand = 0 -> 63%nat <> 0%nat) by (intros _; lia).
  assert (H2 : forall z, sp_zigStart spBand <= z <= sp_zigEnd spBand -> 0 <= z ->
                 @unzig Scripted !! Z.to_nat z <> Some (Z.of_nat 63)).
  { intros z Hz _. simpl in Hz.
    assert (Hc : z = 1 \/ z = 2 \/ z = 3 \/ z = 4 \/ z = 5) by lia.
    destruct Hc as [->|[->|[->|[->| ->]]]]; vm_compute; discriminate. }
  split; [exact H|]. split; [exact H1|]. split; [exact H2|].
  split; [vm_compute; reflexivity|].
  exact (@scan_band Scripted _ _ _ _ _ _ _ _ 63%nat H H1 H2).
Defined.


(** ** Refinement of a band that holds nothing *)

Section ZeroBand.
Context `{P : Primitives}.

Lemma zeroBand_next zig zigEnd (b : block) :
  zeroBand zig zigEnd b -> zeroBand (zig + 1) zigEnd b.
Proof. intros H z Hz. apply H. lia. Qed.

Lemma refineNonZeroes_zero delta zigEnd (b : block) (d : decoder) fuel :
  forall zig nz,
  zeroBand zig zigEnd b ->
  (loopFuel zig zigEnd <= fuel)%nat ->
  - 2 ^ 30 <= nz < 2 ^ 31 -> zigEnd - zig < 2 ^ 30 ->
  (nz < 0 -> - 2 ^ 30 + (zigEnd - zig) < nz) ->
  refineNonZeroes fuel b zig zigEnd nz delta d
  = Ok (if (0 <=? nz) && (zig + nz <=? zigEnd) then zig + nz
        else Z.max zig (zigEnd + 1), b, d).
Proof.
  induction fuel as [|fuel IH]; intros zig nz Hz Hfuel Hnz Hlen Hneg; simpl.
  - unfold loopFuel in Hfuel.
    destruct (Z.ltb_spec zigEnd zig) as [Hlt|Hge]; [|lia].
    destruct (Z.leb_spec 0 nz); simpl.
    + destruct (Z.leb_spec (zig + nz) zigEnd); [lia|]. f_equal. f_equal. f_equal. lia.
    + f_equal. f_equal. f_equal. lia.
  - destruct (Z.ltb_spec zigEnd zig) as [Hlt|Hge].
    { destruct (Z.leb_spec 0 nz); simpl.
      + destruct (Z.leb_spec (zig + nz) zigEnd); [lia|].
        f_equal. f_equal. f_equal. lia.
      + f_equal. f_equal. f_equal. lia. }
    destruct (Hz zig ltac:(lia)) as (u & Hu & Hb).
    rewrite Hu. simpl. rewrite Hb. simpl.
    destruct (Z.eqb_spec nz 0) as [->|Hn0].
    { simpl. destruct (Z.leb_spec (zig + 0) zigEnd); [|lia].
      f_equal. f_equal. f_equal. lia. }
    rewrite i32_small by lia.
    rewrite IH.
    + f_equal. f_equal. f_equal.
      destruct (Z.leb_spec 0 nz), (Z.leb_spec 0 (nz - 1)); try lia; simpl.
      * destruct (Z.leb_spec (zig + nz) zigEnd),
                 (Z.leb_spec (zig + 1 + (nz - 1)) zigEnd); lia.
      * lia.
    + apply zeroBand_next, Hz.
    + unfold loopFuel in *. lia.
    + lia.
    + lia.
    + lia.
Qed.

Lemma refineLoop_unfold fuel h zigEnd delta zig (b : block) (d : decoder) :
  zig <= zigEnd ->
  refineLoop (S fuel) h zigEnd delta zig b d
  = (let* (value, d) := d_decodeHuffman h d in
     let val0 := Z.shiftr value 4 in
     let val1 := Z.land value 0x0f in
     let continue (z : Z) (d : decoder) :=
       let* (zig, b, d) :=
         refineNonZeroes (loopFuel zig zigEnd) b zig zigEnd (i32 val0) delta d in
       if zig >? zigEnd then Err (FormatError "too many coefficients")
       else
         let* b :=
           (if negb (z =? 0)
            then let* u := index unzig zig in store b u z
            else Ok b) in
         refineLoop fuel h zigEnd delta (zig + 1) b d in
     if val1 =? 0 then
       if negb (val0 =? 0x0f) then
         let* d := startEobRun val0 d in
         Ok (zig, b, d)
       else continue 0 d
     else if val1 =? 1 then
       let* (bit, d) := d_decodeBit d in
       continue (if negb bit then i32 (- delta) else delta) d
     else Err (FormatError "unexpected Huffman code")).
Proof.
  intros Hle. cbn [refineLoop].
  destruct (Z.ltb_spec zigEnd zig); [lia | reflexivity].
Qed.

Lemma refine_ac_unfold (b : block) h zigStart zigEnd delta (d : decoder) :
  zigStart <> 0 ->
  refine b h zigStart zigEnd delta d
  = (let* (zig, b, d) :=
       (if d_eobRun d =? 0
        then refineLoop (loopFuel zigStart zigEnd) h zigEnd delta zigStart b d
        else Ok (zigStart, b, d)) in
     if d_eobRun d >? 0 then
       let d := setEobRun (u16 (d_eobRun d - 1)) d in
       let* (_, b, d) :=
         refineNonZeroes (loopFuel zig zigEnd) b zig zigEnd (-1) delta d in
       Ok (b, d)
     else Ok (b, d)).
Proof.
  intros Hz. unfold refine. destruct (Z.eqb_spec zigStart 0); [contradiction|].
  reflexivity.
Qed.

Lemma refine_zero_pending (b : block) h zigStart zigEnd delta (d : decoder) :
  0 < zigStart -> zigEnd < blockSize -> zeroBand zigStart zigEnd b ->
  (0 < d_eobRun d < 2 ^ 16 ->
   refine b h zigStart zigEnd delta d = Ok (b, setEobRun (d_eobRun d - 1) d))
  /\ (d_eobRun d = 0 -> zigStart <= zigEnd ->
      forall d1, d_decodeHuffman h d = Ok (0, d1) ->
      refine b h zigStart zigEnd delta d = Ok (b, setEobRun 0 d1)).
Proof.
  intros Hzs Hze Hband. unfold blockSize in Hze. split.
  - intros He. rewrite refine_ac_unfold by lia.
    destruct (Z.eqb_spec (d_eobRun d) 0); [lia|]. cbn [bind].
    destruct (Z.gtb_spec (d_eobRun d) 0); [|lia].
    cbv zeta. rewrite refineNonZeroes_zero; try assumption; try lia.
    cbn [bind]. rewrite u16_small by lia. reflexivity.
  - intros He Hle d1 Hh. rewrite refine_ac_unfold by lia.
    rewrite He. cbn [Z.eqb].
    destruct (loopFuel_S zigStart zigEnd Hle) as [fuel Hf].
    rewrite Hf, refineLoop_unfold by exact Hle.
    rewrite Hh. cbn [bind]. cbv zeta.
    change (Z.land 0 15 =? 0) with true. change (Z.shiftr 0 4) with 0.
    cbn [negb Z.eqb]. unfold startEobRun. cbn [negb Z.eqb bind].
    change (d_eobRun (setEobRun (u16 (Z.shiftl 1 0)) d1)) with 1.
    cbn [Z.gtb Z.compare]. cbv zeta.
    rewrite refineNonZeroes_zero; try assumption; try lia.
    cbn [bind]. reflexivity.
Qed.

(** X15: AC refinement of a block that has no coefficient in the band
    reads no correction bit and leaves the block as it is: under a
    pending end-of-band run nothing is read at all and the run goes down
    by one; with no run pending, an end-of-band symbol of run 0 is all
    that is read, and the run is zero again after the block. *)
Theorem refine_zero_band (b : block) h zigStart zigEnd delta (d : decoder) :
  0 < zigStart -> zigEnd < blockSize -> zeroBand zigStart zigEnd b ->
  (0 < d_eobRun d < 2 ^ 16 ->
   refine b h zigStart zigEnd delta d = Ok (b, setEobRun (d_eobRun d - 1) d))
  /\ (d_eobRun d = 0 -> zigStart <= zigEnd ->
      forall d1, d_decodeHuffman h d = Ok (0, d1) ->
      refine b h zigStart zigEnd delta d = Ok (b, setEobRun 0 d1)).
Proof. exact (refine_zero_pending b h zigStart zigEnd delta d). Qed.

(** X16: the two format errors of AC refinement.  With no run pending, a
    symbol whose size nibble is above 1 is an "unexpected Huffman code";
    and on a block that has no coefficient in the band, a symbol of size
    1, or the symbol 0xF0, whose run of zeros does not fit in what is
    left of the band gives "too many coefficients". *)
Theorem refine_rejects (b : block) h zigStart zigEnd delta (d : decoder)
    (value : Z) (d1 : decoder) :
  0 < zigStart <= zigEnd -> zigEnd < blockSize -> d_eobRun d = 0 ->
  d_decodeHuffman h d = Ok (value, d1) ->
  (1 < Z.land value 0x0f ->
   refine b h zigStart zigEnd delta d
   = Err (FormatError "unexpected Huffman code"))
  /\ (zeroBand zigStart zigEnd b -> zigEnd < zigStart + Z.shiftr value 4 ->
      (value = 0xF0
       \/ (Z.land value 0x0f = 1 /\ exists bit d2, d_decodeBit d1 = Ok (bit, d2))) ->
      refine b h zigStart zigEnd delta d
      = Err (FormatError "too many coefficients")).
Proof.
  intros Hzs Hze He Hh. unfold blockSize in Hze.
  pose proof (d_decodeHuffman_Ok _ _ _ _ Hh) as [_ Hv].
  pose proof (nibbles value Hv) as [Hn0 Hn1].
  destruct (loopFuel_S zigStart zigEnd ltac:(lia)) as [fuel Hf].
  assert (Hrun : forall d2,
    zeroBand zigStart zigEnd b -> zigEnd < zigStart + Z.shiftr value 4 ->
    refineNonZeroes (loopFuel zigStart zigEnd) b zigStart zigEnd
      (i32 (Z.shiftr value 4)) delta d2 = Ok (zigEnd + 1, b, d2)).
  { intros d2 Hband Hlong. rewrite i32_small by lia.
    rewrite refineNonZeroes_zero; try assumption; try lia.
    destruct (Z.leb_spec 0 (Z.shiftr value 4)); [|lia]. simpl.
    destruct (Z.leb_spec (zigStart + Z.shiftr value 4) zigEnd); [lia|].
    f_equal. f_equal. f_equal. lia. }
  split.
  - intros Hsize. rewrite refine_ac_unfold by lia.
    rewrite He. cbn [Z.eqb]. rewrite Hf, refineLoop_unfold by lia.
    rewrite Hh. cbn [bind]. cbv zeta.
    destruct (Z.eqb_spec (Z.land value 15) 0); [lia|].
    destruct (Z.eqb_spec (Z.land value 15) 1); [lia|]. reflexivity.
  - intros Hband Hlong Hsym. rewrite refine_ac_unfold by lia.
    rewrite He. cbn [Z.eqb]. rewrite Hf, refineLoop_unfold by lia.
    rewrite Hh. cbn [bind]. cbv zeta.
    destruct Hsym as [->|(Hone & bit & d2 & Hbit)].
    + change (Z.land 240 15 =? 0) with true. cbv iota.
      change (negb (Z.shiftr 240 4 =? 15)) with false. cbv iota.
      rewrite (Hrun d1 Hband Hlong).
      cbn [bind]. destruct (Z.gtb_spec (zigEnd + 1) zigEnd); [reflexivity | lia].
    + rewrite Hone. cbn [Z.eqb Pos.eqb]. rewrite Hbit. cbn [bind].
      rewrite (Hrun d2 Hband Hlong). cbn [bind].
      destruct (Z.gtb_spec (zigEnd + 1) zigEnd); [reflexivity | lia].
Qed.

End ZeroBand.

Lemma zeroBlock_band : @zeroBand Scripted 1 5 zeroBlock.
Proof.
  intros z Hz.
  assert (Hc : z = 1 \/ z = 2 \/ z = 3 \/ z = 4 \/ z = 5) by lia.
  destruct Hc as [->|[->|[->|[->| ->]]]]; eexists; split; vm_compute; reflexivity.
Qed.

Lemma refine_zero_band_witness :
  0 < 1 /\ 5 < blockSize /\ @zeroBand Scripted 1 5 zeroBlock
  /\ 0 < d_eobRun dPending < 2 ^ 16
  /\ @refine Scripted zeroBlock 4 1 5 1 dPending
     = Ok (zeroBlock, setEobRun (d_eobRun dPending - 1) dPending).
Proof.
  assert (H1 : 5 < blockSize) by (vm_compute; reflexivity).
  assert (H2 : 0 < d_eobRun dPending < 2 ^ 16) by (simpl; lia).
  split; [lia|]. split; [exact H1|]. split; [exact zeroBlock_band|].
  split; [exact H2|].
  exact (proj1 (@refine_zero_band Scripted zeroBlock 4 1 5 1 dPending
                  ltac:(lia) H1 zeroBlock_band) H2).
Defined.

Lemma refine_rejects_witness :
  0 < 1 <= 5 /\ 5 < blockSize /\ d_eobRun dLong = 0
  /\ @d_decodeHuffman Scripted 4 dLong
     = Ok (0x71, @setReader Scripted 1 [SBit true] dLong)
  /\ @refine Scripted zeroBlock 4 1 5 1 dLong
     = Err (FormatError "too many coefficients").
Proof.
  assert (H1 : 5 < blockSize) by (vm_compute; reflexivity).
  assert (H2 : @d_decodeHuffman Scripted 4 dLong
               = Ok (0x71, @setReader Scripted 1 [SBit true] dLong))
    by (vm_compute; reflexivity).
  split; [lia|]. split; [exact H1|]. split; [reflexivity|]. split; [exact H2|].
  apply (proj2 (@refine_rejects Scripted zeroBlock 4 1 5 1 dLong _ _
                  ltac:(lia) H1 eq_refl H2) zeroBlock_band).
  - vm_compute. reflexivity.
  - right. split; [reflexivity|]. eexists. eexists. vm_compute. reflexivity.
Defined.


(** ** The coefficients of a progressive image, reconstructed *)

Section Reconstruction.
Context `{P : Primitives}.

Lemma forWhile_inv {St : Type} (I : St -> Prop) (cond : Z -> St -> bool)
    (body : Z -> St -> option (result St)) :
  (forall i s s', I s -> body i s = Some (Ok s') -> I s') ->
  forall fuel i s s', I s -> forWhile fuel cond body i s = Some (Ok s') -> I s'.
Proof.
  intros Hbody. induction fuel as [|fuel IH]; intros i s s' HI H; simpl in H.
  - destruct (cond i s); [discriminate|]. injection H as <-. exact HI.
  - destruct (cond i s); [|injection H as <-; exact HI].
    destruct (body i s) as [[s1|e]|] eqn:E; [|discriminate|discriminate].
    eapply IH; [|exact H]. eapply Hbody; eauto.
Qed.

Lemma forEachW_inv {A St : Type} (I : St -> Prop)
    (body : A -> St -> option (result St)) (l : list A) :
  (forall x s s', I s -> body x s = Some (Ok s') -> I s') ->
  forall s s', I s -> forEachW body l s = Some (Ok s') -> I s'.
Proof.
  intros Hbody. induction l as [|x l IH]; intros s s' HI H; simpl in H.
  - injection H as <-. exact HI.
  - destruct (body x s) as [[s1|e]|] eqn:E; [|discriminate|discriminate].
    eapply IH; [|exact H]. eapply Hbody; eauto.
Qed.

Lemma coeffsOnly_refl (d : decoder) : coeffsOnly d d.
Proof. destruct d. reflexivity. Qed.

Lemma coeffsOnly_trans (d1 d2 d3 : decoder) :
  coeffsOnly d1 d2 -> coeffsOnly d2 d3 -> coeffsOnly d1 d3.
Proof.
  unfold coeffsOnly. intros H12 H23. rewrite H23, H12. reflexivity.
Qed.

Lemma reconstructStored_coeffs i k bx by_ (d d' : decoder) :
  reconstructStored i k bx by_ d = Ok d' -> coeffsOnly d d'.
Proof.
  unfold reconstructStored. intros H. inv_bind H. inv_bind H.
  destruct a0 as [[dst b1] d1].
  apply reconstructBlock_Ok in Hb0. subst d1.
  unfold saveCoeffs in H. inv_bind H. destruct a0; [|discriminate].
  inv_bind H. inv_bind H. injection H as <-.
  destruct d. reflexivity.
Qed.

Lemma reconstruct_coeffs fuel (d d' : decoder) :
  reconstructProgressiveImage fuel d = Some (Ok d') -> coeffsOnly d d'.
Proof.
  unfold reconstructProgressiveImage. intros H.
  destruct (index (d_comp d) 0) as [c0|]; [|discriminate].
  destruct (8 * comp_h c0 =? 0); [discriminate|].
  revert H. apply (forEachW_inv (coeffsOnly d)); [|apply coeffsOnly_refl].
  intros i s s' Hs H. unfold reconstructComponent in H.
  destruct (index (d_progCoeffs s) i) as [[blocks|]|]; [| |discriminate].
  2: { injection H as <-. exact Hs. }
  destruct (let* c0 := _ in _) as [[c0' ci]|]; [|discriminate].
  destruct (comp_v ci =? 0); [discriminate|].
  destruct (comp_h ci =? 0); [discriminate|].
  revert H. apply (forWhile_inv (coeffsOnly d)); [|exact Hs].
  intros by_ t t' Ht H.
  revert H. apply (forWhile_inv (coeffsOnly d)); [|exact Ht].
  intros bx u u' Hu H. injection H as H.
  eapply coeffsOnly_trans; [exact Hu|]. eapply reconstructStored_coeffs; eauto.
Qed.

(** X17: the reconstruction of a progressive image rewrites the stored
    coefficients and the scratch buffer of [reconstructBlock] and nothing
    else: the sink is not called, the cell and the pixel buffer, the
    frame, the tables, the reader and the image are left as they are. *)
Theorem reconstruct_no_sink fuel (d d' : decoder) :
  reconstructProgressiveImage fuel d = Some (Ok d') ->
  emitted d' = emitted d
  /\ processSOSBuf d' = processSOSBuf d /\ callbackBuf d' = callbackBuf d
  /\ sameCore d d' /\ sameImage d d' /\ d_tmp d' = d_tmp d.
Proof.
  intros H. apply reconstruct_coeffs in H. rewrite H.
  split; [reflexivity|]. split; [reflexivity|]. split; [reflexivity|].
  split; [|split; [repeat split | reflexivity]].
  split; [repeat split | auto].
Qed.

End Reconstruction.


Section InPlace.
Context `{P : Primitives}.

Lemma reconstructBlock_total (b : block) bx by_ ci (d : decoder) cmp qt :
  unzigOk = true ->
  length b = Z.to_nat blockSize ->
  index (d_comp d) ci = Ok cmp ->
  index (d_quant d) (comp_tq cmp) = Ok qt ->
  length qt = Z.to_nat blockSize ->
  length (reconstructBlockBuf d) = Z.to_nat blockSize ->
  exists buf,
    reconstructBlock b bx by_ ci d
    = Ok (buf, reconstructed qt b, setReconstructBuf buf d)
    /\ length buf = Z.to_nat blockSize.
Proof.
  intros Hok Hb Hcmp Hqt Hqlen Hbuf.
  destruct (dequantize_spec qt b Hok Hb Hqlen) as (b1 & Hdq & _).
  unfold reconstructed. rewrite Hdq.
  set (b2 := resize (Z.to_nat blockSize) 0 (idct b1)).
  assert (Hb2 : length b2 = 64%nat) by (unfold b2; apply length_resize).
  destruct (fill_loop_total
    (fun k => let* c := index b2 k in Ok (levelShift c)) 64
    (reconstructBlockBuf d)) as (buf & Hfill).
  { intros i Hi. destruct (lookup_lt_is_Some_2 b2 (Z.to_nat i)) as [c Hc]; [lia|].
    exists (levelShift c). rewrite (index_lookup _ _ c) by (try lia; exact Hc).
    reflexivity. }
  { unfold blockSize in Hbuf. simpl in Hbuf. lia. }
  pose proof (fill_loop _ 64 _ _ Hfill) as [Hlen _].
  exists buf. split; [|rewrite Hlen; exact Hbuf].
  unfold reconstructBlock. rewrite Hcmp. simpl. rewrite Hqt. simpl.
  rewrite Hdq. simpl. fold b2. rewrite levelShiftAll_eq.
  change (8 * 8) with (Z.of_nat 64). rewrite Hfill. reflexivity.
Qed.

Lemma reconstructed_length qt (b : block) :
  length b = Z.to_nat blockSize -> length (reconstructed qt b) = Z.to_nat blockSize.
Proof.
  intros Hb. unfold reconstructed. destruct (dequantize qt b); [|exact Hb].
  apply length_resize.
Qed.

(** One store, through a list of block indices. *)
Lemma storedLoop (i : Z) cmp qt (ks : list Z) :
  unzigOk = true -> 0 <= i -> 0 <= comp_tq cmp ->
  length qt = Z.to_nat blockSize ->
  forall (d : decoder) (bl : list block),
  d_comp d !! Z.to_nat i = Some cmp ->
  d_quant d !! Z.to_nat (comp_tq cmp) = Some qt ->
  length (reconstructBlockBuf d) = Z.to_nat blockSize ->
  d_progCoeffs d !! Z.to_nat i = Some (Some bl) ->
  Forall (fun b : list Z => length b = Z.to_nat blockSize) bl ->
  Forall (fun k => 0 <= k < Z.of_nat (length bl)) ks ->
  NoDup ks ->
  exists d' bl',
    forEach (fun k d => reconstructStored i k 0 0 d) ks d = Ok d'
    /\ coeffsOnly d d'
    /\ d_progCoeffs d' = <[Z.to_nat i := Some bl']> (d_progCoeffs d)
    /\ length bl' = length bl
    /\ Forall (fun b : list Z => length b = Z.to_nat blockSize) bl'
    /\ length (reconstructBlockBuf d') = Z.to_nat blockSize
    /\ (forall k, k ∈ ks ->
          bl' !! Z.to_nat k = reconstructed qt <$> bl !! Z.to_nat k)
    /\ (forall n : nat, Z.of_nat n ∉ ks -> bl' !! n = bl !! n).
Proof.
  intros Hok Hi Htq Hqlen.
  induction ks as [|k ks IH]; intros d bl Hcmp Hqt Hbuf Hpc H64 Hr Hnd.
  - exists d, bl. split; [reflexivity|]. split; [apply coeffsOnly_refl|].
    split; [symmetry; apply list_insert_id, Hpc|].
    split; [reflexivity|]. split; [exact H64|]. split; [exact Hbuf|].
    split; [intros k Hk; inversion Hk | reflexivity].
  - apply Forall_cons in Hr as [Hk Hr]. apply NoDup_cons in Hnd as [Hnin Hnd].
    destruct (lookup_lt_is_Some_2 bl (Z.to_nat k) ltac:(lia)) as [b Hb].
    assert (Hblen : length b = Z.to_nat blockSize).
    { rewrite Forall_forall in H64. apply H64. eapply list_elem_of_lookup_2, Hb. }
    destruct (reconstructBlock_total b 0 0 i d cmp qt Hok Hblen
                (index_lookup _ _ _ Hi Hcmp) (index_lookup _ _ _ Htq Hqt)
                Hqlen Hbuf) as (buf & Hrec & Hbuflen).
    assert (Hstep : reconstructStored i k 0 0 d
                    = Ok (setProgCoeffs
                            (<[Z.to_nat i :=
                                 Some (<[Z.to_nat k := reconstructed qt b]> bl)]>
                               (d_progCoeffs d))
                            (setReconstructBuf buf d))).
    { unfold reconstructStored, loadCoeffs.
      rewrite (index_lookup _ _ _ Hi Hpc). simpl.
      rewrite (index_lookup bl k b ltac:(lia) Hb). simpl.
      rewrite Hrec. simpl. unfold saveCoeffs. simpl.
      rewrite (index_lookup _ _ _ Hi Hpc). simpl.
      rewrite store_in_range by lia. simpl.
      rewrite store_in_range; [reflexivity|].
      apply lookup_lt_Some in Hpc. lia. }
    set (bl1 := <[Z.to_nat k := reconstructed qt b]> bl).
    set (d1 := setProgCoeffs (<[Z.to_nat i := Some bl1]> (d_progCoeffs d))
                 (setReconstructBuf buf d)).
    assert (Hpc1 : d_progCoeffs d1 !! Z.to_nat i = Some (Some bl1)).
    { simpl. apply list_lookup_insert_eq. apply lookup_lt_Some in Hpc. exact Hpc. }
    destruct (IH d1 bl1) as (d' & bl' & Hrun & Hco & Hpc' & Hlen' & H64' & Hbuf' & Hin & Hout).
    + exact Hcmp.
    + exact Hqt.
    + exact Hbuflen.
    + exact Hpc1.
    + unfold bl1. apply Forall_insert; [exact H64|].
      apply reconstructed_length, Hblen.
    + unfold bl1. rewrite length_insert. exact Hr.
    + exact Hnd.
    + exists d', bl'. split; [simpl; rewrite Hstep; simpl; exact Hrun|].
      split.
      { eapply coeffsOnly_trans; [|exact Hco]. unfold d1. destruct d. reflexivity. }
      split.
      { rewrite Hpc'. simpl. apply list_insert_insert_eq. }
      split; [rewrite Hlen'; unfold bl1; apply length_insert|].
      split; [exact H64'|]. split; [exact Hbuf'|]. split.
      * intros k' Hk'. apply elem_of_cons in Hk' as [->|Hk'].
        -- rewrite Hout by (rewrite Z2Nat.id by lia; exact Hnin).
           unfold bl1. rewrite list_lookup_insert_eq by lia.
           rewrite Hb. reflexivity.
        -- rewrite (Hin k' Hk'). unfold bl1.
           rewrite list_lookup_insert_ne; [reflexivity|].
           intros E. apply Hnin.
           rewrite Forall_forall in Hr. specialize (Hr k' Hk').
           replace k with k' by lia. exact Hk'.
      * intros n Hn. apply not_elem_of_cons in Hn as [Hne Hn].
        rewrite (Hout n Hn). unfold bl1.
        apply list_lookup_insert_ne. lia.
Qed.

Lemma forWhile_forEach {St : Type} (I : St -> Prop) (cond : Z -> St -> bool)
    (body : Z -> St -> option (result St)) (g : Z -> St -> result St) (n : Z) :
  (forall i s, I s -> cond i s = (i <? n)) ->
  (forall i s, I s -> i < n -> body i s = Some (g i s)) ->
  (forall i s s', I s -> g i s = Ok s' -> I s') ->
  forall fuel i s, I s -> (Z.to_nat (n - i) < fuel)%nat ->
  forWhile fuel cond body i s = Some (forEach g (seqZ i (n - i)) s).
Proof.
  intros Hcond Hbody Hg.
  induction fuel as [|fuel IH]; intros i s HI Hfuel; [lia|].
  simpl. rewrite (Hcond i s HI).
  destruct (Z.ltb_spec i n) as [Hlt|Hge].
  - rewrite (Hbody i s HI Hlt). rewrite seqZ_cons by lia. simpl.
    destruct (g i s) as [s'|e] eqn:E; [|reflexivity]. simpl.
    rewrite IH; [|eapply Hg; eauto|lia].
    replace (Z.pred (n - i)) with (n - (i + 1)) by lia.
    replace (Z.succ i) with (i + 1) by lia. reflexivity.
  - rewrite seqZ_nil by lia. reflexivity.
Qed.

Lemma lt_ceil (x h w : Z) : 0 < h -> (x * h <? w) = (x <? (w + h - 1) / h).
Proof.
  intros Hh.
  pose proof (Z.div_mod (w + h - 1) h ltac:(lia)) as Hdm.
  pose proof (Z.mod_pos_bound (w + h - 1) h Hh) as Hr.
  set (q := (w + h - 1) / h) in *. set (r := (w + h - 1) mod h) in *.
  destruct (Z.ltb_spec (x * h) w) as [H1|H1], (Z.ltb_spec x q) as [H2|H2];
    try reflexivity; exfalso.
  - assert (h * q <= h * x) by (apply Z.mul_le_mono_nonneg_l; lia). lia.
  - assert (h * (x + 1) <= h * q) by (apply Z.mul_le_mono_nonneg_l; lia). lia.
Qed.

Lemma ceil_bound (w a : Z) : 0 <= w -> 0 < a -> (w + a - 1) / a <= w.
Proof.
  intros Hw Ha. destruct (Z.eq_dec w 0) as [->|Hne].
  - rewrite Z.div_small by lia. lia.
  - apply Z.lt_succ_r. apply Z.div_lt_upper_bound; [lia|].
    assert (w * 1 <= w * a) by (apply Z.mul_le_mono_nonneg_l; lia). lia.
Qed.

Lemma reconstructStored_anywhere i k bx by_ (d : decoder) :
  reconstructStored i k bx by_ d = reconstructStored i k 0 0 d.
Proof. reflexivity. Qed.

(** The two loops over the blocks of a component, as one loop over the
    indices of the blocks. *)
Lemma blockLoops (fuel : nat) (i v h stride : Z) (d : decoder) :
  0 < v -> 0 < h -> 0 <= d_width d -> 0 <= d_height d ->
  (Z.to_nat (Z.max (d_width d) (d_height d)) < fuel)%nat ->
  let nx := (d_width d + h - 1) / h in
  let ny := (d_height d + v - 1) / v in
  forWhile fuel (fun by_ d => by_ * v <? d_height d)
    (fun by_ d =>
       forWhile fuel (fun bx d => bx * h <? d_width d)
         (fun bx d => Some (reconstructStored i (by_ * stride + bx) bx by_ d))
         0 d)
    0 d
  = Some (forEach (fun k d => reconstructStored i k 0 0 d)
            ((fun j => j / nx * stride + j mod nx) <$> seqZ 0 (nx * ny)) d).
Proof.
  intros Hv Hh Hw Hht Hfuel nx ny.
  pose proof (ceil_bound (d_width d) h Hw Hh) as Hnx.
  pose proof (ceil_bound (d_height d) v Hht Hv) as Hny.
  assert (Hnx0 : 0 <= nx) by (apply Z.div_pos; lia).
  set (I := fun s : decoder => d_width s = d_width d /\ d_height s = d_height d).
  assert (Hstep : forall k bx by_ s s',
            I s -> reconstructStored i k bx by_ s = Ok s' -> I s').
  { intros k bx by_ s s' [H1 H2] Hs. apply reconstructStored_coeffs in Hs.
    rewrite Hs. split; [exact H1 | exact H2]. }
  rewrite (forWhile_forEach I _ _
             (fun by_ s => forEach (fun bx s =>
                reconstructStored i (by_ * stride + bx) bx by_ s) (seqZ 0 nx) s) ny).
  - f_equal. replace (ny - 0) with ny by lia.
    rewrite forEach_fmap.
    exact (forEach_nested_flat
             (fun y x s => reconstructStored i (y * stride + x) 0 0 s)
             nx ny d Hnx0).
  - intros by_ s [_ H2]. rewrite H2. apply lt_ceil. exact Hv.
  - intros by_ s HIs _.
    rewrite (forWhile_forEach I _ _
               (fun bx s => reconstructStored i (by_ * stride + bx) bx by_ s) nx).
    + replace (nx - 0) with nx by lia. reflexivity.
    + intros bx t [H1 _]. rewrite H1. apply lt_ceil. exact Hh.
    + intros bx t _ _. reflexivity.
    + intros bx t t' Ht Hs. eapply Hstep; eauto.
    + exact HIs.
    + unfold nx. lia.
  - intros by_ s s' HIs. apply forEach_invariant; [|exact HIs].
    intros bx t t' Ht Hs. eapply Hstep; eauto.
  - split; reflexivity.
  - unfold ny. lia.
Qed.

Lemma grid_fits (w H hi : Z) :
  0 <= w -> 0 < H -> 0 < hi -> H mod hi = 0 ->
  0 < H / hi /\ 0 <= (w + H / hi - 1) / (H / hi) <= (w + H - 1) / H * hi.
Proof.
  intros Hw HH Hhi Hdiv.
  assert (HE : H = hi * (H / hi)) by (apply Z_div_exact_full_2; lia).
  set (h := H / hi) in *.
  assert (Hh : 0 < h).
  { destruct (Z.lt_ge_cases 0 h) as [|Hle]; [assumption|].
    assert (hi * h <= hi * 0) by (apply Z.mul_le_mono_nonneg_l; lia). lia. }
  split; [exact Hh|].
  pose proof (Z.div_mod (w + H - 1) H ltac:(lia)) as Hdm.
  pose proof (Z.mod_pos_bound (w + H - 1) H HH) as Hr.
  set (m := (w + H - 1) / H) in *.
  split; [apply Z.div_pos; lia|].
  apply Z.lt_succ_r. apply Z.div_lt_upper_bound; [exact Hh|].
  replace (h * Z.succ (m * hi)) with (m * (hi * h) + h) by lia.
  rewrite <- HE. lia.
Qed.

Lemma cells_range (nx ny stride len : Z) :
  0 <= nx <= stride -> ny * stride <= len ->
  Forall (fun k => 0 <= k < len)
         ((fun j => j / nx * stride + j mod nx) <$> seqZ 0 (nx * ny)).
Proof.
  intros Hnx Hlen. apply Forall_fmap, Forall_forall. intros j Hj.
  apply elem_of_seqZ in Hj. simpl.
  assert (Hpos : 0 < nx).
  { destruct (Z.eq_dec nx 0) as [E|E]; [rewrite E in Hj; lia | lia]. }
  pose proof (Z.mod_pos_bound j nx Hpos) as Hr.
  assert (Hq : 0 <= j / nx < ny).
  { split; [apply Z.div_pos; lia|]. apply Z.div_lt_upper_bound; lia. }
  assert (0 <= j / nx * stride) by (apply Z.mul_nonneg_nonneg; lia).
  assert ((j / nx + 1) * stride <= ny * stride)
    by (apply Z.mul_le_mono_nonneg_r; lia).
  lia.
Qed.

Lemma cell_unique (nx stride q1 r1 q2 r2 : Z) :
  0 <= r1 < nx -> 0 <= r2 < nx -> nx <= stride ->
  q1 * stride + r1 = q2 * stride + r2 -> q1 = q2 /\ r1 = r2.
Proof.
  intros H1 H2 Hs E.
  assert (Hq : q1 = q2).
  { destruct (Z.lt_trichotomy q1 q2) as [Hlt|[Heq|Hgt]]; [|exact Heq|].
    - assert ((q1 + 1) * stride <= q2 * stride)
        by (apply Z.mul_le_mono_nonneg_r; lia). lia.
    - assert ((q2 + 1) * stride <= q1 * stride)
        by (apply Z.mul_le_mono_nonneg_r; lia). lia. }
  subst q2. split; [reflexivity | lia].
Qed.

Lemma cells_NoDup (nx ny stride : Z) :
  0 <= nx <= stride ->
  NoDup ((fun j => j / nx * stride + j mod nx) <$> seqZ 0 (nx * ny)).
Proof.
  intros Hnx. apply NoDup_fmap_2_strong; [|apply NoDup_seqZ].
  intros j1 j2 H1 H2 E. apply elem_of_seqZ in H1, H2.
  assert (Hpos : 0 < nx).
  { destruct (Z.eq_dec nx 0) as [E0|E0]; [rewrite E0 in H1; lia | lia]. }
  pose proof (Z.mod_pos_bound j1 nx Hpos) as Hr1.
  pose proof (Z.mod_pos_bound j2 nx Hpos) as Hr2.
  destruct (cell_unique nx stride _ _ _ _ Hr1 Hr2 ltac:(lia) E) as [Eq Er].
  rewrite (Z.div_mod j1 nx), (Z.div_mod j2 nx) by lia. rewrite Eq, Er. reflexivity.
Qed.

Lemma cells_elem (nx ny stride k : Z) :
  0 <= nx ->
  k ∈ (fun j => j / nx * stride + j mod nx) <$> seqZ 0 (nx * ny)
  <-> exists bx by_, 0 <= bx < nx /\ 0 <= by_ < ny /\ k = by_ * stride + bx.
Proof.
  intros Hnx. rewrite list_elem_of_fmap. split.
  - intros (j & -> & Hj). apply elem_of_seqZ in Hj.
    assert (Hpos : 0 < nx).
    { destruct (Z.eq_dec nx 0) as [E|E]; [rewrite E in Hj; lia | lia]. }
    exists (j mod nx), (j / nx).
    split; [apply Z.mod_pos_bound; lia|].
    split; [|reflexivity].
    split; [apply Z.div_pos; lia | apply Z.div_lt_upper_bound; lia].
  - intros (bx & by_ & Hbx & Hby & ->).
    exists (by_ * nx + bx). split.
    + rewrite Z.div_add_l, Z.div_small by lia.
      rewrite (Z.add_comm (by_ * nx) bx), Z.mod_add, Z.mod_small by lia.
      f_equal. lia.
    + apply elem_of_seqZ.
      assert ((by_ + 1) * nx <= ny * nx)
        by (apply Z.mul_le_mono_nonneg_r; lia).
      assert (0 <= by_ * nx) by (apply Z.mul_nonneg_nonneg; lia).
      lia.
Qed.

Lemma component_in_place (fuel : nat) (d : decoder) (i : Z) c0 ci qt
    (bl : list block) :
  unzigOk = true ->
  0 <= d_width d -> 0 <= d_height d ->
  (Z.to_nat (Z.max (d_width d) (d_height d)) < fuel)%nat ->
  d_comp d !! 0%nat = Some c0 -> 0 < comp_h c0 -> 0 < comp_v c0 ->
  0 <= i -> d_comp d !! Z.to_nat i = Some ci ->
  0 < comp_h ci -> 0 < comp_v ci ->
  (8 * comp_h c0) mod comp_h ci = 0 -> (8 * comp_v c0) mod comp_v ci = 0 ->
  0 <= comp_tq ci -> d_quant d !! Z.to_nat (comp_tq ci) = Some qt ->
  length qt = Z.to_nat blockSize ->
  length (reconstructBlockBuf d) = Z.to_nat blockSize ->
  d_progCoeffs d !! Z.to_nat i = Some (Some bl) ->
  Z.of_nat (length bl)
  = Z.quot (d_width d + 8 * comp_h c0 - 1) (8 * comp_h c0)
    * Z.quot (d_height d + 8 * comp_v c0 - 1) (8 * comp_v c0)
    * comp_h ci * comp_v ci ->
  Forall (fun b : list Z => length b = Z.to_nat blockSize) bl ->
  let h := Z.quot (8 * comp_h c0) (comp_h ci) in
  let v := Z.quot (8 * comp_v c0) (comp_v ci) in
  let mxx := Z.quot (d_width d + 8 * comp_h c0 - 1) (8 * comp_h c0) in
  let stride := mxx * comp_h ci in
  exists d' bl',
    reconstructComponent fuel mxx i d = Some (Ok d')
    /\ coeffsOnly d d'
    /\ d_progCoeffs d' = <[Z.to_nat i := Some bl']> (d_progCoeffs d)
    /\ length bl' = length bl
    /\ Forall (fun b : list Z => length b = Z.to_nat blockSize) bl'
    /\ length (reconstructBlockBuf d') = Z.to_nat blockSize
    /\ (forall bx by_, 0 <= bx -> 0 <= by_ ->
          bx * h < d_width d -> by_ * v < d_height d ->
          exists b, bl !! Z.to_nat (by_ * stride + bx) = Some b
                    /\ bl' !! Z.to_nat (by_ * stride + bx)
                       = Some (reconstructed qt b))
    /\ (forall n : nat,
          (forall bx by_, 0 <= bx -> 0 <= by_ ->
             bx * h < d_width d -> by_ * v < d_height d ->
             Z.of_nat n <> by_ * stride + bx) ->
          bl' !! n = bl !! n).
Proof.
  intros Hok Hw Hht Hfuel Hc0 Hh0 Hv0 Hi Hci Hhi Hvi Hdh Hdv Htq Hqt Hqlen
         Hbuf Hpc Hlen H64 h v mxx stride.
  destruct (grid_fits (d_width d) (8 * comp_h c0) (comp_h ci) Hw ltac:(lia) Hhi Hdh)
    as [Hhpos Hnx].
  destruct (grid_fits (d_height d) (8 * comp_v c0) (comp_v ci) Hht ltac:(lia) Hvi Hdv)
    as [Hvpos Hny].
  assert (Eh : h = 8 * comp_h c0 / comp_h ci)
    by (apply Z.quot_div_nonneg; lia).
  assert (Ev : v = 8 * comp_v c0 / comp_v ci)
    by (apply Z.quot_div_nonneg; lia).
  assert (Em : mxx = (d_width d + 8 * comp_h c0 - 1) / (8 * comp_h c0))
    by (apply Z.quot_div_nonneg; lia).
  assert (Emy : Z.quot (d_height d + 8 * comp_v c0 - 1) (8 * comp_v c0)
                = (d_height d + 8 * comp_v c0 - 1) / (8 * comp_v c0))
    by (apply Z.quot_div_nonneg; lia).
  rewrite <- Eh in Hhpos, Hnx. rewrite <- Ev in Hvpos, Hny.
  rewrite <- Em in Hnx. rewrite <- Emy in Hny.
  fold mxx in Hlen.
  set (myy := Z.quot (d_height d + 8 * comp_v c0 - 1) (8 * comp_v c0)) in *.
  set (nx := (d_width d + h - 1) / h) in *.
  set (ny := (d_height d + v - 1) / v) in *.
  set (ks := (fun j => j / nx * stride + j mod nx) <$> seqZ 0 (nx * ny)).
  assert (Hstride : 0 <= stride).
  { unfold stride. lia. }
  assert (Hrows : ny * stride <= Z.of_nat (length bl)).
  { rewrite Hlen.
    replace (mxx * myy * comp_h ci * comp_v ci) with (myy * comp_v ci * stride)
      by (unfold stride; lia).
    apply Z.mul_le_mono_nonneg_r; lia. }
  destruct (storedLoop i ci qt ks Hok Hi Htq Hqlen d bl Hci Hqt Hbuf Hpc H64)
    as (d' & bl' & Hrun & Hco & Hpc' & Hlen' & H64' & Hbuf' & Hin & Hout).
  { apply cells_range; [unfold stride; lia | exact Hrows]. }
  { apply cells_NoDup. unfold stride. lia. }
  exists d', bl'.
  split.
  { unfold reconstructComponent.
    rewrite (index_lookup _ _ _ Hi Hpc).
    rewrite (index_lookup (d_comp d) 0 c0 ltac:(lia) Hc0). cbn [bind].
    rewrite (index_lookup _ _ _ Hi Hci). cbn [bind].
    destruct (Z.eqb_spec (comp_v ci) 0); [lia|].
    destruct (Z.eqb_spec (comp_h ci) 0); [lia|].
    cbv zeta. fold h v mxx stride.
    rewrite (blockLoops fuel i v h stride d Hvpos Hhpos Hw Hht Hfuel).
    fold nx ny ks. rewrite Hrun. reflexivity. }
  split; [exact Hco|]. split; [exact Hpc'|]. split; [exact Hlen'|].
  split; [exact H64'|]. split; [exact Hbuf'|].
  assert (Hcell : forall bx by_, 0 <= bx -> 0 <= by_ ->
            (bx * h < d_width d /\ by_ * v < d_height d
             <-> 0 <= bx < nx /\ 0 <= by_ < ny)).
  { intros bx by_ Hbx Hby.
    pose proof (lt_ceil bx h (d_width d) Hhpos) as Lx.
    pose proof (lt_ceil by_ v (d_height d) Hvpos) as Ly.
    fold nx in Lx. fold ny in Ly.
    destruct (Z.ltb_spec (bx * h) (d_width d)), (Z.ltb_spec bx nx);
      destruct (Z.ltb_spec (by_ * v) (d_height d)), (Z.ltb_spec by_ ny);
      try discriminate; lia. }
  split.
  - intros bx by_ Hbx Hby Hx Hy.
    destruct (proj1 (Hcell bx by_ Hbx Hby) (conj Hx Hy)) as [Hbx' Hby'].
    assert (Hk : by_ * stride + bx ∈ ks).
    { apply cells_elem; [lia|]. exists bx, by_. auto. }
    assert (Hrange : 0 <= by_ * stride + bx < Z.of_nat (length bl)).
    { assert (0 <= by_ * stride) by (apply Z.mul_nonneg_nonneg; lia).
      assert ((by_ + 1) * stride <= ny * stride)
        by (apply Z.mul_le_mono_nonneg_r; lia).
      lia. }
    destruct (lookup_lt_is_Some_2 bl (Z.to_nat (by_ * stride + bx)) ltac:(lia))
      as [b Hb].
    exists b. split; [exact Hb|]. rewrite (Hin _ Hk), Hb. reflexivity.
  - intros n Hn. apply Hout. intros Hk.
    apply cells_elem in Hk as (bx & by_ & Hbx & Hby & E); [|lia].
    apply (Hn bx by_); [lia | lia | | | exact E];
      apply (Hcell bx by_); lia.
Qed.

Lemma forEachW_seqZ_total {St : Type} (I : Z -> St -> Prop)
    (body : Z -> St -> option (result St)) (n : nat) :
  forall (a : Z) (s : St),
  I a s ->
  (forall i s, a <= i < a + Z.of_nat n -> I i s ->
     exists s', body i s = Some (Ok s') /\ I (i + 1) s') ->
  exists s', forEachW body (seqZ a (Z.of_nat n)) s = Some (Ok s')
             /\ I (a + Z.of_nat n) s'.
Proof.
  induction n as [|n IH]; intros a s HI Hbody.
  - exists s. split; [reflexivity|]. replace (a + Z.of_nat 0) with a by lia.
    exact HI.
  - rewrite seqZ_cons by lia. simpl.
    destruct (Hbody a s ltac:(lia) HI) as (s1 & Hs1 & HI1).
    rewrite Hs1.
    replace (Z.pred (Z.of_nat (S n))) with (Z.of_nat n) by lia.
    destruct (IH (Z.succ a) s1) as (s' & Hrun & HI').
    + replace (Z.succ a) with (a + 1) by lia. exact HI1.
    + intros i t Hi Ht. apply Hbody; [lia | exact Ht].
    + exists s'. split; [exact Hrun|].
      replace (a + Z.of_nat (S n)) with (Z.succ a + Z.of_nat n) by lia. exact HI'.
Qed.

Lemma rebuilt_other (d d1 d2 : decoder) (i : Z) :
  d_progCoeffs d2 !! Z.to_nat i = d_progCoeffs d1 !! Z.to_nat i ->
  rebuilt d d1 i -> rebuilt d d2 i.
Proof.
  unfold rebuilt. intros E H.
  destruct (d_progCoeffs d !! Z.to_nat i) as [[bl|]|]; [|congruence|congruence].
  intros c0 ci qt Hc0 Hci Hqt. destruct (H c0 ci qt Hc0 Hci Hqt) as (bl' & Hl & Hrest).
  exists bl'. split; [congruence | exact Hrest].
Qed.

Lemma reconstruct_total fuel (d : decoder) :
  storesOk d ->
  (Z.to_nat (Z.max (d_width d) (d_height d)) < fuel)%nat ->
  exists d',
    reconstructProgressiveImage fuel d = Some (Ok d')
    /\ forall i, 0 <= i < d_nComp d -> rebuilt d d' i.
Proof.
  intros (Hok & Hw & Hht & Hbuf & c0 & Hc0 & Hh0 & Hv0 & Hall) Hfuel.
  unfold reconstructProgressiveImage.
  rewrite (index_lookup (d_comp d) 0 c0 ltac:(lia) Hc0).
  destruct (Z.eqb_spec (8 * comp_h c0) 0); [lia|]. cbv zeta.
  rewrite seqZ_to_nat.
  destruct (forEachW_seqZ_total
    (fun j (d1 : decoder) =>
       coeffsOnly d d1
       /\ length (reconstructBlockBuf d1) = Z.to_nat blockSize
       /\ forall i, 0 <= i < d_nComp d ->
            (i < j -> rebuilt d d1 i)
            /\ (j <= i -> d_progCoeffs d1 !! Z.to_nat i
                          = d_progCoeffs d !! Z.to_nat i))
    (reconstructComponent fuel
       (Z.quot (d_width d + 8 * comp_h c0 - 1) (8 * comp_h c0)))
    (Z.to_nat (d_nComp d)) 0 d) as (d' & Hrun & _ & _ & Hdone).
  - split; [apply coeffsOnly_refl|]. split; [exact Hbuf|].
    intros i Hi. split; [lia | reflexivity].
  - intros j d1 Hj (Hco & Hbuf1 & Hinv).
    assert (Hj' : 0 <= j < d_nComp d) by lia.
    destruct (Hall j Hj') as (ci & pc & Hci & Hpc & Hstore).
    destruct (Hinv j Hj') as [_ Hsame]. specialize (Hsame ltac:(lia)).
    assert (Ew : d_width d1 = d_width d) by (rewrite Hco; reflexivity).
    assert (Eh : d_height d1 = d_height d) by (rewrite Hco; reflexivity).
    assert (Ec : d_comp d1 = d_comp d) by (rewrite Hco; reflexivity).
    assert (Eq : d_quant d1 = d_quant d) by (rewrite Hco; reflexivity).
    destruct pc as [bl|].
    + destruct (Hstore bl eq_refl)
        as (Hhi & Hvi & Hdh & Hdv & Htq & (qt & Hqt & Hqlen) & Hlen & H64).
      assert (Hw1 : 0 <= d_width d1) by (rewrite Ew; exact Hw).
      assert (Hht1 : 0 <= d_height d1) by (rewrite Eh; exact Hht).
      assert (Hfuel1 : (Z.to_nat (Z.max (d_width d1) (d_height d1)) < fuel)%nat)
        by (rewrite Ew, Eh; exact Hfuel).
      assert (Hc01 : d_comp d1 !! 0%nat = Some c0) by (rewrite Ec; exact Hc0).
      assert (Hci1 : d_comp d1 !! Z.to_nat j = Some ci) by (rewrite Ec; exact Hci).
      assert (Hqt1 : d_quant d1 !! Z.to_nat (comp_tq ci) = Some qt)
        by (rewrite Eq; exact Hqt).
      assert (Hpc1 : d_progCoeffs d1 !! Z.to_nat j = Some (Some bl))
        by (rewrite Hsame; exact Hpc).
      assert (Hlen1 : Z.of_nat (length bl)
                = Z.quot (d_width d1 + 8 * comp_h c0 - 1) (8 * comp_h c0)
                  * Z.quot (d_height d1 + 8 * comp_v c0 - 1) (8 * comp_v c0)
                  * comp_h ci * comp_v ci)
        by (rewrite Ew, Eh; exact Hlen).
      destruct (component_in_place fuel d1 j c0 ci qt bl Hok Hw1 Hht1 Hfuel1
                  Hc01 Hh0 Hv0 ltac:(lia) Hci1 Hhi Hvi Hdh Hdv Htq Hqt1 Hqlen
                  Hbuf1 Hpc1 Hlen1 H64)
        as (d2 & bl' & Hstep & Hco2 & Hpc2 & Hlen2 & _ & Hbuf2 & Hvis & Hun).
      rewrite Ew in Hstep. rewrite Ew, Eh in Hvis, Hun.
      exists d2. split; [exact Hstep|].
      split; [eapply coeffsOnly_trans; eauto|]. split; [exact Hbuf2|].
      intros i Hi. split.
      * intros Hlt. destruct (Z.eq_dec i j) as [->|Hne].
        -- unfold rebuilt. rewrite Hpc. intros c0' ci' qt' Hc0' Hci' Hqt'.
           assert (c0' = c0) by congruence. assert (ci' = ci) by congruence.
           subst c0' ci'. assert (qt' = qt) by congruence. subst qt'.
           exists bl'. split.
           { rewrite Hpc2. apply list_lookup_insert_eq.
             apply lookup_lt_Some in Hpc1. exact Hpc1. }
           split; [exact Hlen2|]. split; [exact Hvis | exact Hun].
        -- apply (rebuilt_other d d1 d2).
           ++ rewrite Hpc2. apply list_lookup_insert_ne. lia.
           ++ apply (Hinv i Hi). lia.
      * intros Hge. rewrite Hpc2, list_lookup_insert_ne by lia.
        apply (Hinv i Hi). lia.
    + exists d1. split.
      { unfold reconstructComponent.
        rewrite (index_lookup (d_progCoeffs d1) j None ltac:(lia)
                   ltac:(rewrite Hsame; exact Hpc)).
        reflexivity. }
      split; [exact Hco|]. split; [exact Hbuf1|].
      intros i Hi. split.
      * intros Hlt. destruct (Z.eq_dec i j) as [->|Hne].
        -- unfold rebuilt. rewrite Hpc. rewrite Hsame. exact Hpc.
        -- apply (Hinv i Hi). lia.
      * intros Hge. apply (Hinv i Hi). lia.
  - exists d'. split; [exact Hrun|].
    intros i Hi. apply (Hdone i Hi). lia.
Qed.

(** X18: once the scans of a progressive image are read, the
    reconstruction runs to its end without an index out of range, and it
    works in place: in every coefficient store, the block of each (bx, by)
    inside the image, at index by*stride + bx, is replaced by the inverse
    DCT of its dequantized coefficients; the other blocks, and the
    components without a store, are as they were. *)
Theorem reconstruct_in_place fuel (d : decoder) :
  storesOk d ->
  (Z.to_nat (Z.max (d_width d) (d_height d)) < fuel)%nat ->
  exists d',
    reconstructProgressiveImage fuel d = Some (Ok d')
    /\ forall i, 0 <= i < d_nComp d -> rebuilt d d' i.
Proof. exact (reconstruct_total fuel d). Qed.

End InPlace.

Lemma scannedCarry_stores : storesOk scannedCarry.
Proof.
  split; [vm_compute; reflexivity|].
  split; [vm_compute; discriminate|]. split; [vm_compute; discriminate|].
  split; [reflexivity|].
  exists (mkComponent 1 1 1 0).
  split; [reflexivity|]. split; [simpl; lia|]. split; [simpl; lia|].
  intros i Hi. assert (i = 0) by (change (d_nComp scannedCarry) with 1 in Hi; lia).
  subst i.
  exists (mkComponent 1 1 1 0), (Some [zeroBlock; zeroBlock]).
  split; [reflexivity|]. split; [vm_compute; reflexivity|].
  intros blocks [= <-].
  split; [simpl; lia|]. split; [simpl; lia|].
  split; [reflexivity|]. split; [reflexivity|]. split; [simpl; lia|].
  split; [exists (replicate 64 1); split; reflexivity|].
  split; [vm_compute; reflexivity|].
  repeat constructor.
Qed.

Lemma reconstruct_no_sink_witness :
  reconstructProgressiveImage 17 scannedCarry = Some (Ok reconstructedCarry)
  /\ emitted reconstructedCarry = emitted scannedCarry.
Proof.
  assert (H : reconstructProgressiveImage 17 scannedCarry
              = Some (Ok reconstructedCarry)) by (vm_compute; reflexivity).
  split; [exact H|].
  exact (proj1 (@reconstruct_no_sink Scripted _ _ _ H)).
Defined.

Lemma reconstruct_in_place_witness :
  storesOk scannedCarry
  /\ (Z.to_nat (Z.max (d_width scannedCarry) (d_height scannedCarry)) < 17)%nat
  /\ exists d', reconstructProgressiveImage 17 scannedCarry = Some (Ok d').
Proof.
  assert (H : (Z.to_nat (Z.max (d_width scannedCarry) (d_height scannedCarry))
               < 17)%nat) by (vm_compute; lia).
  split; [exact scannedCarry_stores|]. split; [exact H|].
  destruct (@reconstruct_in_place Scripted 17 scannedCarry scannedCarry_stores H)
    as (d' & Hrun & _).
  exists d'. exact Hrun.
Defined.


(** ** How many blocks a scan decodes *)

Section Counting.
Context `{P : Primitives}.

Lemma visits_app (evs1 evs2 : list scanEvent) :
  visits (evs1 ++ evs2) = visits evs1 + visits evs2.
Proof. unfold visits. rewrite filter_app, length_app. lia. Qed.

Lemma visits_singletons {A : Type} (f : A -> scanEvent) (l : list A) :
  (forall x, isVisit (f x) = true) ->
  visits (flat_map (fun x => [f x]) l) = Z.of_nat (length l).
Proof.
  intros Hf. induction l as [|x l IH]; [reflexivity|].
  simpl flat_map. rewrite visits_cons, Hf, IH. simpl length. lia.
Qed.

Lemma visits_component sp (d : decoder) k e cmp :
  sp_nComp sp <> 1 ->
  d_comp d !! Z.to_nat (scan_compIndex e) = Some cmp ->
  0 <= comp_h cmp * comp_v cmp ->
  visits (componentEvents sp d k e) = comp_h cmp * comp_v cmp.
Proof.
  intros Hn Hc Hhv. unfold componentEvents. rewrite Hc.
  unfold blockEvents. destruct (Z.eqb_spec (sp_nComp sp) 1); [contradiction|].
  simpl negb. cbv iota.
  rewrite (visits_singletons
             (fun j => EvVisit e (comp_h cmp)
                         (comp_h cmp * (k mod sp_mxx sp) + j mod comp_h cmp)
                         (comp_v cmp * (k / sp_mxx sp) + j / comp_h cmp)))
    by reflexivity.
  rewrite length_seqZ. lia.
Qed.

Lemma visits_mcu sp (d : decoder) k :
  sp_nComp sp <> 1 ->
  Forall (fun e => exists cmp, d_comp d !! Z.to_nat (scan_compIndex e) = Some cmp
                               /\ 0 < comp_h cmp /\ 0 < comp_v cmp)
         (sp_scan sp) ->
  visits (mcuEvents sp d k) = sumHV d (sp_scan sp).
Proof.
  intros Hn Hall. unfold mcuEvents. rewrite visits_app.
  replace (visits [EvMcu (restartDue sp d (k + 1))]) with 0 by reflexivity.
  rewrite Z.add_0_r.
  induction Hall as [|e scan (cmp & Hc & Hh & Hv) Hall IH]; [reflexivity|].
  simpl flat_map. rewrite visits_app, IH. simpl sumHV. rewrite Hc.
  rewrite (visits_component sp d k e cmp Hn Hc); [reflexivity|].
  apply Z.mul_nonneg_nonneg; lia.
Qed.

Lemma sumHV_comp (d d' : decoder) scan :
  d_comp d' = d_comp d -> sumHV d' scan = sumHV d scan.
Proof. intros E. unfold sumHV. rewrite E. reflexivity. Qed.

Lemma scanHeader_sum n (d : decoder) nComp scan bounds d1 :
  scanHeader n d = Ok (nComp, scan, bounds, d1) ->
  1 < d_nComp d -> sumHV d1 scan <= 10.
Proof.
  unfold scanHeader. intros H Hn.
  destruct (d_nComp d =? 0); [discriminate|].
  destruct ((n <? 6) || _ || _); [discriminate|].
  inv_bind H. rename a into d0.
  destruct (negb _) in H; [discriminate|].
  inv_bind H. destruct a as [sc t].
  destruct (_ && _) eqn:E in H; [discriminate|].
  inv_bind H. injection H as <- <- <- <-.
  apply scanComponents_Ok in Hb0 as [_ Hsum].
  apply d_readFull_Ok in Hb as ((_ & _ & _ & HnC & _) & _).
  apply andb_false_iff in E as [E|E].
  - rewrite Z.gtb_ltb in E. apply Z.ltb_ge in E. lia.
  - rewrite Z.gtb_ltb in E. apply Z.ltb_ge in E. lia.
Qed.

(** X19: in a scan of more than one component every MCU holds exactly
    the sum of h*v blocks of the components of the scan, which a header
    that is accepted keeps at 10 or below. *)
Theorem mcu_blocks n (d : decoder) nComp scan bounds d1 sp st0 :
  frameOk d ->
  scanHeader n d = Ok (nComp, scan, bounds, d1) ->
  scanSetup nComp scan bounds d1 = Ok (sp, st0) ->
  nComp <> 1 ->
  scanLoop sp st0 = forEach (runEvent sp) (scanEvents sp (st_d st0)) st0
  /\ forall k,
       visits (mcuEvents sp (st_d st0) k) = sumHV (st_d st0) scan
       /\ visits (mcuEvents sp (st_d st0) k) <= 10.
Proof.
  intros Hframe Hhdr Hset Hn.
  pose proof (setup_ready _ _ _ _ _ _ _ _ Hframe Hhdr Hset) as Hready.
  split; [apply scanLoop_events; exact Hready|].
  pose proof (scanHeader_sum _ _ _ _ _ _ Hhdr) as Hsum.
  pose proof (scanHeader_entries _ _ _ _ _ _ Hhdr) as (HnC & _).
  apply scanSetup_Ok in Hset
    as (Hf & _ & _ & _ & _ & _ & _ & _ & HspN & Hscan & _).
  destruct Hready as (_ & _ & _ & _ & Hall).
  intros k.
  assert (Hv : visits (mcuEvents sp (st_d st0) k) = sumHV (st_d st0) scan).
  { rewrite <- Hscan. apply visits_mcu; [congruence|].
    eapply Forall_impl; [exact Hall|]. intros e (_ & cmp & Hc & Hh & Hvv). eauto. }
  split; [exact Hv|]. rewrite Hv.
  destruct Hf as (_ & _ & _ & _ & _ & _ & Hcmp & _).
  rewrite (sumHV_comp d1 (st_d st0) scan Hcmp). apply Hsum. lia.
Qed.

End Counting.

Lemma mcu_blocks_witness :
  frameOk d422v
  /\ scanHeader 10 d422v = Ok (3, scan3, (0, 63, 0, 0), readHeader 10 d422v)
  /\ scanSetup 3 scan3 (0, 63, 0, 0) (readHeader 10 d422v)
     = Ok (setup422v.1, setup422v.2)
  /\ 3 <> 1
  /\ visits (mcuEvents setup422v.1 (st_d setup422v.2) 0) = 8.
Proof.
  assert (Hf : frameOk d422v).
  { split; [simpl; lia|]. split; [simpl; lia|].
    intros i cmp Hi Hc. change (d_nComp d422v) with 3 in Hi.
    destruct i as [|[|[|i]]]; [| | |lia]; injection Hc as <-; simpl; lia. }
  assert (H1 : scanHeader 10 d422v
               = Ok (3, scan3, (0, 63, 0, 0), readHeader 10 d422v))
    by (vm_compute; reflexivity).
  assert (H2 : scanSetup 3 scan3 (0, 63, 0, 0) (readHeader 10 d422v)
               = Ok (setup422v.1, setup422v.2)) by (vm_compute; reflexivity).
  assert (H3 : 3 <> 1) by lia.
  split; [exact Hf|]. split; [exact H1|]. split; [exact H2|]. split; [exact H3|].
  destruct (@mcu_blocks Scripted _ _ _ _ _ _ _ _ Hf H1 H2 H3) as [_ Hk].
  rewrite (proj1 (Hk 0)). vm_compute. reflexivity.
Defined.

(** * The blocks of a scan of one component *)

Section SingleScan.
Context `{P : Primitives}.

Lemma count_below {B : Type} (g : Z -> list B) (r lim : Z) (n : nat) :
  (forall x, 0 <= x < lim -> x < Z.of_nat n -> Z.of_nat (length (g x)) = r) ->
  (forall x, lim <= x -> x < Z.of_nat n -> g x = []) ->
  0 <= lim ->
  Z.of_nat (length (flat_map g (seqZ 0 (Z.of_nat n))))
  = Z.min (Z.of_nat n) lim * r.
Proof.
  intros Hin Hout Hlim. induction n as [|n IH].
  { simpl. rewrite Z.min_l by lia. reflexivity. }
  rewrite seqZ_S, flat_map_app, length_app, Nat2Z.inj_add.
  rewrite IH;
    [|intros; apply Hin; lia|intros; apply Hout; lia].
  rewrite Z.add_0_l. simpl flat_map. rewrite app_nil_r.
  destruct (Z.lt_ge_cases (Z.of_nat n) lim) as [Hl|Hl].
  - rewrite Hin by lia. rewrite !Z.min_l by lia. lia.
  - rewrite Hout by lia. simpl length. rewrite !Z.min_r by lia. lia.
Qed.

Lemma flat_map_all_nil {A B : Type} (g : A -> list B) (l : list A) :
  (forall x, In x l -> g x = []) -> flat_map g l = [].
Proof.
  induction l as [|a l IH]; intros H; [reflexivity|].
  simpl. rewrite (H a) by (left; reflexivity).
  apply IH. intros x Hx. apply H. right. exact Hx.
Qed.

Lemma raster_count sp (d : decoder) e hi vi :
  0 <= sp_mxx sp * hi -> 0 <= sp_myy sp * vi ->
  Z.of_nat (length (rasterVisits sp d e hi vi))
  = Z.min (sp_mxx sp * hi) ((d_width d + 7) / 8)
    * Z.min (sp_myy sp * vi) ((d_height d + 7) / 8)
    \/ d_width d < 0 \/ d_height d < 0.
Proof.
  intros HW HH.
  destruct (Z.lt_ge_cases (d_width d) 0) as [Hw|Hw]; [right; left; exact Hw|].
  destruct (Z.lt_ge_cases (d_height d) 0) as [Hh|Hh]; [right; right; exact Hh|].
  left. unfold rasterVisits.
  set (W := sp_mxx sp * hi) in *. set (H := sp_myy sp * vi) in *.
  set (f := fun count : Z =>
              if (d_width d <=? 8 * (count mod W)) || (d_height d <=? 8 * (count / W))
              then [] else [EvVisit e hi (count mod W) (count / W)]).
  change (Z.of_nat (length (flat_map f
            (seqZ 0 (sp_mxx sp * sp_myy sp * (hi * vi)))))
          = Z.min W ((d_width d + 7) / 8) * Z.min H ((d_height d + 7) / 8)).
  replace (sp_mxx sp * sp_myy sp * (hi * vi)) with (Z.of_nat (Z.to_nat H) * W)
    by (rewrite Z2Nat.id by exact HH; unfold H, W; ring).
  rewrite <- (flat_map_nested f W (Z.to_nat H) HW).
  assert (Hcw : 0 <= (d_width d + 7) / 8) by (apply Z.div_pos; lia).
  assert (Hch : 0 <= (d_height d + 7) / 8) by (apply Z.div_pos; lia).
  assert (Hpos : forall by_ x, 0 <= by_ -> 0 <= x < W ->
            (by_ * W + x) mod W = x /\ (by_ * W + x) / W = by_).
  { intros by_ x Hb Hx. split.
    - rewrite Z.add_comm, Z.mod_add, Z.mod_small by lia. reflexivity.
    - rewrite Z.add_comm, Z.div_add, Z.div_small by lia. lia. }
  rewrite (count_below _ (Z.min W ((d_width d + 7) / 8)) ((d_height d + 7) / 8)).
  - rewrite Z2Nat.id by exact HH. ring.
  - intros by_ Hby _.
    replace (seqZ 0 W) with (seqZ 0 (Z.of_nat (Z.to_nat W)))
      by (rewrite Z2Nat.id by exact HW; reflexivity).
    rewrite (count_below _ 1 ((d_width d + 7) / 8)).
    + rewrite Z2Nat.id by exact HW. lia.
    + intros x Hx HxW. rewrite Z2Nat.id in HxW by exact HW.
      destruct (Hpos by_ x) as [Em Ed]; [lia|lia|].
      unfold f. rewrite Em, Ed.
      pose proof (lt_ceil x 8 (d_width d) ltac:(lia)) as Ex.
      pose proof (lt_ceil by_ 8 (d_height d) ltac:(lia)) as Ey.
      replace (d_width d + 8 - 1) with (d_width d + 7) in Ex by lia.
      replace (d_height d + 8 - 1) with (d_height d + 7) in Ey by lia.
      destruct (Z.ltb_spec x ((d_width d + 7) / 8)); [|lia].
      destruct (Z.ltb_spec by_ ((d_height d + 7) / 8)); [|lia].
      apply Z.ltb_lt in Ex, Ey.
      destruct (Z.leb_spec (d_width d) (8 * x)); [lia|].
      destruct (Z.leb_spec (d_height d) (8 * by_)); [lia|]. reflexivity.
    + intros x Hx HxW. rewrite Z2Nat.id in HxW by exact HW.
      destruct (Hpos by_ x) as [Em Ed]; [lia|lia|].
      unfold f. rewrite Em, Ed.
      pose proof (lt_ceil x 8 (d_width d) ltac:(lia)) as Ex.
      replace (d_width d + 8 - 1) with (d_width d + 7) in Ex by lia.
      destruct (Z.ltb_spec x ((d_width d + 7) / 8)); [lia|].
      apply Z.ltb_ge in Ex.
      destruct (Z.leb_spec (d_width d) (8 * x)); [reflexivity|lia].
    + exact Hcw.
  - intros by_ Hby _. apply flat_map_all_nil. intros x Hx.
    apply list_elem_of_In, elem_of_seqZ in Hx.
    destruct (Hpos by_ x) as [Em Ed]; [lia|lia|].
    unfold f. rewrite Em, Ed.
    pose proof (lt_ceil by_ 8 (d_height d) ltac:(lia)) as Ey.
    replace (d_height d + 8 - 1) with (d_height d + 7) in Ey by lia.
    destruct (Z.ltb_spec by_ ((d_height d + 7) / 8)); [lia|].
    apply Z.ltb_ge in Ey.
    destruct (Z.leb_spec (d_height d) (8 * by_)); [|lia].
    rewrite orb_true_r. reflexivity.
  - exact Hch.
Qed.

Lemma setup_rows n (d : decoder) nComp scan bounds d1 sp st :
  frameOk d ->
  scanHeader n d = Ok (nComp, scan, bounds, d1) ->
  scanSetup nComp scan bounds d1 = Ok (sp, st) ->
  0 <= sp_myy sp.
Proof.
  intros (Hw & Hh & Hcomp) Hhdr Hset.
  apply scanHeader_Ok in Hhdr as (Hread & _ & HnC & Hlen & Hscan & _).
  apply d_readFull_Ok in Hread as (Hf1 & _).
  apply scanSetup_Ok in Hset
    as (_ & _ & _ & _ & _ & _ & _ & _ & _ & _ & _ & c0 & Hc0 & _ & Hmyy).
  destruct Hf1 as (_ & Hh1 & _ & HnC1 & _ & _ & Hcomp1 & _).
  assert (Hn1 : 1 <= d_nComp d).
  { destruct scan as [|e scan]; [simpl in Hlen; lia|].
    apply Forall_inv in Hscan. lia. }
  rewrite Hmyy. rewrite Hcomp1 in Hc0.
  assert (H0n : Z.of_nat 0 < d_nComp d) by (simpl; lia).
  destruct (Hcomp 0%nat c0 H0n Hc0) as [_ Hv0].
  rewrite Hh1. apply quot_nonneg_ceil; lia.
Qed.

(** X20: a scan of one component decodes exactly
    min(mxx*h, ceil(width/8)) * min(myy*v, ceil(height/8)) blocks: the
    blocks of the component's grid that begin inside the image, where
    mxx and myy are the numbers of MCUs across and down and h, v are the
    sampling factors of the component. *)
Theorem single_scan_blocks n (d : decoder) nComp scan bounds d1 sp st0 e cmp :
  frameOk d ->
  scanHeader n d = Ok (nComp, scan, bounds, d1) ->
  scanSetup nComp scan bounds d1 = Ok (sp, st0) ->
  nComp = 1 ->
  sp_scan sp = [e] ->
  d_comp (st_d st0) !! Z.to_nat (scan_compIndex e) = Some cmp ->
  scanLoop sp st0 = forEach (runEvent sp) (scanEvents sp (st_d st0)) st0
  /\ visits (scanEvents sp (st_d st0))
     = Z.min (sp_mxx sp * comp_h cmp) ((d_width d + 7) / 8)
       * Z.min (sp_myy sp * comp_v cmp) ((d_height d + 7) / 8).
Proof.
  intros Hframe Hhdr Hset Hn Hscan Hcmp.
  pose proof (setup_ready _ _ _ _ _ _ _ _ Hframe Hhdr Hset) as Hready.
  pose proof (setup_rows _ _ _ _ _ _ _ _ Hframe Hhdr Hset) as Hy.
  split; [apply scanLoop_events; exact Hready|].
  pose proof Hframe as (Hw & Hh & Hcomp).
  apply scanHeader_Ok in Hhdr as (Hread & _).
  apply d_readFull_Ok in Hread as (Hf1 & _).
  apply scanSetup_Ok in Hset
    as (Hf2 & _ & _ & _ & _ & _ & _ & _ & HspN & _ & _ & c0 & Hc0 & Hmxx & Hmyy).
  pose proof (sameFrame_trans _ _ _ Hf1 Hf2) as Hf.
  destruct Hf as (Hw' & Hh' & _ & _ & _ & _ & _).
  destruct Hready as (Hx & _ & _ & _ & Hall).
  rewrite Hscan in Hall. apply Forall_cons in Hall as ((_ & cmp' & Hc' & Hph & Hpv) & _).
  rewrite Hcmp in Hc'. injection Hc' as <-.
  unfold visits. rewrite (scanEvents_raster sp (st_d st0) e cmp); try assumption;
    [|congruence|lia].
  destruct (raster_count sp (st_d st0) e (comp_h cmp) (comp_v cmp)) as [E|[E|E]];
    [lia|lia| |lia|lia].
  rewrite E, Hw', Hh'. reflexivity.
Qed.

End SingleScan.

Lemma single_scan_blocks_witness :
  frameOk dCarry
  /\ scanHeader 6 dCarry
     = Ok (1, [mkScanEntry 0 0 0], (1, 63, 0, 0), readHeader 6 dCarry)
  /\ scanSetup 1 [mkScanEntry 0 0 0] (1, 63, 0, 0) (readHeader 6 dCarry)
     = Ok (carrySetup.1, carrySetup.2)
  /\ sp_scan carrySetup.1 = [mkScanEntry 0 0 0]
  /\ d_comp (st_d carrySetup.2) !! 0%nat = Some (mkComponent 1 1 1 0)
  /\ visits (scanEvents carrySetup.1 (st_d carrySetup.2)) = 2.
Proof.
  assert (Hf : frameOk dCarry).
  { split; [simpl; lia|]. split; [simpl; lia|].
    intros i cmp Hi Hc. change (d_nComp dCarry) with 1 in Hi.
    destruct i as [|i]; [|lia]. injection Hc as <-. simpl. lia. }
  assert (H1 : scanHeader 6 dCarry
               = Ok (1, [mkScanEntry 0 0 0], (1, 63, 0, 0), readHeader 6 dCarry))
    by (vm_compute; reflexivity).
  assert (H2 : scanSetup 1 [mkScanEntry 0 0 0] (1, 63, 0, 0) (readHeader 6 dCarry)
               = Ok (carrySetup.1, carrySetup.2)) by (vm_compute; reflexivity).
  assert (H3 : sp_scan carrySetup.1 = [mkScanEntry 0 0 0])
    by (vm_compute; reflexivity).
  assert (H4 : d_comp (st_d carrySetup.2) !! Z.to_nat (scan_compIndex (mkScanEntry 0 0 0))
               = Some (mkComponent 1 1 1 0)) by (vm_compute; reflexivity).
  split; [exact Hf|]. split; [exact H1|]. split; [exact H2|].
  split; [exact H3|]. split; [exact H4|].
  destruct (@single_scan_blocks Scripted _ _ _ _ _ _ _ _ _ _
              Hf H1 H2 eq_refl H3 H4) as [_ Hk].
  rewrite Hk. vm_compute. reflexivity.
Defined.
